(** * ModuMentor agent: tool selection, workflow execution, conversation memory

    A shallow embedding of the decision core of the assistant:
    - [agents/tool_manager.py]      ([ToolManager.select_tool]),
    - [agents/workflow_manager.py]  (step ordering, execution, plan parsing),
    - [utils/conversation_memory.py] (bounded history and its analysis),
    - [agents/intelligent_agent.py] (validation of the final answer).

    Python values are modelled as follows.  A [str] is a Rocq [string]
    holding its UTF-8 bytes; a [dict] keyed by strings is a [gmap]; a call
    that may raise returns an [Outcome]; the outside world (adapters, the
    language model, the clock) is an explicit state that is threaded through
    every call.  Of the log, the [logger.warning] and [logger.error] lines of
    the tool and workflow managers are recorded. *)

From Stdlib Require Import QArith Lqa.
From stdpp Require Import base list strings gmap pretty sorting.

Set Default Proof Using "Type".
Open Scope string_scope.
Open Scope list_scope.
Open Scope nat_scope.

(** ** Exceptions, outcomes and the log *)

Record Exn := { exn_class : string; exn_msg : string }.

Inductive Outcome (A : Type) : Type :=
| Returned (a : A)
| Raised (e : Exn).
Arguments Returned {A} a.
Arguments Raised {A} e.

Inductive Level := WARNING | ERROR.

Definition LogEntry : Type := Level * string.

#[global] Instance Exn_eq_dec : EqDecision Exn.
Proof. solve_decision. Defined.
#[global] Instance Level_eq_dec : EqDecision Level.
Proof. solve_decision. Defined.

(** ** Python strings ([str] methods used by the agent)

    A [str] is modelled by the [string] of its UTF-8 bytes.  [lower] and
    [strip] act on the ASCII range, where they agree with Python; bytes of
    other characters are left as they are. *)

Module Py.

Definition nl : string := String (Ascii.ascii_of_nat 10) "".

Definition is_upper (c : Ascii.ascii) : bool :=
  (65 <=? Ascii.nat_of_ascii c)%nat && (Ascii.nat_of_ascii c <=? 90)%nat.

Definition lower_char (c : Ascii.ascii) : Ascii.ascii :=
  if is_upper c then Ascii.ascii_of_nat (Ascii.nat_of_ascii c + 32) else c.

(** [s.lower()] *)
Fixpoint lower (s : string) : string :=
  match s with
  | EmptyString => EmptyString
  | String c r => String (lower_char c) (lower r)
  end.

(** [c.isspace()] on the ASCII range: TAB, LF, VT, FF, CR, FS, GS, RS, US and
    the space. *)
Definition is_space (c : Ascii.ascii) : bool :=
  let n := Ascii.nat_of_ascii c in
  ((9 <=? n)%nat && (n <=? 13)%nat) || ((28 <=? n)%nat && (n <=? 32)%nat).

Fixpoint lstrip (s : string) : string :=
  match s with
  | EmptyString => EmptyString
  | String c r => if is_space c then lstrip r else s
  end.

Fixpoint rstrip (s : string) : string :=
  match s with
  | EmptyString => EmptyString
  | String c r =>
      match rstrip r with
      | EmptyString => if is_space c then EmptyString else String c EmptyString
      | r' => String c r'
      end
  end.

(** [s.strip()] *)
Definition strip (s : string) : string := rstrip (lstrip s).

(** [s.startswith(p)] *)
Definition startswith (s p : string) : bool := String.prefix p s.

(** [needle in hay] *)
Fixpoint contains (needle hay : string) : bool :=
  String.prefix needle hay ||
  match hay with
  | EmptyString => false
  | String _ r => contains needle r
  end.

Fixpoint drop (n : nat) (s : string) : string :=
  match n, s with
  | O, _ => s
  | S _, EmptyString => EmptyString
  | S n', String _ r => drop n' r
  end.

(** [s.split(c)] for a one-character separator. *)
Fixpoint split_char (c : Ascii.ascii) (s : string) : list string :=
  match s with
  | EmptyString => [EmptyString]
  | String a r =>
      if bool_decide (a = c) then EmptyString :: split_char c r
      else match split_char c r with
           | h :: t => String a h :: t
           | [] => [String a EmptyString]
           end
  end.

(** The first occurrence of [sep] in [s]: what is before and after it. *)
Fixpoint partition (sep s : string) : option (string * string) :=
  if String.prefix sep s then Some (EmptyString, drop (String.length sep) s)
  else match s with
       | EmptyString => None
       | String a r =>
           match partition sep r with
           | Some (h, t) => Some (String a h, t)
           | None => None
           end
       end.

(** [s.split(sep, 1)] *)
Definition split1 (sep s : string) : list string :=
  match partition sep s with
  | Some (h, t) => [h; t]
  | None => [s]
  end.

(** [sep.join(l)] *)
Fixpoint join (sep : string) (l : list string) : string :=
  match l with
  | [] => EmptyString
  | [x] => x
  | x :: rest => x +:+ sep +:+ join sep rest
  end.

(** A byte that continues a UTF-8 sequence (10xxxxxx). *)
Definition is_continuation (c : Ascii.ascii) : bool :=
  (128 <=? Ascii.nat_of_ascii c)%nat && (Ascii.nat_of_ascii c <? 192)%nat.

(** [len(s)]: the number of characters, not of bytes. *)
Fixpoint len (s : string) : nat :=
  match s with
  | EmptyString => 0
  | String c r => if is_continuation c then len r else S (len r)
  end.

(** [s[:n]]: the first [n] characters, for [n >= 0].  The bytes that continue
    a character are kept with it. *)
Fixpoint take (n : nat) (s : string) {struct s} : string :=
  match s with
  | EmptyString => EmptyString
  | String c r =>
      if is_continuation c then String c (take n r)
      else match n with
           | O => EmptyString
           | S n' => String c (take n' r)
           end
  end.

(** [s.split()]: the words between runs of white space. *)
Fixpoint split (s : string) : list string :=
  match s with
  | EmptyString => []
  | String c r =>
      if is_space c then split r
      else match r with
           | EmptyString => [String c EmptyString]
           | String c' _ =>
               if is_space c' then String c EmptyString :: split r
               else match split r with
                    | word :: words => String c word :: words
                    | [] => [String c EmptyString]
                    end
           end
  end.

End Py.

(** ** Tool adapters ([tools/base_tool.py])

    [BaseTool] is the abstract interface of the adapters.  [can_handle] is a
    Python method: it may return a boolean or raise.  [execute] talks to the
    outside world. *)

Record BaseTool (World : Type) := {
  name : string;
  can_handle : string → Outcome bool;
  execute : string → World → Outcome string * World;
  get_description : string
}.
Arguments name {World} _.
Arguments can_handle {World} _ _.
Arguments execute {World} _ _ _.
Arguments get_description {World} _.

(** First element of [l] whose name is [n]: the idiom
    [for t in l: if t.name == n: return t]. *)
Definition find_named {World} (n : string) (l : list (BaseTool World))
  : option (BaseTool World) :=
  List.find (λ t, bool_decide (name t = n)) l.

Module ToolManager.
Section ToolManager.
Context {World : Type}.
#[local] Abbreviation Tool := (BaseTool World).

(** The first loop of [select_tool]: evaluates [can_handle] on every tool
    in registration order and collects those that answer [True].  An
    exception raised by a predicate leaves the loop. *)
Fixpoint suitable_tools (tools : list Tool) (query : string)
  : Outcome (list Tool) :=
  match tools with
  | [] => Returned []
  | tool :: rest =>
      match can_handle tool query with
      | Raised e => Raised e
      | Returned b =>
          match suitable_tools rest query with
          | Raised e => Raised e
          | Returned l => Returned (if b then tool :: l else l)
          end
      end
  end.

Definition priority_order : list string :=
  ["GoogleSheets"; "Gmail"; "Dictionary"; "Lyrics"; "AdvancedAI"; "Weather";
   "WebSearch"].

(** [for tool_name in priority_order: for tool in suitable: if ... return] *)
Fixpoint by_priority (order : list string) (suitable : list Tool)
  : option Tool :=
  match order with
  | [] => None
  | tool_name :: order' =>
      match find_named tool_name suitable with
      | Some tool => Some tool
      | None => by_priority order' suitable
      end
  end.

Definition no_tool_warning (query : string) : LogEntry :=
  (WARNING, "ToolManager: No suitable tool found for the query: '" +:+ query +:+ "'").

Definition select_tool (tools : list Tool) (query : string)
  : list LogEntry * Outcome (option Tool) :=
  match suitable_tools tools query with
  | Raised e => ([], Raised e)
  | Returned suitable =>
      match (match suitable with
             | [] => None
             | _ :: _ => by_priority priority_order suitable
             end) with
      | Some tool => ([], Returned (Some tool))
      | None =>
          match find_named "WebSearch" tools with
          | Some tool => ([], Returned (Some tool))
          | None => ([no_tool_warning query], Returned None)
          end
      end
  end.

(** [needs_tool]: [any(tool.can_handle(query) for tool in self.tools)]. *)
Fixpoint needs_tool (tools : list Tool) (query : string) : Outcome bool :=
  match tools with
  | [] => Returned false
  | tool :: rest =>
      match can_handle tool query with
      | Raised e => Raised e
      | Returned true => Returned true
      | Returned false => needs_tool rest query
      end
  end.

(** [get_tool_suggestions]: one line per tool that claims the query, in
    registration order. *)
Fixpoint get_tool_suggestions (tools : list Tool) (query : string)
  : Outcome (list string) :=
  match tools with
  | [] => Returned []
  | tool :: rest =>
      match can_handle tool query with
      | Raised e => Raised e
      | Returned b =>
          match get_tool_suggestions rest query with
          | Raised e => Raised e
          | Returned suggestions =>
              Returned (if b
                        then (name tool +:+ ": " +:+ get_description tool) :: suggestions
                        else suggestions)
          end
      end
  end.

End ToolManager.
End ToolManager.

(** ** Workflows ([agents/workflow_manager.py]) *)

Inductive WorkflowStepType :=
| TOOL_EXECUTION | DATA_PROCESSING | CONDITIONAL | NOTIFICATION.

(** The values found in step parameters and in the results of a run. *)
Inductive PyVal :=
| VNone
| VBool (b : bool)
| VInt (z : Z)
| VStr (s : string).

#[global] Instance WorkflowStepType_eq_dec : EqDecision WorkflowStepType.
Proof. solve_decision. Defined.
#[global] Instance PyVal_eq_dec : EqDecision PyVal.
Proof. solve_decision. Defined.

(** The dataclass [WorkflowStep].  [depends_on], [condition] and
    [output_variable] default to [None]. *)
Record WorkflowStep := {
  step_id : string;
  step_type : WorkflowStepType;
  tool_name : string;
  action : string;
  parameters : gmap string PyVal;
  depends_on : option (list string);
  condition : option string;
  output_variable : option string
}.

(** The generated [__eq__] of the dataclass compares the fields. *)
#[global] Instance WorkflowStep_eq_dec : EqDecision WorkflowStep.
Proof. solve_decision. Defined.

(** The dataclass [WorkflowResult]. *)
Record WorkflowResult := {
  success : bool;
  steps_completed : nat;
  total_steps : nat;
  results : gmap string PyVal;
  final_output : string;
  execution_time : Q;
  errors : list string
}.

(** What the agent needs from its surroundings: the clock ([time.time],
    [round], [time.strftime] of [time.localtime]), the language model, and
    the renderings of Python values as text.  The
    iteration order of a [dict] only shows in texts assembled from it; those
    are kept abstract ([_substitute_context_variables], the prompt of the
    summary, [repr]).  [generate_content prompt w] is the call of the model,
    which may raise; what it returns is the outcome of reading
    [response.text], the empty text standing for a falsy response or text.
    [new_model] is the constructor [genai.GenerativeModel]. *)
Class Env (World : Type) := {
  time_time : World → Q * World;
  generate_content : string → World → Outcome (Outcome string) * World;
  new_model : World → Outcome unit * World;
  py_repr_strs : list string → string;
  py_repr_dict : gmap string PyVal → string;
  _substitute_context_variables :
    gmap string PyVal → gmap string PyVal → gmap string PyVal;
  workflow_summary_prompt :
    list WorkflowStep → gmap string PyVal → list string → string;
  py_round : Q → Z → Q;
  strftime_localtime : string → Q → string
}.

(** [str(v)] *)
Definition py_str (v : PyVal) : string :=
  match v with
  | VNone => "None"
  | VBool true => "True"
  | VBool false => "False"
  | VInt z => pretty z
  | VStr s => s
  end.

Definition ValueError (msg : string) : Exn :=
  {| exn_class := "ValueError"; exn_msg := msg |}.

(** [l.remove(x)]: removes the first element equal to [x]; [None] stands for
    the [ValueError] of an absent [x]. *)
Fixpoint list_remove {A} `{EqDecision A} (x : A) (l : list A) : option (list A) :=
  match l with
  | [] => None
  | y :: l' => if decide (y = x) then Some l' else (y ::.) <$> list_remove x l'
  end.

(** [for x in k: l.remove(x)] *)
Fixpoint list_remove_all {A} `{EqDecision A} (k l : list A) : option (list A) :=
  match k with
  | [] => Some l
  | x :: k' =>
      match list_remove x l with
      | None => None
      | Some l' => list_remove_all k' l'
      end
  end.

Module WorkflowManager.

(** The ids a step waits for: [depends_on], [None] read as no dependency. *)
Definition deps (step : WorkflowStep) : list string :=
  default [] (depends_on step).

(** [not step.depends_on or all(dep in [s.step_id for s in sorted_steps]
    for dep in step.depends_on)] *)
Definition is_ready (sorted_steps : list WorkflowStep) (step : WorkflowStep) : bool :=
  match depends_on step with
  | None => true
  | Some [] => true
  | Some ds => forallb (λ dep, bool_decide (dep ∈ step_id <$> sorted_steps)) ds
  end.

Definition circular_warning : LogEntry :=
  (WARNING, "Circular dependency detected in workflow").

Definition remove_error : Exn := ValueError "list.remove(x): x not in list".

(** The [while remaining_steps] loop of [_sort_steps_by_dependencies].  Each
    unit of [fuel] pays for one iteration; [None] means that the fuel ran
    out before the loop ended. *)
Fixpoint sort_loop (fuel : nat) (sorted_steps remaining_steps : list WorkflowStep)
  : option (list LogEntry * Outcome (list WorkflowStep)) :=
  match fuel with
  | O => None
  | S fuel' =>
      match remaining_steps with
      | [] => Some ([], Returned sorted_steps)
      | _ :: _ =>
          let ready_steps := List.filter (is_ready sorted_steps) remaining_steps in
          match ready_steps with
          | [] => Some ([circular_warning], Returned (sorted_steps ++ remaining_steps))
          | _ :: _ =>
              match list_remove_all ready_steps remaining_steps with
              | None => Some ([], Raised remove_error)
              | Some remaining' =>
                  sort_loop fuel' (sorted_steps ++ ready_steps) remaining'
              end
          end
      end
  end.

(** One iteration more than there are steps is always enough (see
    [sort_loop_fuel]). *)
Definition _sort_steps_by_dependencies (steps : list WorkflowStep)
  : option (list LogEntry * Outcome (list WorkflowStep)) :=
  sort_loop (S (length steps)) [] steps.

(** [_parse_ai_workflow_response]: the body of the [try] for one line that
    starts with STEP.  [line.split(':', 1)[1]] raises [IndexError] on a line
    without a colon. *)
Definition parse_step_line (i : nat) (line original_query : string)
  : Outcome (option WorkflowStep) :=
  match Py.split1 ":" line with
  | [_; rest] =>
      match Py.split1 " - " (Py.strip rest) with
      | [part0; part1] =>
          Returned (Some
            {| step_id := "step_" +:+ pretty (i + 1);
               step_type := TOOL_EXECUTION;
               tool_name := Py.strip part0;
               action := Py.strip part1;
               parameters := {[ "query" := VStr original_query ]};
               depends_on := if (0 <? i) then Some ["step_" +:+ pretty i] else None;
               condition := None;
               output_variable := None |})
      | _ => Returned None
      end
  | _ => Raised {| exn_class := "IndexError"; exn_msg := "list index out of range" |}
  end.

(** [for i, line in enumerate(lines)], from index [i] on. *)
Fixpoint parse_lines (i : nat) (lines : list string) (original_query : string)
  : list WorkflowStep * list LogEntry :=
  match lines with
  | [] => ([], [])
  | line :: rest =>
      let '(steps, log) := parse_lines (S i) rest original_query in
      if Py.startswith (Py.strip line) "STEP" then
        match parse_step_line i line original_query with
        | Returned (Some step) => (step :: steps, log)
        | Returned None => (steps, log)
        | Raised e =>
            (steps,
             (WARNING, "Error parsing workflow step: " +:+ line +:+ ", error: " +:+ exn_msg e)
             :: log)
        end
      else (steps, log)
  end.

Definition fallback_step (original_query : string) : WorkflowStep :=
  {| step_id := "fallback";
     step_type := TOOL_EXECUTION;
     tool_name := "WebSearch";
     action := "search";
     parameters := {[ "query" := VStr original_query ]};
     depends_on := None;
     condition := None;
     output_variable := None |}.

Definition _parse_ai_workflow_response (response original_query : string)
  : list WorkflowStep * list LogEntry :=
  let lines := Py.split_char (Ascii.ascii_of_nat 10) (Py.strip response) in
  let '(steps, log) := parse_lines 0 lines original_query in
  (match steps with
   | [] => [fallback_step original_query]
   | _ :: _ => steps
   end, log).

(** The variables of [execute_workflow] while its loop runs.  [attempted]
    is not a variable of the source: it lists the steps handed to
    [_execute_step], in call order. *)
Record ExecState (World : Type) := {
  st_results : gmap string PyVal;
  st_errors : list string;
  st_completed : nat;
  st_log : list LogEntry;
  st_world : World;
  attempted : list WorkflowStep
}.
Arguments st_results {World} _.
Arguments st_errors {World} _.
Arguments st_completed {World} _.
Arguments st_log {World} _.
Arguments st_world {World} _.
Arguments attempted {World} _.

Section Execution.
Context {World : Type} `{!Env World}.

(** [_build_query_from_params] *)
Definition _build_query_from_params (action : string)
    (params : gmap string PyVal) : string :=
  if bool_decide (action = "get_weather") then
    "What's the weather in " +:+ py_str (default (VStr "current location") (params !! "location")) +:+ "?"
  else if bool_decide (action = "search") then
    "Search for " +:+ py_str (default (VStr "") (params !! "query"))
  else if bool_decide (action = "add_data") then
    "Add the research data to the spreadsheet"
  else action +:+ " with parameters: " +:+ py_repr_dict params.

(** [_execute_smart_email] *)
Definition _execute_smart_email (tools : list (BaseTool World))
    (params context : gmap string PyVal) (w : World) : Outcome string * World :=
  match find_named "Gmail" tools with
  | None => (Raised (ValueError "Gmail tool not found"), w)
  | Some gmail_tool =>
      let recipient := default (VStr "team") (params !! "recipient") in
      let subject := default (VStr "Update") (params !! "subject") in
      let info1 :=
        match context !! "weather_data" with
        | Some v => "Weather information: " +:+ py_str v +:+ Py.nl
        | None => ""
        end in
      let info2 :=
        match context !! "research_data" with
        | Some v => "Research findings: " +:+ py_str v +:+ Py.nl
        | None => ""
        end in
      let email_query :=
        "Send email to " +:+ py_str recipient +:+ " about " +:+ py_str subject
        +:+ ". Include this information: " +:+ info1 +:+ info2 in
      execute gmail_tool email_query w
  end.

Definition as_value (r : Outcome string * World) : Outcome PyVal * World :=
  match r with
  | (Returned s, w) => (Returned (VStr s), w)
  | (Raised e, w) => (Raised e, w)
  end.

(** [_execute_step] *)
Definition _execute_step (tools : list (BaseTool World))
    (step : WorkflowStep) (context : gmap string PyVal) (w : World)
  : Outcome PyVal * World :=
  match step_type step with
  | TOOL_EXECUTION =>
      match find_named (tool_name step) tools with
      | None => (Raised (ValueError ("Tool " +:+ tool_name step +:+ " not found")), w)
      | Some tool =>
          let params := _substitute_context_variables (parameters step) context in
          if bool_decide (action step = "send_email") && bool_decide (tool_name step = "Gmail")
          then as_value (_execute_smart_email tools params context w)
          else as_value (execute tool (_build_query_from_params (action step) params) w)
      end
  | _ => (Returned VNone, w)
  end.

(** [[dep for dep in step.depends_on if dep not in results]], empty when
    [depends_on] is falsy. *)
Definition missing_deps (step : WorkflowStep) (results : gmap string PyVal)
  : list string :=
  List.filter (λ dep, bool_decide (results !! dep = None)) (deps step).

Definition missing_msg (step : WorkflowStep) (missing : list string) : string :=
  "Missing dependencies for step " +:+ step_id step +:+ ": " +:+ py_repr_strs missing.

Definition step_error_msg (step : WorkflowStep) (e : Exn) : string :=
  "Error in step " +:+ step_id step +:+ ": " +:+ exn_msg e.

(** [results[step.step_id] = r; if step.output_variable: results[...] = r] *)
Definition store_result (step : WorkflowStep) (r : PyVal)
    (results : gmap string PyVal) : gmap string PyVal :=
  let results' := <[step_id step := r]> results in
  match output_variable step with
  | None => results'
  | Some ov => if bool_decide (ov = "") then results' else <[ov := r]> results'
  end.

(** The body of the [for step in ...] loop, with its [try]/[except]. *)
Definition run_step (tools : list (BaseTool World))
    (st : ExecState World) (step : WorkflowStep) : ExecState World :=
  match missing_deps step (st_results st) with
  | (_ :: _) as missing =>
      {| st_results := st_results st;
         st_errors := st_errors st ++ [missing_msg step missing];
         st_completed := st_completed st;
         st_log := st_log st;
         st_world := st_world st;
         attempted := attempted st |}
  | [] =>
      match _execute_step tools step (st_results st) (st_world st) with
      | (Returned step_result, w) =>
          {| st_results := store_result step step_result (st_results st);
             st_errors := st_errors st;
             st_completed := S (st_completed st);
             st_log := st_log st;
             st_world := w;
             attempted := attempted st ++ [step] |}
      | (Raised e, w) =>
          {| st_results := st_results st;
             st_errors := st_errors st ++ [step_error_msg step e];
             st_completed := st_completed st;
             st_log := st_log st ++ [(ERROR, step_error_msg step e)];
             st_world := w;
             attempted := attempted st ++ [step] |}
      end
  end.

Definition run_steps (tools : list (BaseTool World))
    (st : ExecState World) (order : list WorkflowStep) : ExecState World :=
  foldl (run_step tools) st order.

Definition fallback_summary (steps : list WorkflowStep)
    (results : gmap string PyVal) (errors : list string) : string :=
  match errors with
  | _ :: _ => "ðŸ”„ **Workflow Completed with Issues**" +:+ Py.nl +:+ Py.nl +:+ "âœ… " +:+ pretty (size results) +:+ "/" +:+ pretty (length steps) +:+ " steps completed" +:+ Py.nl +:+ "âŒ " +:+ pretty (length errors) +:+ " errors encountered" +:+ Py.nl +:+ Py.nl +:+ "Some tasks may need manual attention."
  | [] => "ðŸŽ‰ **Workflow Completed Successfully!**" +:+ Py.nl +:+ Py.nl +:+ "âœ… All " +:+ pretty (length steps) +:+ " steps completed" +:+ Py.nl +:+ "ðŸš€ Your automated tasks have been executed successfully!"
  end.

(** [_generate_workflow_summary]: the model is asked for a summary; an empty
    answer or an exception gives the templated one. *)
Definition _generate_workflow_summary (steps : list WorkflowStep)
    (results : gmap string PyVal) (errors : list string) (w : World)
  : string * list LogEntry * World :=
  match generate_content (workflow_summary_prompt steps results errors) w with
  | (Returned (Returned text), w') =>
      if bool_decide (text = "")
      then (fallback_summary steps results errors, [], w')
      else (Py.strip text, [], w')
  | (Returned (Raised e), w') | (Raised e, w') =>
      (fallback_summary steps results errors,
       [(ERROR, "Error generating workflow summary: " +:+ exn_msg e)], w')
  end.

Definition init_state (w : World) : ExecState World :=
  {| st_results := ∅; st_errors := []; st_completed := 0; st_log := [];
     st_world := w; attempted := [] |}.

(** [execute_workflow].  The result is [None] when the ordering loop does not
    end; an exception that leaves the function would be a [Raised]. *)
Definition execute_workflow (tools : list (BaseTool World))
    (steps : list WorkflowStep) (w0 : World)
  : option (Outcome WorkflowResult * list LogEntry * World) :=
  let '(start_time, w1) := time_time w0 in
  match _sort_steps_by_dependencies steps with
  | None => None
  | Some (log0, Raised e) =>
      let '(end_time, w2) := time_time w1 in
      Some (Returned {| success := false;
                        steps_completed := 0;
                        total_steps := length steps;
                        results := ∅;
                        final_output := "Workflow failed: " +:+ exn_msg e;
                        execution_time := end_time - start_time;
                        errors := [] ++ [exn_msg e] |},
            log0 ++ [(ERROR, "Workflow execution failed: " +:+ exn_msg e)], w2)
  | Some (log0, Returned order) =>
      let st := run_steps tools (init_state w1) order in
      let '(summary, log1, w2) :=
        _generate_workflow_summary steps (st_results st) (st_errors st) (st_world st) in
      let '(end_time, w3) := time_time w2 in
      Some (Returned {| success := bool_decide (length (st_errors st) = 0);
                        steps_completed := st_completed st;
                        total_steps := length steps;
                        results := st_results st;
                        final_output := summary;
                        execution_time := end_time - start_time;
                        errors := st_errors st |},
            log0 ++ st_log st ++ log1, w3)
  end.

End Execution.

End WorkflowManager.

(** ** Conversation memory ([utils/conversation_memory.py]) *)

(** [l[-n:]] for an [int] [n]: the last [n] elements when [n] is positive,
    the whole list when [n] is zero, and [l[|n|:]] when [n] is negative. *)
Definition py_last {A} (n : Z) (l : list A) : list A :=
  if (0 <? n)%Z then drop (length l - Z.to_nat n) l
  else drop (Z.to_nat (- n)) l.

(** [a < b] on timestamps. *)
Definition Qlt_bool (a b : Q) : bool := negb (Qle_bool b a).

(** The dataclass [Message]. *)
Record Message := {
  role : string;
  content : string;
  timestamp : Q;
  user_id : string
}.

(** The dataclass [Conversation]; its field [user_id] is [conv_user_id]. *)
Record Conversation := {
  conv_user_id : string;
  messages : list Message;
  created_at : Q;
  last_updated : Q
}.

Definition set_messages (c : Conversation) (msgs : list Message) : Conversation :=
  {| conv_user_id := conv_user_id c; messages := msgs;
     created_at := created_at c; last_updated := last_updated c |}.

(** The instance variables of [ConversationMemory].  Saving to the storage
    file does not change them and its errors are caught: it is left out. *)
Record ConversationMemory := {
  conversations : gmap string Conversation;
  max_conversations : Z;
  max_messages_per_conversation : Z
}.

Record Sentiment := {
  positive_score : nat;
  negative_score : nat;
  question_count : nat;
  overall_sentiment : string;
  engagement_level : string
}.

Record Summary := {
  total_messages : nat;
  user_messages : nat;
  assistant_messages : nat;
  conversation_duration_hours : Q;
  conversation_start : string;
  last_activity : string
}.

Record RecentMessage := {
  rm_role : string;
  rm_content : string;
  rm_timestamp : string
}.

(** The dictionary returned by [analyze_conversation]: either the two keys
    [has_conversation = False] and [message], or the full report with
    [has_conversation = True]. *)
Inductive Analysis :=
| NoHistory (message : string)
| Report (summary : Summary) (topics : list string) (sentiment : Sentiment)
         (insights : list string) (recent_context : string)
         (recent_messages : list RecentMessage).

Definition has_conversation (a : Analysis) : bool :=
  match a with NoHistory _ => false | Report _ _ _ _ _ _ => true end.

(** [a["topics"]] and [a["insights"]], [None] when the key is absent. *)
Definition analysis_topics (a : Analysis) : option (list string) :=
  match a with NoHistory _ => None | Report _ topics _ _ _ _ => Some topics end.

Definition analysis_insights (a : Analysis) : option (list string) :=
  match a with NoHistory _ => None | Report _ _ _ insights _ _ => Some insights end.

Module Memory.

Definition default_max_conversations : Z := 1000.
Definition default_max_messages_per_conversation : Z := 100.

(** [ConversationMemory.__init__]; [stored] is what [_load_conversations]
    found in the storage file. *)
Definition init (max_conversations max_messages_per_conversation : option Z)
    (stored : gmap string Conversation) : ConversationMemory :=
  {| conversations := stored;
     max_conversations := default default_max_conversations max_conversations;
     max_messages_per_conversation :=
       default default_max_messages_per_conversation max_messages_per_conversation |}.

(** [Conversation.get_recent_messages] *)
Definition get_recent_messages (limit : Z) (c : Conversation) : list Message :=
  match messages c with
  | [] => []
  | _ :: _ => py_last limit (messages c)
  end.

(** [Conversation.get_context_string] *)
Definition get_context_string (limit : Z) (c : Conversation) : string :=
  match get_recent_messages limit c with
  | [] => ""
  | recent =>
      Py.join Py.nl
        ((λ msg, (if bool_decide (role msg = "user") then "User" else "Assistant")
                 +:+ ": " +:+ content msg) <$> recent)
  end.

Definition all_content (msgs : list Message) : string :=
  Py.join " " ((λ msg, Py.lower (content msg)) <$> msgs).

Definition topic_keywords : list (string * list string) :=
  [("Weather", ["weather"; "temperature"; "forecast"; "climate"; "rain"; "sunny"; "cloudy"]);
   ("Email", ["email"; "mail"; "send"; "compose"; "inbox"; "outbox"]);
   ("Spreadsheets", ["sheet"; "spreadsheet"; "excel"; "google sheets"; "data"; "update"]);
   ("Web Search", ["search"; "find"; "lookup"; "research"; "information"]);
   ("Dictionary", ["define"; "meaning"; "word"; "dictionary"; "definition"]);
   ("Lyrics", ["lyrics"; "song"; "music"; "artist"; "album"]);
   ("Technical", ["code"; "programming"; "bug"; "error"; "fix"; "debug"]);
   ("Business", ["meeting"; "client"; "project"; "business"; "work"]);
   ("General", ["hello"; "hi"; "how are you"; "thanks"; "thank you"])].

(** [_extract_topics_from_messages] *)
Definition _extract_topics_from_messages (msgs : list Message) : list string :=
  let text := all_content msgs in
  let topics :=
    fst <$> List.filter
              (λ tk, existsb (λ keyword, Py.contains keyword text) (snd tk))
              topic_keywords in
  match topics with
  | [] => ["General conversation"]
  | _ :: _ => topics
  end.

Definition positive_words : list string :=
  ["good"; "great"; "excellent"; "amazing"; "wonderful"; "perfect"; "love";
   "like"; "thanks"; "thank you"; "helpful"; "awesome"].
Definition negative_words : list string :=
  ["bad"; "terrible"; "awful"; "hate"; "dislike"; "problem"; "error"; "wrong";
   "fail"; "broken"; "sad"; "angry"].
Definition question_words : list string :=
  ["what"; "how"; "why"; "when"; "where"; "who"; "which"; "?"].

(** [sum(1 for word in words if word in text)] *)
Definition count_in (words : list string) (text : string) : nat :=
  length (List.filter (λ word, Py.contains word text) words).

(** [_analyze_sentiment]; [total_words] is computed by the source and not
    used. *)
Definition _analyze_sentiment (msgs : list Message) : Sentiment :=
  let text := all_content msgs in
  let positive_count := count_in positive_words text in
  let negative_count := count_in negative_words text in
  let question_count := count_in question_words text in
  {| positive_score := positive_count;
     negative_score := negative_count;
     question_count := question_count;
     overall_sentiment :=
       if negative_count <? positive_count then "positive"
       else if positive_count <? negative_count then "negative"
       else "neutral";
     engagement_level :=
       if 3 <? question_count then "high"
       else if 1 <? question_count then "medium"
       else "low" |}.

(** [_generate_insights] *)
Definition _generate_insights (msgs : list Message) (topics : list string)
    (sentiment : Sentiment) : list string :=
  [ if 10 <? length msgs then "Active conversation with substantial message exchange"
    else if 5 <? length msgs then "Moderate conversation activity"
    else "Brief conversation session" ]
  ++
  [ if 3 <? length topics then "Diverse range of topics discussed"
    else if 1 <? length topics then "Multiple topics covered"
    else "Focused on single topic" ]
  ++
  [ if bool_decide (overall_sentiment sentiment = "positive") then "Generally positive interaction"
    else if bool_decide (overall_sentiment sentiment = "negative") then "Some negative sentiment detected"
    else "Neutral conversation tone" ]
  ++
  [ if bool_decide (engagement_level sentiment = "high") then "High user engagement with many questions"
    else if bool_decide (engagement_level sentiment = "medium") then "Moderate user engagement"
    else "Low question engagement" ]
  ++
  match msgs, last msgs with
  | first :: _, Some final =>
      let time_span := (timestamp final - timestamp first)%Q in
      [ if Qlt_bool 3600 time_span then "Extended conversation session"
        else if Qlt_bool 300 time_span then "Sustained conversation"
        else "Quick interaction" ]
  | _, _ => []
  end.

Section Clocked.
Context {World : Type} `{!Env World}.

(** [Conversation.add_message]: two reads of the clock. *)
Definition add_message (r c : string) (conv : Conversation) (w : World)
  : Conversation * World :=
  let '(t_message, w1) := time_time w in
  let message :=
    {| role := r; content := c; timestamp := t_message;
       user_id := conv_user_id conv |} in
  let '(t_updated, w2) := time_time w1 in
  ({| conv_user_id := conv_user_id conv;
      messages := messages conv ++ [message];
      created_at := created_at conv;
      last_updated := t_updated |}, w2).

(** [Conversation.clear_old_messages] *)
Definition clear_old_messages (max_age_hours : Z) (conv : Conversation) (w : World)
  : Conversation * World :=
  let '(now, w1) := time_time w in
  let cutoff_time := (now - inject_Z (max_age_hours * 3600))%Q in
  (set_messages conv
     (List.filter (λ msg, Qlt_bool cutoff_time (timestamp msg)) (messages conv)),
   w1).

(** [get_or_create_conversation] *)
Definition get_or_create_conversation (uid : string) (mem : ConversationMemory)
    (w : World) : Conversation * ConversationMemory * World :=
  match conversations mem !! uid with
  | Some conv => (conv, mem, w)
  | None =>
      let '(t_created, w1) := time_time w in
      let '(t_updated, w2) := time_time w1 in
      let conv := {| conv_user_id := uid; messages := [];
                     created_at := t_created; last_updated := t_updated |} in
      (conv,
       {| conversations := <[uid := conv]> (conversations mem);
          max_conversations := max_conversations mem;
          max_messages_per_conversation := max_messages_per_conversation mem |},
       w2)
  end.

(** [_cleanup_conversation] *)
Definition _cleanup_conversation (mem : ConversationMemory) (conv : Conversation)
    (w : World) : Conversation * World :=
  let conv1 :=
    if (max_messages_per_conversation mem <? Z.of_nat (length (messages conv)))%Z
    then set_messages conv (py_last (max_messages_per_conversation mem) (messages conv))
    else conv in
  clear_old_messages 24 conv1 w.

(** The common body of [add_user_message] and [add_assistant_message].  The
    conversation is an object shared with the dictionary: what is done to it
    shows under its key. *)
Definition add_message_as (r uid message : string) (mem : ConversationMemory)
    (w : World) : ConversationMemory * World :=
  let '(conv, mem1, w1) := get_or_create_conversation uid mem w in
  let '(conv1, w2) := add_message r message conv w1 in
  let '(conv2, w3) := _cleanup_conversation mem1 conv1 w2 in
  ({| conversations := <[uid := conv2]> (conversations mem1);
      max_conversations := max_conversations mem1;
      max_messages_per_conversation := max_messages_per_conversation mem1 |}, w3).

Definition add_user_message (uid message : string) :=
  add_message_as "user" uid message.

Definition add_assistant_message (uid message : string) :=
  add_message_as "assistant" uid message.

(** [get_conversation_context] *)
Definition get_conversation_context (uid : string) (limit : Z)
    (mem : ConversationMemory) (w : World) : string * ConversationMemory * World :=
  let '(conv, mem1, w1) := get_or_create_conversation uid mem w in
  (get_context_string limit conv, mem1, w1).

(** [clear_conversation] *)
Definition clear_conversation (uid : string) (mem : ConversationMemory)
  : bool * ConversationMemory :=
  match conversations mem !! uid with
  | Some _ =>
      (true, {| conversations := delete uid (conversations mem);
                max_conversations := max_conversations mem;
                max_messages_per_conversation := max_messages_per_conversation mem |})
  | None => (false, mem)
  end.

Definition recent_entry (msg : Message) : RecentMessage :=
  {| rm_role := role msg;
     rm_content := if 100 <? Py.len (content msg)
                   then Py.take 100 (content msg) +:+ "..."
                   else content msg;
     rm_timestamp := strftime_localtime "%H:%M:%S" (timestamp msg) |}.

(** [analyze_conversation] *)
Definition analyze_conversation (uid : string) (mem : ConversationMemory) : Analysis :=
  match conversations mem !! uid with
  | None => NoHistory "No conversation history found for this user."
  | Some conversation =>
      match messages conversation with
      | [] => NoHistory "No messages in conversation history."
      | _ :: _ =>
          let msgs := messages conversation in
          let conversation_duration :=
            (last_updated conversation - created_at conversation)%Q in
          let hours_duration := (conversation_duration / 3600)%Q in
          let topics := _extract_topics_from_messages msgs in
          let sentiment := _analyze_sentiment msgs in
          let insights := _generate_insights msgs topics sentiment in
          Report
            {| total_messages := length msgs;
               user_messages :=
                 length (List.filter (λ msg, bool_decide (role msg = "user")) msgs);
               assistant_messages :=
                 length (List.filter (λ msg, bool_decide (role msg = "assistant")) msgs);
               conversation_duration_hours := py_round hours_duration 2;
               conversation_start :=
                 strftime_localtime "%Y-%m-%d %H:%M:%S" (created_at conversation);
               last_activity :=
                 strftime_localtime "%Y-%m-%d %H:%M:%S" (last_updated conversation) |}
            topics sentiment insights
            (get_context_string 5 conversation)
            (recent_entry <$> get_recent_messages 5 conversation)
      end
  end.

End Clocked.

End Memory.

(** *** Dropping conversations ([cleanup_old_conversations]) *)

Module MemoryCleanup.

(** [sorted(items, key=lambda x: x[1].last_updated)]: Python's sort is
    stable, as is this insertion sort, which puts an item before the items
    that follow it in the input and are not older. *)
Fixpoint insert_by_last_updated (item : string * Conversation)
    (l : list (string * Conversation)) : list (string * Conversation) :=
  match l with
  | [] => [item]
  | other :: l' =>
      if Qle_bool (last_updated item.2) (last_updated other.2) then item :: l
      else other :: insert_by_last_updated item l'
  end.

Definition sorted_by_last_updated (items : list (string * Conversation))
  : list (string * Conversation) :=
  foldr insert_by_last_updated [] items.

(** [for user_id in ...: del self.conversations[user_id]] *)
Definition delete_all (user_ids : list string) (m : gmap string Conversation)
  : gmap string Conversation :=
  foldl (λ m user_id, delete user_id m) m user_ids.

(** [self.conversations.items()], given the keys in the iteration order of
    the dictionary. *)
Definition items_of (keys : list string) (m : gmap string Conversation)
  : list (string * Conversation) :=
  omap (λ user_id, (user_id,.) <$> m !! user_id) keys.

Section Clocked.
Context {World : Type} `{!Env World}.

(** [cleanup_old_conversations].  A Python dictionary iterates in insertion
    order, which the finite map does not record: [keys] is that order. *)
Definition cleanup_old_conversations (max_age_hours : Z) (keys : list string)
    (mem : ConversationMemory) (w : World) : ConversationMemory * World :=
  let '(now, w1) := time_time w in
  let cutoff_time := (now - inject_Z (max_age_hours * 3600))%Q in
  let old_conversations :=
    (List.filter (λ item, Qlt_bool (last_updated item.2) cutoff_time)
       (items_of keys (conversations mem))).*1 in
  let conversations1 := delete_all old_conversations (conversations mem) in
  let conversations2 :=
    if (max_conversations mem <? Z.of_nat (size conversations1))%Z then
      let sorted_conversations :=
        sorted_by_last_updated (items_of keys conversations1) in
      let excess_count :=
        (Z.of_nat (size conversations1) - max_conversations mem)%Z in
      delete_all (take (Z.to_nat excess_count) sorted_conversations).*1 conversations1
    else conversations1 in
  ({| conversations := conversations2;
      max_conversations := max_conversations mem;
      max_messages_per_conversation := max_messages_per_conversation mem |}, w1).

End Clocked.

End MemoryCleanup.

(** ** The agent ([agents/intelligent_agent.py], [utils/quota_monitor.py]) *)

(** The counters of the quota monitor ([usage_data]). *)
Record QuotaMonitor := {
  requests_made : Z;
  quota_limit : Z;
  quota_exceeded : bool
}.

(** The instance variables of [IntelligentAgent] that [process_message]
    reads or writes, with the global quota monitor. *)
Record Agent := {
  conversation_memory : ConversationMemory;
  quota_monitor : QuotaMonitor;
  message_count : Z;
  last_reset : Z;
  system_prompt : string
}.

Module IntelligentAgent.

(** [config.MAX_MESSAGE_LENGTH] *)
Definition MAX_MESSAGE_LENGTH : nat := 4096.

(** The cap that [IntelligentAgent.__init__] passes to the memory. *)
Definition agent_max_conversations : Z := 1000.
Definition agent_max_messages_per_conversation : Z := 50.

Definition new_conversation_memory (stored : gmap string Conversation)
  : ConversationMemory :=
  Memory.init (Some agent_max_conversations)
    (Some agent_max_messages_per_conversation) stored.

Definition friendly_emojis : list string :=
  ["😊"; "🤖"; "👍"; "💡"; "🔍"; "📚"; "🌤️"].

(** [_format_response] *)
Definition _format_response (response : string) : string :=
  let response :=
    if MAX_MESSAGE_LENGTH - 100 <? Py.len response
    then Py.take (MAX_MESSAGE_LENGTH - 100) response +:+ "..."
    else response in
  let response := Py.strip response in
  if existsb (λ emoji, Py.contains emoji response) friendly_emojis
  then response
  else response +:+ " 😊".

Definition stop_words : list string :=
  ["what"; "is"; "the"; "meaning"; "of"; "define"; "search"; "for"; "find";
   "tell"; "me"; "about"].

(** [_extract_search_terms] *)
Definition _extract_search_terms (query : string) : string :=
  let words := Py.split (Py.lower query) in
  let key_words :=
    List.filter
      (λ word, negb (bool_decide (word ∈ stop_words)) && (2 <? Py.len word)) words in
  match key_words with
  | [] => query
  | _ :: _ => Py.join " " key_words
  end.

(** [_format_general_quota_exceeded_response] *)
Definition _format_general_quota_exceeded_response (query : string) : string :=
  "I understand you're asking about: " +:+ query +:+ Py.nl +:+ Py.nl
    +:+ "💡 **Suggestions:**" +:+ Py.nl
    +:+ "• Try asking for specific information like weather, definitions, or web searches" +:+ Py.nl
    +:+ "• Use commands like 'define [word]' or 'weather in [city]'" +:+ Py.nl
    +:+ "• Ask me to search for specific information" +:+ Py.nl +:+ Py.nl
    +:+ "🔧 **Current Status:**" +:+ Py.nl
    +:+ "• API quota has been reached for today" +:+ Py.nl
    +:+ "• Tool-based queries (weather, dictionary, search) still work" +:+ Py.nl
    +:+ "• Enhanced analysis will be available when quota resets" +:+ Py.nl +:+ Py.nl
    +:+ "📋 **Available Commands:**" +:+ Py.nl
    +:+ "• `/help` - Show available features" +:+ Py.nl
    +:+ "• `/stats` - View conversation statistics" +:+ Py.nl
    +:+ "• `/clear` - Clear conversation history".

(** [QuotaMonitor.can_make_request] *)
Definition can_make_request (q : QuotaMonitor) : bool := negb (quota_exceeded q).

(** [QuotaMonitor.increment_request] *)
Definition increment_request (q : QuotaMonitor) : QuotaMonitor :=
  let made := (requests_made q + 1)%Z in
  {| requests_made := made;
     quota_limit := quota_limit q;
     quota_exceeded := if (quota_limit q <=? made)%Z then true else quota_exceeded q |}.

Definition set_memory (a : Agent) (mem : ConversationMemory) : Agent :=
  {| conversation_memory := mem; quota_monitor := quota_monitor a;
     message_count := message_count a; last_reset := last_reset a;
     system_prompt := system_prompt a |}.

Definition set_quota (a : Agent) (q : QuotaMonitor) : Agent :=
  {| conversation_memory := conversation_memory a; quota_monitor := q;
     message_count := message_count a; last_reset := last_reset a;
     system_prompt := system_prompt a |}.

(** [if user_id:] *)
Definition truthy (uid : option string) : option string :=
  match uid with
  | Some u => if bool_decide (u = "") then None else Some u
  | None => None
  end.

Definition is_quota_error (e : Exn) : bool :=
  let error_msg := Py.lower (exn_msg e) in
  Py.contains "quota" error_msg || Py.contains "429" error_msg
  || Py.contains "exceeded" error_msg.

Definition echo_apology : string :=
  "I understand you're asking about something, but I'm having trouble formulating a proper response. Could you please rephrase your question? 😊".
Definition no_response_apology : string :=
  "I'm having trouble generating a response right now. Please try again! 🤖".
Definition technical_difficulties : string :=
  "I'm experiencing some technical difficulties. Please try again in a moment! 🔧".
Definition no_message_reply : string :=
  "I didn't receive any message. Could you please send me something? 😊".
Definition empty_result_reply : string :=
  "I'm having trouble generating a response. Could you please try rephrasing your question? 🤖".
Definition error_reply : string :=
  "Sorry, I encountered an error processing your message. Please try again! 🤖".

Section Agent.
Context {World : Type} `{!Env World}.

(** The [except] branch of [_handle_general_query]. *)
Definition general_query_failed (query : string) (e : Exn) : string :=
  if is_quota_error e then _format_general_quota_exceeded_response query
  else technical_difficulties.

(** [_handle_general_query].  The log lines of the agent are left out. *)
Definition _handle_general_query (query : string) (uid : option string)
    (a : Agent) (w : World) : string * Agent * World :=
  if negb (can_make_request (quota_monitor a))
  then (_format_general_quota_exceeded_response query, a, w)
  else
    let '(conversation_context, a1, w1) :=
      match truthy uid with
      | Some u =>
          let '(context, mem1, w1) :=
            Memory.get_conversation_context u 8 (conversation_memory a) w in
          (if bool_decide (context = "") then ""
           else Py.nl +:+ Py.nl +:+ "Previous conversation:" +:+ Py.nl
                +:+ context +:+ Py.nl,
           set_memory a mem1, w1)
      | None => ("", a, w)
      end in
    let conversation_prompt :=
      system_prompt a1 +:+ conversation_context +:+ Py.nl +:+ "User: " +:+ query
      +:+ Py.nl +:+ "Assistant:" in
    match generate_content conversation_prompt w1 with
    | (Raised e, w2) => (general_query_failed query e, a1, w2)
    | (Returned response_text, w2) =>
        let a2 := set_quota a1 (increment_request (quota_monitor a1)) in
        match response_text with
        | Raised e => (general_query_failed query e, a2, w2)
        | Returned text =>
            if bool_decide (text = "") then (no_response_apology, a2, w2)
            else
              let formatted_response := _format_response text in
              if negb (bool_decide (Py.strip formatted_response = ""))
                 && negb (bool_decide (Py.lower (Py.strip formatted_response)
                                       = Py.lower query))
              then (formatted_response, a2, w2)
              else (echo_apology, a2, w2)
        end
    end.

(** [_reset_state]: a failure of the constructor is caught and leaves
    [last_reset] as it was. *)
Definition _reset_state (a : Agent) (w : World) : Agent * World :=
  match new_model w with
  | (Returned _, w1) =>
      ({| conversation_memory := conversation_memory a;
          quota_monitor := quota_monitor a;
          message_count := message_count a;
          last_reset := message_count a;
          system_prompt := system_prompt a |}, w1)
  | (Raised _, w1) => (a, w1)
  end.

(** The handling paths of [process_message] (memory query, e-mail, workflow,
    tool, general chat), taken as one: from the cleaned message to the
    [result] that the validation receives, or an exception. *)
Definition Handler : Type :=
  string → option string → Agent → World → Outcome string * Agent * World.

(** [process_message], with its [try]/[except]; the [finally] clause only
    records the duration. *)
Definition process_message (handle : Handler) (user_message : string)
    (uid : option string) (a : Agent) (w : World) : string * Agent * World :=
  let a0 :=
    {| conversation_memory := conversation_memory a;
       quota_monitor := quota_monitor a;
       message_count := (message_count a + 1)%Z;
       last_reset := last_reset a;
       system_prompt := system_prompt a |} in
  let '(a1, w1) :=
    if (50 <? message_count a0 - last_reset a0)%Z then _reset_state a0 w
    else (a0, w) in
  if bool_decide (Py.strip user_message = "") then (no_message_reply, a1, w1)
  else
    let cleaned_message := Py.strip user_message in
    let '(a2, w2) :=
      match truthy uid with
      | Some u =>
          let '(mem, w2) :=
            Memory.add_user_message u cleaned_message (conversation_memory a1) w1 in
          (set_memory a1 mem, w2)
      | None => (a1, w1)
      end in
    match handle cleaned_message uid a2 w2 with
    | (Raised _, a3, w3) => (error_reply, a3, w3)
    | (Returned result, a3, w3) =>
        if bool_decide (Py.strip result = "") then (empty_result_reply, a3, w3)
        else if bool_decide (Py.lower (Py.strip result) = Py.lower cleaned_message)
        then _handle_general_query
               ("Please help me understand: " +:+ cleaned_message) uid a3 w3
        else
          match truthy uid with
          | Some u =>
              let '(mem, w4) :=
                Memory.add_assistant_message u result (conversation_memory a3) w3 in
              (result, set_memory a3 mem, w4)
          | None => (result, a3, w3)
          end
    end.

End Agent.

End IntelligentAgent.

(** ** Planning a workflow ([agents/workflow_manager.py]) *)

(** [re.search(pattern, query, re.IGNORECASE)] for the patterns with a group
    of the three [_extract_*] methods: the text of group 1 of the first
    match, [None] without a match. *)
Class Regex := {
  re_group1 : string → string → option string
}.

Definition AttributeError (attribute : string) : Exn :=
  {| exn_class := "AttributeError";
     exn_msg := "'SmartWorkflowManager' object has no attribute '" +:+ attribute +:+ "'" |}.

Module WorkflowPlanner.

Definition dq : string := String (Ascii.ascii_of_nat 34) "".

(** [.*] followed by what [rest] accepts: the dot matches every character
    but the line feed. *)
Fixpoint dot_star (rest : string → bool) (s : string) : bool :=
  rest s ||
  match s with
  | EmptyString => false
  | String c r => negb (bool_decide (c = Ascii.ascii_of_nat 10)) && dot_star rest r
  end.

(** A match, at the start of [s], of the pattern made of the literal [parts]
    joined by [.*]. *)
Fixpoint match_parts (parts : list string) (s : string) : bool :=
  match parts with
  | [] => true
  | part :: rest =>
      String.prefix part s
      && match rest with
         | [] => true
         | _ :: _ => dot_star (match_parts rest) (Py.drop (String.length part) s)
         end
  end.

(** [re.search(trigger, s)] for a trigger [part1.*part2...]: a match at some
    position of [s]. *)
Fixpoint re_search (parts : list string) (s : string) : bool :=
  match_parts parts s ||
  match s with
  | EmptyString => false
  | String _ r => re_search parts r
  end.

(** [self.workflow_patterns], in the order of the dictionary; every trigger
    is given by its literal parts, which [.*] separates in the source.  The
    entry [template] of each pattern is never read. *)
Definition workflow_patterns : list (string * list (list string)) :=
  [("weather_email",
    [["weather"; "email"]; ["check weather"; "send"]; ["weather"; "notify"]]);
   ("research_update",
    [["search"; "update"]; ["research"; "spreadsheet"]; ["find"; "add to sheet"]]);
   ("data_analysis_report",
    [["analyze"; "email"]; ["sheet"; "summary"; "email"]; ["data"; "report"]]);
   ("meeting_prep",
    [["meeting"; "weather"; "email"]; ["prepare"; "meeting"]; ["meeting prep"]])].

(** The two loops of [detect_workflow_intent]: the first pattern one of whose
    triggers is found. *)
Definition triggered (query_lower : string) : option string :=
  fst <$> List.find
            (λ pattern, existsb (λ trigger, re_search trigger query_lower) (snd pattern))
            workflow_patterns.

Definition ai_detection_prompt (query : string) : string :=
  Py.nl
  +:+ "Analyze this user request and determine if it requires multiple sequential actions (a workflow):" +:+ Py.nl
  +:+ Py.nl
  +:+ "Query: " +:+ dq +:+ query +:+ dq +:+ Py.nl
  +:+ Py.nl
  +:+ "Available workflow types:" +:+ Py.nl
  +:+ "1. weather_email - Check weather then send email" +:+ Py.nl
  +:+ "2. research_update - Search/research then update spreadsheet" +:+ Py.nl
  +:+ "3. data_analysis_report - Analyze data then email summary" +:+ Py.nl
  +:+ "4. meeting_prep - Prepare for meeting (weather, emails, etc.)" +:+ Py.nl
  +:+ Py.nl
  +:+ "If this requires multiple sequential actions, respond with the workflow type." +:+ Py.nl
  +:+ "If it's a single action, respond with " +:+ dq +:+ "none" +:+ dq +:+ "." +:+ Py.nl
  +:+ Py.nl
  +:+ "Response (just the workflow type or " +:+ dq +:+ "none" +:+ dq +:+ "):".

Definition custom_workflow_prompt (query : string) : string :=
  Py.nl
  +:+ "Analyze this user request and break it down into sequential workflow steps:" +:+ Py.nl
  +:+ Py.nl
  +:+ "Request: " +:+ dq +:+ query +:+ dq +:+ Py.nl
  +:+ Py.nl
  +:+ "Available tools:" +:+ Py.nl
  +:+ "- Weather: Get weather information" +:+ Py.nl
  +:+ "- WebSearch: Search the internet" +:+ Py.nl
  +:+ "- Gmail: Send emails" +:+ Py.nl
  +:+ "- GoogleSheets: Read/write spreadsheet data" +:+ Py.nl
  +:+ "- Dictionary: Get word definitions" +:+ Py.nl
  +:+ Py.nl
  +:+ "Create a workflow with these steps (respond in this exact format):" +:+ Py.nl
  +:+ "STEP 1: [tool_name] - [action_description]" +:+ Py.nl
  +:+ "STEP 2: [tool_name] - [action_description]" +:+ Py.nl
  +:+ "..." +:+ Py.nl
  +:+ Py.nl
  +:+ "Only include steps that are clearly needed. Maximum 4 steps.".

Section Planner.
Context {World : Type} `{!Env World} `{!Regex}.

(** [_ai_workflow_detection] *)
Definition _ai_workflow_detection (query : string) (w : World)
  : option string * list LogEntry * World :=
  match generate_content (ai_detection_prompt query) w with
  | (Returned (Returned text), w') =>
      if bool_decide (text = "") then (None, [], w')
      else
        let result := Py.lower (Py.strip text) in
        if bool_decide (result ∈ workflow_patterns.*1) then (Some result, [], w')
        else (None, [], w')
  | (Returned (Raised e), w') | (Raised e, w') =>
      (None, [(ERROR, "Error in AI workflow detection: " +:+ exn_msg e)], w')
  end.

(** [detect_workflow_intent] *)
Definition detect_workflow_intent (query : string) (w : World)
  : option string * list LogEntry * World :=
  match triggered (Py.lower query) with
  | Some workflow_name => (Some workflow_name, [], w)
  | None => _ai_workflow_detection query w
  end.

(** The loop of [_extract_location] over its patterns. *)
Fixpoint first_location (patterns : list string) (query : string) : option string :=
  match patterns with
  | [] => None
  | pattern :: rest =>
      match re_group1 pattern query with
      | Some group =>
          let location := Py.strip group in
          if (2 <? Py.len location)
             && negb (bool_decide (Py.lower location ∈ ["the"; "our"; "my"; "his"; "her"]))
          then Some location
          else first_location rest query
      | None => first_location rest query
      end
  end.

(** [_extract_location] *)
Definition _extract_location (query : string) : option string :=
  first_location
    ["in ([A-Za-z\s]+?)(?:\s|$|,)"; "for ([A-Za-z\s]+?)(?:\s|$|,)";
     "at ([A-Za-z\s]+?)(?:\s|$|,)"]
    query.

(** The loop of [_extract_email_context] and of [_extract_search_topic]:
    the stripped group of the first pattern that matches. *)
Fixpoint first_group (patterns : list string) (query : string) : option string :=
  match patterns with
  | [] => None
  | pattern :: rest =>
      match re_group1 pattern query with
      | Some group => Some (Py.strip group)
      | None => first_group rest query
      end
  end.

(** [_extract_email_context]: a dictionary with at most the key
    [recipient]. *)
Definition _extract_email_context (query : string) : gmap string string :=
  match first_group
          ["email\s+(?:the\s+)?([A-Za-z\s]+?)(?:\s+about|\s+regarding|$)";
           "send.*?to\s+([A-Za-z\s]+?)(?:\s+about|\s+regarding|$)";
           "notify\s+([A-Za-z\s]+?)(?:\s+about|\s+regarding|$)"]
          query with
  | Some recipient => {[ "recipient" := recipient ]}
  | None => ∅
  end.

(** [_extract_search_topic] *)
Definition _extract_search_topic (query : string) : string :=
  default query
    (first_group
       ["search\s+(?:for\s+)?(.+?)(?:\s+then|\s+and|$)";
        "research\s+(.+?)(?:\s+then|\s+and|$)";
        "find\s+(.+?)(?:\s+then|\s+and|$)"]
       query).

(** [_create_weather_email_workflow] *)
Definition _create_weather_email_workflow (query : string) : list WorkflowStep :=
  let location :=
    match _extract_location query with
    | Some l => if bool_decide (l = "") then "current location" else l
    | None => "current location"
    end in
  let email_context := _extract_email_context query in
  [ {| step_id := "weather_check";
       step_type := TOOL_EXECUTION;
       tool_name := "Weather";
       action := "get_weather";
       parameters := {[ "location" := VStr location; "include_forecast" := VBool true ]};
       depends_on := None;
       condition := None;
       output_variable := Some "weather_data" |};
    {| step_id := "compose_email";
       step_type := TOOL_EXECUTION;
       tool_name := "Gmail";
       action := "send_email";
       parameters :=
         {[ "recipient" := VStr (default "team" (email_context !! "recipient"));
            "subject" := VStr ("Weather Update for " +:+ location);
            "context" := VStr "Include weather information from previous step";
            "template" := VStr "weather_notification" ]};
       depends_on := Some ["weather_check"];
       condition := None;
       output_variable := None |} ].

(** [_create_research_update_workflow] *)
Definition _create_research_update_workflow (query : string) : list WorkflowStep :=
  let search_topic := _extract_search_topic query in
  [ {| step_id := "research";
       step_type := TOOL_EXECUTION;
       tool_name := "WebSearch";
       action := "search";
       parameters := {[ "query" := VStr search_topic; "max_results" := VInt 5 ]};
       depends_on := None;
       condition := None;
       output_variable := Some "research_data" |};
    {| step_id := "update_sheet";
       step_type := TOOL_EXECUTION;
       tool_name := "GoogleSheets";
       action := "add_data";
       parameters :=
         {[ "data_source" := VStr "research_data"; "format" := VStr "structured" ]};
       depends_on := Some ["research"];
       condition := None;
       output_variable := None |} ].

Definition single_action (query : string) : WorkflowStep :=
  {| step_id := "single_action";
     step_type := TOOL_EXECUTION;
     tool_name := "WebSearch";
     action := "search";
     parameters := {[ "query" := VStr query ]};
     depends_on := None;
     condition := None;
     output_variable := None |}.

(** [_create_custom_workflow] *)
Definition _create_custom_workflow (query : string) (w : World)
  : list WorkflowStep * list LogEntry * World :=
  match generate_content (custom_workflow_prompt query) w with
  | (Returned (Returned text), w') =>
      if bool_decide (text = "") then ([single_action query], [], w')
      else
        let '(steps, log) := WorkflowManager._parse_ai_workflow_response text query in
        (steps, log, w')
  | (Returned (Raised e), w') | (Raised e, w') =>
      ([single_action query],
       [(ERROR, "Error creating custom workflow: " +:+ exn_msg e)], w')
  end.

(** [create_workflow].  The class defines no method
    [_create_data_analysis_workflow] and no method
    [_create_meeting_prep_workflow]: looking them up raises.  The argument
    [user_context] is passed on and never read. *)
Definition create_workflow (workflow_type query : string) (w : World)
  : Outcome (list WorkflowStep) * list LogEntry * World :=
  if bool_decide (workflow_type = "weather_email") then
    (Returned (_create_weather_email_workflow query), [], w)
  else if bool_decide (workflow_type = "research_update") then
    (Returned (_create_research_update_workflow query), [], w)
  else if bool_decide (workflow_type = "data_analysis_report") then
    (Raised (AttributeError "_create_data_analysis_workflow"), [], w)
  else if bool_decide (workflow_type = "meeting_prep") then
    (Raised (AttributeError "_create_meeting_prep_workflow"), [], w)
  else
    let '(steps, log, w') := _create_custom_workflow query w in
    (Returned steps, log, w').

End Planner.

End WorkflowPlanner.

(** ** Vocabulary of the statements about workflows *)

Section WorkflowVocabulary.
Import WorkflowManager.

(** [a] is the id of a step of [steps] that lists [b] in its [depends_on]. *)
Definition dep_edge (steps : list WorkflowStep) (a b : string) : Prop :=
  ∃ s, s ∈ steps ∧ step_id s = a ∧ b ∈ deps s.

Definition acyclic (steps : list WorkflowStep) : Prop :=
  ∀ a, ¬ tc (dep_edge steps) a a.

Definition cyclic (steps : list WorkflowStep) : Prop :=
  ∃ a, tc (dep_edge steps) a a.

(** Every id named in a [depends_on] is the id of a step of the list. *)
Definition deps_present (steps : list WorkflowStep) : Prop :=
  ∀ s d, s ∈ steps → d ∈ deps s → d ∈ step_id <$> steps.

Definition dangling (steps : list WorkflowStep) : Prop :=
  ∃ s d, s ∈ steps ∧ d ∈ deps s ∧ d ∉ step_id <$> steps.

(** In [order], every step comes after a step carrying each id it waits
    for. *)
Definition respects_deps (order : list WorkflowStep) : Prop :=
  ∀ l1 s l2, order = l1 ++ s :: l2 → ∀ d, d ∈ deps s → d ∈ step_id <$> l1.

End WorkflowVocabulary.

(** ** Vocabulary of the statements about the conversation memory *)

(** A write to the memory: [add_user_message] or [add_assistant_message]. *)
Inductive Call :=
| AddUser (uid message : string)
| AddAssistant (uid message : string).

Definition call_user (c : Call) : string :=
  match c with AddUser uid _ | AddAssistant uid _ => uid end.

Definition call_role (c : Call) : string :=
  match c with AddUser _ _ => "user" | AddAssistant _ _ => "assistant" end.

Definition call_message (c : Call) : string :=
  match c with AddUser _ m | AddAssistant _ m => m end.

(** The messages of user [u] in a list of messages. *)
Definition history_of (u : string) (history : list Message) : list Message :=
  List.filter (λ m, bool_decide (user_id m = u)) history.

Definition older_or_equal (a b : Message) : Prop :=
  (timestamp a <= timestamp b)%Q.

Section MemoryVocabulary.
Context {World : Type} `{!Env World}.

Definition run_call (c : Call) (mem : ConversationMemory) (w : World)
  : ConversationMemory * World :=
  match c with
  | AddUser uid m => Memory.add_user_message uid m mem w
  | AddAssistant uid m => Memory.add_assistant_message uid m mem w
  end.

(** The message that the call appends: [Conversation.add_message] builds it
    from the first read of the clock after the conversation is found. *)
Definition appended_by (c : Call) (mem : ConversationMemory) (w : World) : Message :=
  let '(conv, _, w1) := Memory.get_or_create_conversation (call_user c) mem w in
  {| role := call_role c; content := call_message c;
     timestamp := (time_time w1).1; user_id := conv_user_id conv |}.

(** A sequence of writes; [history] collects every message appended, in
    order, whether it is still kept or not. *)
Fixpoint run_calls (calls : list Call) (mem : ConversationMemory) (w : World)
    (history : list Message) : ConversationMemory * World * list Message :=
  match calls with
  | [] => (mem, w, history)
  | c :: rest =>
      let '(mem', w') := run_call c mem w in
      run_calls rest mem' w' (history ++ [appended_by c mem w])
  end.

(** What the memory held for user [u] before the writes. *)
Definition stored_messages (u : string) (mem : ConversationMemory) : list Message :=
  match conversations mem !! u with
  | Some conv => messages conv
  | None => []
  end.

(** The conversations found in the memory are filed under their user, and
    their messages are in timestamp order and not from the future. *)
Definition stored_in_order (now : World → Q) (mem : ConversationMemory) (w : World)
  : Prop :=
  ∀ u conv, conversations mem !! u = Some conv →
    conv_user_id conv = u ∧
    StronglySorted older_or_equal (messages conv) ∧
    Forall (λ m, (timestamp m <= now w)%Q) (messages conv).

(** The clock never goes back: [now] bounds every read from below before it
    and from above after it. *)
Definition clock_monotone (now : World → Q) : Prop :=
  ∀ w, (now w <= (time_time w).1)%Q ∧ ((time_time w).1 <= now (time_time w).2)%Q.

End MemoryVocabulary.

(** The id that [_parse_ai_workflow_response] gives to the step of the line
    numbered [k] (counting from 1): the f-string [f"step_{k}"]. *)
Definition step_name (k : nat) : string := "step_" +:+ pretty k.

(** ** Concrete inputs *)

Module Examples.

(** A world without state: the clock stands still and the model always gives
    the same answer. *)
Definition quiet_env (answer : Outcome (Outcome string)) : Env unit :=
  {| time_time := λ w, (0%Q, w);
     generate_content := λ _ w, (answer, w);
     new_model := λ w, (Returned (), w);
     py_repr_strs := λ l, "[" +:+ Py.join ", " l +:+ "]";
     py_repr_dict := λ _, "{}";
     _substitute_context_variables := λ params _, params;
     workflow_summary_prompt := λ _ _ _, "";
     py_round := λ q _, q;
     strftime_localtime := λ _ _, "" |}.

(** A world that is the number of clock reads so far: one second per read. *)
Definition ticking_env : Env nat :=
  {| time_time := λ n, (inject_Z (Z.of_nat n), S n);
     generate_content := λ _ n, (Returned (Returned ""), n);
     new_model := λ n, (Returned (), n);
     py_repr_strs := λ l, "[" +:+ Py.join ", " l +:+ "]";
     py_repr_dict := λ _, "{}";
     _substitute_context_variables := λ params _, params;
     workflow_summary_prompt := λ _ _ _, "";
     py_round := λ q _, q;
     strftime_localtime := λ _ _, "" |}.

Definition boom : Exn := {| exn_class := "RuntimeError"; exn_msg := "boom" |}.

(** A tool that claims nothing and answers every query. *)
Definition silent_tool (n : string) : BaseTool unit :=
  {| name := n;
     can_handle := λ _, Returned false;
     execute := λ query w, (Returned ("done: " +:+ query), w);
     get_description := "" |}.

(** A tool whose [can_handle] raises. *)
Definition raising_tool (n : string) : BaseTool unit :=
  {| name := n;
     can_handle := λ _, Raised boom;
     execute := λ query w, (Returned ("done: " +:+ query), w);
     get_description := "" |}.

Definition fallback_only : list (BaseTool unit) :=
  [silent_tool "Weather"; silent_tool "WebSearch"].

Definition with_raising_tool : list (BaseTool unit) :=
  [raising_tool "Weather"; silent_tool "WebSearch"].

Definition mk_step (id tool : string) (ds : option (list string)) : WorkflowStep :=
  {| step_id := id; step_type := TOOL_EXECUTION; tool_name := tool;
     action := "search"; parameters := {[ "query" := VStr "x" ]};
     depends_on := ds; condition := None; output_variable := None |}.

(** Two steps given in the wrong order. *)
Definition chain_steps : list WorkflowStep :=
  [mk_step "b" "WebSearch" (Some ["a"]); mk_step "a" "WebSearch" None].

(** Two steps that wait for each other. *)
Definition cycle_steps : list WorkflowStep :=
  [mk_step "a" "WebSearch" (Some ["b"]); mk_step "b" "WebSearch" (Some ["a"])].


(** An answer of the model with a line of introduction before its step. *)
Definition answer_with_preamble : string :=
  "Plan:" +:+ Py.nl +:+ "STEP 1: Weather - check the weather".

Definition hello_message : Message :=
  {| role := "user"; content := "hello"; timestamp := 0; user_id := "u" |}.

Definition hello_memory : ConversationMemory :=
  {| conversations :=
       {[ "u" := {| conv_user_id := "u"; messages := [hello_message];
                    created_at := 0; last_updated := 0 |} ]};
     max_conversations := 1000;
     max_messages_per_conversation := 50 |}.

Definition fresh_agent : Agent :=
  {| conversation_memory := IntelligentAgent.new_conversation_memory ∅;
     quota_monitor := {| requests_made := 0; quota_limit := 50; quota_exceeded := false |};
     message_count := 0;
     last_reset := 0;
     system_prompt := "" |}.

(** Three writes for one user, and fifty-one of them. *)
Definition three_calls : list Call :=
  [AddUser "u" "one"; AddAssistant "u" "two"; AddUser "u" "three"].

Definition fifty_one_calls : list Call := replicate 51 (AddUser "u" "hi").

(** The answers of the model used below. *)
Definition no_answer : Outcome (Outcome string) := Returned (Returned "").
Definition parrot_answer : Outcome (Outcome string) := Returned (Returned "hi 😊").

(** A handling path that answers with the lower-cased message. *)
Definition echo_handler {World} : IntelligentAgent.Handler (World := World) :=
  λ cleaned _ a w, (Returned (Py.lower cleaned), a, w).

End Examples.

(** Further inputs, for the properties of the last part. *)
Module Samples.
Import Examples.

(** A tool that claims every query and answers it. *)
Definition eager_tool (n : string) : BaseTool unit :=
  {| name := n;
     can_handle := λ _, Returned true;
     execute := λ query w, (Returned ("done: " +:+ query), w);
     get_description := n +:+ " tool" |}.

(** A tool whose [execute] raises. *)
Definition failing_tool (n : string) : BaseTool unit :=
  {| name := n;
     can_handle := λ _, Returned true;
     execute := λ _ w, (Raised boom, w);
     get_description := n +:+ " tool" |}.

Definition eager_tools : list (BaseTool unit) :=
  [eager_tool "WebSearch"; eager_tool "Weather"].

(** Two steps in a valid order, the second waiting for the first. *)
Definition ordered_steps : list WorkflowStep :=
  [mk_step "a" "Weather" None; mk_step "b" "WebSearch" (Some ["a"])].

(** One step that waits for nothing. *)
Definition search_step : list WorkflowStep := [mk_step "a" "WebSearch" None].

(** An answer of the model in the format asked for. *)
Definition two_step_answer : string :=
  "STEP 1: Weather - check" +:+ Py.nl +:+ "STEP 2: Gmail - send".

Definition empty_memory : ConversationMemory := Memory.init None None ∅.

(** A handling path that answers every message with the same text. *)
Definition fixed_handler {World} (reply : string)
  : IntelligentAgent.Handler (World := World) :=
  λ _ _ a w, (Returned reply, a, w).

(** A regular-expression engine that never finds a match. *)
Definition no_match : Regex := {| re_group1 := λ _ _, None |}.

(** Two conversations, the one of ["u"] less recently active, in a memory
    that may hold one. *)
Definition two_user_memory : ConversationMemory :=
  {| conversations :=
       {[ "u" := {| conv_user_id := "u"; messages := [];
                    created_at := 0; last_updated := 5 |};
          "v" := {| conv_user_id := "v"; messages := [];
                    created_at := 0; last_updated := 9 |} ]};
     max_conversations := 1;
     max_messages_per_conversation := 100 |}.

End Samples.

(** * Properties *)

(** ** Tool selection *)

Section ToolManagerFacts.
Context {World : Type}.
#[local] Abbreviation Tool := (BaseTool World).
Import ToolManager.

Lemma find_named_Some n (l : list Tool) t :
  find_named n l = Some t → t ∈ l ∧ name t = n.
Proof.
  unfold find_named. intros H. apply find_some in H as [Hin Hn].
  apply bool_decide_eq_true in Hn. split; [by apply list_elem_of_In | done].
Qed.

Lemma find_named_None n (l : list Tool) :
  find_named n l = None ↔ n ∉ name <$> l.
Proof.
  unfold find_named. induction l as [|t l IH]; simpl.
  - split; [intros _; apply not_elem_of_nil | done].
  - case_bool_decide as Hn.
    + split; [done | intros []; subst; left].
    + rewrite IH, not_elem_of_cons. split; [by split|by intros [_ ?]].
Qed.

Lemma suitable_tools_returns (tools : list Tool) query :
  (∀ t, t ∈ tools → ∃ b, can_handle t query = Returned b) →
  ∃ l, suitable_tools tools query = Returned l ∧
       ∀ t, t ∈ l ↔ t ∈ tools ∧ can_handle t query = Returned true.
Proof.
  induction tools as [|t tools IH]; intros Hret; simpl.
  - exists []. split; [done|]. intros t. rewrite !elem_of_nil.
    split; [done|by intros [? _]].
  - destruct (Hret t) as [b Hb]; [left|]. rewrite Hb.
    destruct IH as (l & -> & Hl); [intros; apply Hret; by right|].
    eexists; split; [done|]. intros u. destruct b.
    + rewrite !elem_of_cons, Hl. split.
      * intros [->|[? ?]]; [by split; [left|]|by split; [right|]].
      * intros [[->|?] ?]; [by left|by right].
    + rewrite elem_of_cons, Hl. split.
      * intros [? ?]. by split; [right|].
      * intros [[->|?] Hu]; [congruence | done].
Qed.

Lemma by_priority_Some order (l : list Tool) t :
  by_priority order l = Some t → t ∈ l.
Proof.
  induction order as [|n order IH]; simpl; [done|].
  destruct (find_named n l) eqn:Hf; [|done].
  intros [= <-]. by apply find_named_Some in Hf as [? _].
Qed.

(** A predicate that raises ends the first loop with that exception: the
    first one in registration order. *)
Lemma suitable_tools_raises (l1 l2 : list Tool) t query e :
  (∀ u, u ∈ l1 → ∃ b, can_handle u query = Returned b) →
  can_handle t query = Raised e →
  suitable_tools (l1 ++ t :: l2) query = Raised e.
Proof.
  induction l1 as [|u l1 IH]; intros Hret Ht; simpl.
  - by rewrite Ht.
  - destruct (Hret u) as [b ->]; [left|].
    rewrite IH; [done | intros; apply Hret; by right | done].
Qed.

(** C1. With predicates that return, [select_tool] returns; the result is a
    registered tool whenever a tool named WebSearch is registered, it is the
    first such tool when no predicate answers [True], and it is [None] only
    when no registered tool is named WebSearch. *)
Theorem select_tool_fallback (tools : list Tool) (query : string) :
  (∀ t, t ∈ tools → ∃ b, can_handle t query = Returned b) →
  ∃ log r, select_tool tools query = (log, Returned r) ∧
    ("WebSearch" ∈ name <$> tools → ∃ t, r = Some t ∧ t ∈ tools) ∧
    ("WebSearch" ∈ name <$> tools →
     (∀ t, t ∈ tools → can_handle t query = Returned false) →
     r = find_named "WebSearch" tools ∧ ∃ t, r = Some t ∧ name t = "WebSearch") ∧
    (r = None → "WebSearch" ∉ name <$> tools).
Proof.
  intros Hret. destruct (suitable_tools_returns tools query Hret) as (l & Hl & Hmem).
  unfold select_tool. rewrite Hl.
  set (pick := match l with [] => None | _ :: _ => by_priority priority_order l end).
  assert (Hpick : ∀ t, pick = Some t → t ∈ tools).
  { intros t. subst pick. destruct l; [done|]. intros Hp.
    apply by_priority_Some in Hp. by apply Hmem in Hp as [? _]. }
  destruct pick as [t|] eqn:Hp.
  - exists [], (Some t). split; [done|]. split; [|split].
    + intros _. eauto.
    + intros _ Hfalse. exfalso. subst pick. destruct l as [|u l]; [done|].
      assert (u ∈ u :: l) as Hu by left.
      apply Hmem in Hu as [Hu1 Hu2]. rewrite (Hfalse u Hu1) in Hu2. done.
    + done.
  - destruct (find_named "WebSearch" tools) as [t|] eqn:Hf.
    + exists [], (Some t). apply find_named_Some in Hf as [Hin Hn].
      split; [done|]. split; [eauto|]. split; [eauto|done].
    + exists [no_tool_warning query], None. apply find_named_None in Hf.
      split; [done|]. split; [done|]. split; [done|done].
Qed.

(** C4 (amended). An exception raised by a [can_handle] predicate is not
    caught: the exception of the first raising tool, in registration order,
    leaves [select_tool]; no tool is selected and no warning is logged. *)
Theorem select_tool_propagates (l1 l2 : list Tool) (t : Tool) (query : string) (e : Exn) :
  (∀ u, u ∈ l1 → ∃ b, can_handle u query = Returned b) →
  can_handle t query = Raised e →
  select_tool (l1 ++ t :: l2) query = ([], Raised e).
Proof.
  intros Hret Ht. unfold select_tool.
  by rewrite (suitable_tools_raises l1 l2 t query e Hret Ht).
Qed.

End ToolManagerFacts.


(** ** Python list helpers *)

Section ListFacts.
Context {A : Type} `{EqDecision A}.

Lemma elem_of_bfilter (f : A → bool) (l : list A) x :
  x ∈ List.filter f l ↔ x ∈ l ∧ f x = true.
Proof. rewrite !list_elem_of_In. apply filter_In. Qed.

Lemma bfilter_Permutation (f : A → bool) (l : list A) :
  l ≡ₚ List.filter f l ++ List.filter (λ x, negb (f x)) l.
Proof.
  induction l as [|y l IH]; simpl; [done|].
  destruct (f y); simpl.
  - by constructor.
  - rewrite <- Permutation_middle. by constructor.
Qed.

Lemma list_remove_all_skip (f : A → bool) y (k l : list A) :
  f y = false → Forall (λ x, f x = true) k →
  list_remove_all k (y :: l) = (y ::.) <$> list_remove_all k l.
Proof.
  intros Hy Hk. revert l. induction Hk as [|x k Hx Hk IH]; intros l; simpl; [done|].
  destruct (decide (y = x)) as [->|Hne]; [congruence|].
  destruct (list_remove x l) as [l'|]; simpl; [apply IH | done].
Qed.

(** Removing, one by one, the elements selected by a filter leaves those the
    filter rejects: the removal loop never misses its element. *)
Lemma list_remove_all_bfilter (f : A → bool) (l : list A) :
  list_remove_all (List.filter f l) l = Some (List.filter (λ x, negb (f x)) l).
Proof.
  induction l as [|y l IH]; simpl; [done|].
  destruct (f y) eqn:Hy; simpl.
  - rewrite decide_True by done. apply IH.
  - rewrite (list_remove_all_skip f); [by rewrite IH | done |].
    apply Forall_forall. intros x Hx. by apply elem_of_bfilter in Hx as [_ ?].
Qed.

End ListFacts.

(** ** Ordering of the steps of a workflow *)

Section SortFacts.
Import WorkflowManager.

Lemma is_ready_spec sorted s :
  is_ready sorted s = true ↔ ∀ d, d ∈ deps s → d ∈ step_id <$> sorted.
Proof.
  unfold is_ready, deps. destruct (depends_on s) as [[|d0 ds]|]; simpl.
  - split; [intros _ d Hd; by apply elem_of_nil in Hd | done].
  - rewrite andb_true_iff, bool_decide_eq_true, forallb_forall. split.
    + intros [H0 Hds] d [->|Hd]%elem_of_cons; [done|].
      apply list_elem_of_In, Hds in Hd. by apply bool_decide_eq_true in Hd.
    + intros Hall. split; [apply Hall; left|].
      intros d Hd. apply bool_decide_eq_true, Hall. right. by apply list_elem_of_In.
  - split; [intros _ d Hd; by apply elem_of_nil in Hd | done].
Qed.

Lemma is_ready_false sorted s :
  is_ready sorted s = false → ∃ d, d ∈ deps s ∧ d ∉ step_id <$> sorted.
Proof.
  intros Hr. destruct (decide (Forall (λ d, d ∈ step_id <$> sorted) (deps s))) as [Hall|Hex].
  - rewrite Forall_forall in Hall. apply is_ready_spec in Hall. congruence.
  - apply not_Forall_Exists in Hex; [|apply _].
    apply Exists_exists in Hex as (d & Hd & Hnot). eauto.
Qed.

(** A finite set of nodes in which every node has a successor contains a
    cycle. *)
Lemma finite_successors_cycle (R : relation string) (l : list string) :
  l ≠ [] → (∀ x, x ∈ l → ∃ y, y ∈ l ∧ tc R x y) → ∃ a, tc R a a.
Proof.
  induction l as [|x l IH]; [done|]. intros _ Hsucc.
  destruct (Hsucc x) as (y & Hy & Hxy); [left|].
  apply elem_of_cons in Hy as [->|Hy]; [eauto|].
  apply IH; [intros ->; by apply elem_of_nil in Hy|].
  intros z Hz. destruct (Hsucc z) as (u & Hu & Hzu); [by right|].
  apply elem_of_cons in Hu as [->|Hu]; [|eauto].
  exists y. split; [done|]. by etrans.
Qed.

Lemma NoDup_step_id_inj (steps : list WorkflowStep) s t :
  NoDup (step_id <$> steps) → s ∈ steps → t ∈ steps → step_id s = step_id t → s = t.
Proof.
  intros Hnd [i Hi]%list_elem_of_lookup [j Hj]%list_elem_of_lookup Heq.
  assert (i = j) as ->; [|congruence].
  apply (NoDup_lookup (step_id <$> steps) i j (step_id s)); [done| |].
  - by rewrite list_lookup_fmap, Hi.
  - by rewrite list_lookup_fmap, Hj, Heq.
Qed.

(** One iteration of the loop on a non-empty [remaining_steps]. *)
Lemma sort_loop_step fuel sorted r rs :
  sort_loop (S fuel) sorted (r :: rs) =
    match List.filter (is_ready sorted) (r :: rs) with
    | [] => Some ([circular_warning], Returned (sorted ++ r :: rs))
    | ready =>
        sort_loop fuel (sorted ++ ready)
          (List.filter (λ s, negb (is_ready sorted s)) (r :: rs))
    end.
Proof.
  cbn [sort_loop]. rewrite list_remove_all_bfilter.
  by destruct (List.filter (is_ready sorted) (r :: rs)).
Qed.

Lemma bfilter_rest_length (f : WorkflowStep → bool) l x ready :
  List.filter f l = x :: ready →
  length (List.filter (λ s, negb (f s)) l) < length l.
Proof.
  intros Hf. rewrite (bfilter_Permutation f l) at 2.
  rewrite length_app, Hf. simpl. lia.
Qed.

(** The loop ends within [length remaining_steps + 1] iterations, never
    raises, and returns a rearrangement of the steps it was given that
    starts with the steps already placed. *)
Lemma sort_loop_returns fuel sorted remaining :
  length remaining < fuel →
  ∃ log order, sort_loop fuel sorted remaining = Some (log, Returned order) ∧
    order ≡ₚ sorted ++ remaining ∧
    (log = [] ∨ log = [circular_warning]).
Proof.
  revert sorted remaining. induction fuel as [|fuel IH]; intros sorted remaining Hlen; [lia|].
  destruct remaining as [|r rs].
  - exists [], sorted. simpl. rewrite app_nil_r. eauto.
  - rewrite sort_loop_step.
    destruct (List.filter (is_ready sorted) (r :: rs)) as [|x ready] eqn:Hf.
    + exists [circular_warning], (sorted ++ r :: rs). eauto.
    + destruct (IH (sorted ++ x :: ready)
                  (List.filter (λ s, negb (is_ready sorted s)) (r :: rs)))
        as (log & order & Hrun & Hperm & Hlog).
      { apply bfilter_rest_length in Hf. simpl in *. lia. }
      exists log, order. split; [done|]. split; [|done].
      rewrite Hperm, <- (assoc_L (++)), <- Hf.
      by rewrite <- bfilter_Permutation.
Qed.

(** More fuel does not change the result. *)
Lemma sort_loop_mono (fuel fuel' : nat) sorted remaining x :
  sort_loop fuel sorted remaining = Some x → fuel ≤ fuel' →
  sort_loop fuel' sorted remaining = Some x.
Proof.
  revert fuel' sorted remaining.
  induction fuel as [|fuel IH]; intros fuel' sorted remaining Hrun Hle; [done|].
  destruct fuel' as [|fuel']; [lia|].
  destruct remaining as [|r rs]; [done|].
  rewrite sort_loop_step in *.
  destruct (List.filter (is_ready sorted) (r :: rs)); [done|].
  apply IH; [done|lia].
Qed.

Lemma sort_loop_fuel fuel steps :
  length steps < fuel →
  sort_loop fuel [] steps = _sort_steps_by_dependencies steps.
Proof.
  intros Hlen. unfold _sort_steps_by_dependencies.
  destruct (sort_loop_returns (S (length steps)) [] steps) as (log & order & Hrun & _); [lia|].
  rewrite Hrun. apply (sort_loop_mono (S (length steps))); [done|lia].
Qed.

Lemma respects_deps_app sorted ready :
  respects_deps sorted →
  (∀ s, s ∈ ready → ∀ d, d ∈ deps s → d ∈ step_id <$> sorted) →
  respects_deps (sorted ++ ready).
Proof.
  intros Hs Hr. induction ready as [|x ready IH] using rev_ind.
  - by rewrite app_nil_r.
  - intros l1 s l2 Heq d Hd. rewrite (assoc_L (++)) in Heq.
    destruct l2 as [|y l2 _] using rev_ind.
    + apply (app_inj_tail (sorted ++ ready) l1 x s) in Heq as [<- <-].
      rewrite fmap_app, elem_of_app. left. apply (Hr x); [|done].
      rewrite elem_of_app, list_elem_of_singleton. by right.
    + rewrite app_comm_cons, (assoc_L (++)) in Heq.
      apply app_inj_tail in Heq as [Heq _].
      apply (IH (λ s' Hs', Hr s' ltac:(rewrite elem_of_app; by left)) l1 s l2); done.
Qed.

(** As long as no warning is logged, the order respects the dependencies. *)
Lemma sort_loop_respects fuel sorted remaining order :
  sort_loop fuel sorted remaining = Some ([], Returned order) →
  respects_deps sorted → respects_deps order.
Proof.
  revert sorted remaining. induction fuel as [|fuel IH]; intros sorted remaining Hrun Hs; [done|].
  destruct remaining as [|r rs]; [by injection Hrun as <-|].
  rewrite sort_loop_step in Hrun.
  destruct (List.filter (is_ready sorted) (r :: rs)) as [|x ready] eqn:Hf; [done|].
  apply IH in Hrun; [done|]. apply respects_deps_app; [done|].
  intros s Hin. rewrite <- Hf in Hin. apply elem_of_bfilter in Hin as [_ Hr].
  by apply is_ready_spec.
Qed.

(** Without a cycle and without a dangling id some step is always ready:
    the warning branch is not taken. *)
Lemma sort_loop_acyclic all fuel sorted remaining log order :
  acyclic all → deps_present all → sorted ++ remaining ≡ₚ all →
  sort_loop fuel sorted remaining = Some (log, Returned order) → log = [].
Proof.
  intros Hacyc Hpres. revert sorted remaining.
  induction fuel as [|fuel IH]; intros sorted remaining Hperm Hrun; [done|].
  destruct remaining as [|r rs]; [by injection Hrun as <- _|].
  rewrite sort_loop_step in Hrun.
  destruct (List.filter (is_ready sorted) (r :: rs)) as [|x ready] eqn:Hf.
  - exfalso.
    destruct (finite_successors_cycle (dep_edge all) (step_id <$> r :: rs))
      as [a Ha]; [done| |by apply (Hacyc a)].
    intros x [s [-> Hs]]%list_elem_of_fmap.
    assert (is_ready sorted s = false) as Hnr.
    { destruct (is_ready sorted s) eqn:Hr; [|done].
      assert (s ∈ List.filter (is_ready sorted) (r :: rs)) as Hin
        by by apply elem_of_bfilter.
      rewrite Hf in Hin. by apply elem_of_nil in Hin. }
    apply is_ready_false in Hnr as (d & Hd & Hnot).
    assert (s ∈ all) as Hall by (rewrite <- Hperm, elem_of_app; by right).
    exists d. split.
    + specialize (Hpres s d Hall Hd).
      rewrite <- Hperm, fmap_app, elem_of_app in Hpres. by destruct Hpres.
    + apply tc_once. by exists s.
  - apply IH in Hrun; [done|].
    rewrite <- Hperm, <- (assoc_L (++)), <- Hf. f_equiv.
    by rewrite <- bfilter_Permutation.
Qed.

(** A set of steps of which each waits for an id carried by steps of the set
    only (or by no step at all) is never placed by the ready branch: the loop
    ends in the warning branch. *)
Lemma sort_loop_stuck (P : WorkflowStep → Prop) all fuel sorted remaining log order :
  (∀ s, s ∈ all → P s → ∃ d, d ∈ deps s ∧ ∀ t, t ∈ all → step_id t = d → P t) →
  (∃ s, s ∈ all ∧ P s) →
  sorted ++ remaining ≡ₚ all → (∀ t, t ∈ sorted → ¬ P t) →
  sort_loop fuel sorted remaining = Some (log, Returned order) →
  log = [circular_warning].
Proof.
  intros Hstuck Hex. revert sorted remaining.
  induction fuel as [|fuel IH]; intros sorted remaining Hperm Hclean Hrun; [done|].
  destruct remaining as [|r rs].
  - exfalso. destruct Hex as (s & Hs & HP).
    rewrite <- Hperm, app_nil_r in Hs. by apply (Hclean s).
  - rewrite sort_loop_step in Hrun.
    destruct (List.filter (is_ready sorted) (r :: rs)) as [|x ready] eqn:Hf;
      [by injection Hrun as <- _|].
    apply IH in Hrun; [done| |].
    + rewrite <- Hperm, <- (assoc_L (++)), <- Hf. f_equiv.
      by rewrite <- bfilter_Permutation.
    + intros t [Ht|Ht]%elem_of_app HP; [by apply (Hclean t)|].
      rewrite <- Hf in Ht. apply elem_of_bfilter in Ht as [Ht Hr].
      assert (t ∈ all) as Hall by (rewrite <- Hperm, elem_of_app; by right).
      destruct (Hstuck t Hall HP) as (d & Hd & Hall_d).
      rewrite is_ready_spec in Hr. apply Hr in Hd.
      apply list_elem_of_fmap in Hd as (u & -> & Hu).
      apply (Hclean u Hu), Hall_d; [|done].
      rewrite <- Hperm, elem_of_app. by left.
Qed.

End SortFacts.

Section SortTheorems.
Import WorkflowManager.

Lemma sort_steps_returns (steps : list WorkflowStep) :
  ∃ log order,
    _sort_steps_by_dependencies steps = Some (log, Returned order) ∧
    order ≡ₚ steps.
Proof.
  destruct (sort_loop_returns (S (length steps)) [] steps)
    as (log & order & Hrun & Hperm & _); [lia|].
  by exists log, order.
Qed.

(** C10. For every list of steps, cyclic or dangling references included,
    [_sort_steps_by_dependencies] ends without raising and its result is a
    permutation of the input: no step is dropped, none is duplicated. *)
Theorem sort_steps_permutation (steps : list WorkflowStep) :
  ∃ log order,
    _sort_steps_by_dependencies steps = Some (log, Returned order) ∧
    order ≡ₚ steps.
Proof. apply sort_steps_returns. Qed.

(** C2. For an acyclic list of steps whose [depends_on] ids are all ids of
    steps of the list, the run order has, before every step, a step carrying
    each id of its [depends_on]; with unique step ids, no step named in the
    [depends_on] of a step is placed at or after it. *)
Theorem sort_steps_respects_dependencies (steps : list WorkflowStep) :
  acyclic steps → deps_present steps →
  ∃ order,
    _sort_steps_by_dependencies steps = Some ([], Returned order) ∧
    order ≡ₚ steps ∧
    respects_deps order ∧
    (NoDup (step_id <$> steps) →
     ∀ l1 s l2, order = l1 ++ s :: l2 →
       ∀ d, d ∈ deps s → d ∉ step_id <$> s :: l2).
Proof.
  intros Hacyc Hpres.
  destruct (sort_steps_returns steps) as (log & order & Hrun & Hperm).
  assert (log = []) as ->.
  { by apply (sort_loop_acyclic steps (S (length steps)) [] steps log order). }
  exists order. split; [done|]. split; [done|].
  assert (respects_deps order) as Hresp.
  { apply (sort_loop_respects _ _ _ _ Hrun). intros l1 s l2 Heq. by destruct l1. }
  split; [done|].
  intros Hnd l1 s l2 Heq d Hd Hin.
  rewrite <- Hperm, Heq, fmap_app in Hnd.
  apply NoDup_app in Hnd as (_ & Hdisj & _).
  apply (Hdisj d); [|done]. by apply (Hresp l1 s l2).
Qed.

End SortTheorems.

(** ** Execution of a workflow *)

Section ExecutionFacts.
Context {World : Type} `{!Env World}.
Import WorkflowManager.
Implicit Types (tools : list (BaseTool World)) (st : ExecState World).
Implicit Types (s t : WorkflowStep) (l order : list WorkflowStep).

Lemma run_steps_app tools st l1 l2 :
  run_steps tools st (l1 ++ l2) = run_steps tools (run_steps tools st l1) l2.
Proof. apply foldl_app. Qed.

Lemma run_steps_cons tools st s l :
  run_steps tools st (s :: l) = run_steps tools (run_step tools st s) l.
Proof. done. Qed.

(** What one turn of the loop does: a step whose dependencies are not all in
    [results] is skipped with an error; otherwise [_execute_step] is called
    once, and either its result is stored or its exception is recorded. *)
Lemma run_step_cases tools st s :
  (∃ d ds, missing_deps s (st_results st) = d :: ds ∧
     st_results (run_step tools st s) = st_results st ∧
     st_errors (run_step tools st s) = st_errors st ++ [missing_msg s (d :: ds)] ∧
     st_completed (run_step tools st s) = st_completed st ∧
     attempted (run_step tools st s) = attempted st) ∨
  (∃ v w, missing_deps s (st_results st) = [] ∧
     _execute_step tools s (st_results st) (st_world st) = (Returned v, w) ∧
     st_results (run_step tools st s) = store_result s v (st_results st) ∧
     st_errors (run_step tools st s) = st_errors st ∧
     st_completed (run_step tools st s) = S (st_completed st) ∧
     attempted (run_step tools st s) = attempted st ++ [s]) ∨
  (∃ e w, missing_deps s (st_results st) = [] ∧
     _execute_step tools s (st_results st) (st_world st) = (Raised e, w) ∧
     st_results (run_step tools st s) = st_results st ∧
     st_errors (run_step tools st s) = st_errors st ++ [step_error_msg s e] ∧
     st_completed (run_step tools st s) = st_completed st ∧
     attempted (run_step tools st s) = attempted st ++ [s]).
Proof.
  unfold run_step. destruct (missing_deps s (st_results st)) as [|d ds].
  - right. destruct (_execute_step tools s (st_results st) (st_world st)) as [[v|e] w].
    + left. by exists v, w.
    + right. by exists e, w.
  - left. by exists d, ds.
Qed.


Lemma run_steps_errors tools st l :
  ∃ more, st_errors (run_steps tools st l) = st_errors st ++ more.
Proof.
  revert st. induction l as [|s l IH]; intros st.
  - exists []. by rewrite app_nil_r.
  - rewrite run_steps_cons. destruct (IH (run_step tools st s)) as (more & ->).
    destruct (run_step_cases tools st s)
      as [(?&?&_&_&->&_)|[(?&?&_&_&_&->&_)|(?&?&_&_&_&->&_)]];
      rewrite <- ?(assoc_L (++)); eauto.
Qed.

Lemma store_result_lookup_None s v (m : gmap string PyVal) k :
  m !! k = None → step_id s ≠ k → output_variable s ≠ Some k →
  store_result s v m !! k = None.
Proof.
  intros Hm Hid Hov. unfold store_result.
  destruct (output_variable s) as [ov|].
  - case_bool_decide; [by rewrite lookup_insert_ne|].
    rewrite !lookup_insert_ne; [done|done|congruence].
  - by rewrite lookup_insert_ne.
Qed.

(** A key that no processed step carries, as its id or as its output
    variable, is not added to [results]. *)
Lemma run_steps_lookup_None tools st l k :
  st_results st !! k = None →
  (∀ t, t ∈ l → step_id t ≠ k ∧ output_variable t ≠ Some k) →
  st_results (run_steps tools st l) !! k = None.
Proof.
  revert st. induction l as [|s l IH]; intros st Hk Hl; [done|].
  rewrite run_steps_cons. apply IH; [|intros t Ht; apply Hl; by right].
  destruct (Hl s) as [Hid Hov]; [left|].
  destruct (run_step_cases tools st s)
    as [(?&?&_&->&_)|[(?&?&_&_&->&_)|(?&?&_&_&->&_)]]; [done| |done].
  by apply store_result_lookup_None.
Qed.

(** With unique ids, a step on a cycle waits for an id carried by a step
    on a cycle. *)
Lemma cycle_stuck (steps : list WorkflowStep) s :
  NoDup (step_id <$> steps) → s ∈ steps →
  tc (dep_edge steps) (step_id s) (step_id s) →
  ∃ d, d ∈ deps s ∧
    ∀ t, t ∈ steps → step_id t = d → tc (dep_edge steps) (step_id t) (step_id t).
Proof.
  intros Hnd Hs Htc. inversion Htc as [? ? Hedge|? y ? Hedge Hrest]; subst.
  - destruct Hedge as (s' & Hs' & Hid & Hd).
    assert (s = s') as <- by by apply (NoDup_step_id_inj steps).
    exists (step_id s). split; [done|]. by intros t _ ->.
  - destruct Hedge as (s' & Hs' & Hid & Hd).
    assert (s = s') as <- by by apply (NoDup_step_id_inj steps).
    exists y. split; [done|]. intros t _ ->.
    eapply tc_r; [done|]. by exists s.
Qed.

(** The ordering loop logs its warning when an id is dangling, and when
    there is a cycle among steps with unique ids. *)
Lemma sort_steps_warns (steps : list WorkflowStep) log order :
  _sort_steps_by_dependencies steps = Some (log, Returned order) →
  dangling steps ∨ (NoDup (step_id <$> steps) ∧ cyclic steps) →
  log = [circular_warning].
Proof.
  intros Hrun [(s & d & Hs & Hd & Hnot)|[Hnd [a Ha]]].
  - apply (sort_loop_stuck (λ s, ∃ d, d ∈ deps s ∧ d ∉ step_id <$> steps)
             steps (S (length steps)) [] steps log order); [| |done| |done].
    + intros t _ (d' & Hd' & Hnot'). exists d'. split; [done|].
      intros u Hu Hid. exfalso. apply Hnot'. rewrite <- Hid.
      by apply list_elem_of_fmap_2.
    + exists s. eauto.
    + intros t Ht. by apply elem_of_nil in Ht.
  - apply (sort_loop_stuck (λ s, tc (dep_edge steps) (step_id s) (step_id s))
             steps (S (length steps)) [] steps log order); [| |done| |done].
    + intros s Hs Htc. by apply cycle_stuck.
    + assert (∃ b, dep_edge steps a b) as [b (s & Hs & <- & _)].
      { inversion Ha; eauto. }
      by exists s.
    + intros t Ht. by apply elem_of_nil in Ht.
Qed.

(** C3. For every list of steps, [execute_workflow] ends and returns a
    [WorkflowResult]: the ordering loop ends, no exception leaves the
    function.  A dangling id, and a cycle among steps with unique ids, is
    reported by the warning of the ordering loop. *)
Theorem execute_workflow_terminates tools (steps : list WorkflowStep) (w0 : World) :
  ∃ r log w',
    execute_workflow tools steps w0 = Some (Returned r, log, w') ∧
    total_steps r = length steps ∧
    (dangling steps → circular_warning ∈ log) ∧
    (NoDup (step_id <$> steps) → cyclic steps → circular_warning ∈ log).
Proof.
  destruct (sort_steps_returns steps) as (log0 & order & Hsort & _).
  unfold execute_workflow. rewrite Hsort.
  destruct (time_time w0) as [start_time w1].
  destruct (_generate_workflow_summary _ _ _ _) as [[summary log1] w2].
  destruct (time_time w2) as [end_time w3].
  eexists _, _, _. split; [done|]. split; [done|].
  split; [intros Hd | intros Hnd Hc];
    rewrite (sort_steps_warns steps log0 order Hsort) by eauto;
    apply elem_of_app; left; apply list_elem_of_singleton; done.
Qed.


End ExecutionFacts.


(** ** Conversation memory *)

Section MemoryFacts.
Context {World : Type} `{!Env World}.
Implicit Types (mem : ConversationMemory) (w : World) (conv : Conversation).
Implicit Types (u : string) (c : Call) (history : list Message).

Lemma py_last_suffix {A} (n : Z) (l : list A) : py_last n l `suffix_of` l.
Proof. unfold py_last. destruct (0 <? n)%Z; apply suffix_drop. Qed.

Lemma py_last_length {A} (n : Z) (l : list A) :
  (0 < n)%Z → length (py_last n l) ≤ Z.to_nat n.
Proof.
  intros Hn. unfold py_last. apply Z.ltb_lt in Hn as ->.
  rewrite length_drop. lia.
Qed.

Lemma bfilter_length_le {A} (f : A → bool) (l : list A) :
  length (List.filter f l) ≤ length l.
Proof. induction l as [|x l IH]; simpl; [done|]. destruct (f x); simpl; lia. Qed.

Lemma get_or_create_lookup u mem w conv mem1 w1 :
  Memory.get_or_create_conversation u mem w = (conv, mem1, w1) →
  conversations mem1 !! u = Some conv ∧
  max_messages_per_conversation mem1 = max_messages_per_conversation mem ∧
  (∀ u', u' ≠ u → conversations mem1 !! u' = conversations mem !! u') ∧
  (conversations mem !! u = Some conv ∧ w1 = w ∨
   conversations mem !! u = None ∧ conv_user_id conv = u ∧ messages conv = [] ∧
   w1 = (time_time (time_time w).2).2).
Proof.
  unfold Memory.get_or_create_conversation.
  destruct (conversations mem !! u) as [conv0|] eqn:Hlook.
  - intros [= <- <- <-]. split; [done|]. split; [done|]. split; [done|]. by left.
  - destruct (time_time w) as [t1 w'] eqn:H1.
    destruct (time_time w') as [t2 w''] eqn:H2.
    intros [= <- <- <-]. simpl. rewrite lookup_insert_eq.
    split; [done|]. split; [done|]. split.
    + intros u' Hne. by rewrite lookup_insert_ne.
    + right. by rewrite H2.
Qed.

(** What one write does to the conversation of its user. *)
Lemma add_message_as_spec r u msg mem w mem' w' :
  Memory.add_message_as r u msg mem w = (mem', w') →
  ∃ conv mem1 w1,
    Memory.get_or_create_conversation u mem w = (conv, mem1, w1) ∧
    let m := {| role := r; content := msg; timestamp := (time_time w1).1;
                user_id := conv_user_id conv |} in
    let w2 := (time_time (time_time w1).2).2 in
    let cap := max_messages_per_conversation mem in
    let appended := messages conv ++ [m] in
    let trimmed :=
      if (cap <? Z.of_nat (length appended))%Z then py_last cap appended
      else appended in
    let cutoff := ((time_time w2).1 - inject_Z (24 * 3600))%Q in
    w' = (time_time w2).2 ∧
    max_messages_per_conversation mem' = cap ∧
    (∀ u', u' ≠ u → conversations mem' !! u' = conversations mem !! u') ∧
    ∃ conv', conversations mem' !! u = Some conv' ∧
      conv_user_id conv' = conv_user_id conv ∧
      messages conv' =
        List.filter (λ x, Qlt_bool cutoff (timestamp x)) trimmed.
Proof.
  unfold Memory.add_message_as.
  destruct (Memory.get_or_create_conversation u mem w) as [[conv mem1] w1] eqn:Hget.
  apply get_or_create_lookup in Hget as (Hlook & Hcap & Hother & _).
  unfold Memory.add_message, Memory._cleanup_conversation, Memory.clear_old_messages.
  destruct (time_time w1) as [t1 w1a] eqn:H1. simpl.
  destruct (time_time w1a) as [t2 w2] eqn:H2. simpl.
  destruct (time_time w2) as [t3 w3] eqn:H3. simpl.
  intros [= <- <-]. exists conv, mem1, w1. split; [done|]. simpl.
  rewrite H1. simpl. rewrite H2. simpl. rewrite H3. simpl.
  split; [done|]. split; [done|]. split.
  { intros u' Hne. rewrite lookup_insert_ne by done. by apply Hother. }
  eexists. rewrite lookup_insert_eq. split; [done|].
  rewrite Hcap. by destruct (_ <? _)%Z.
Qed.

(** After a write, the conversation written to holds at most the cap, for a
    positive cap and whatever the memory held before. *)
Lemma add_message_as_bounded r u msg mem w mem' w' :
  (0 < max_messages_per_conversation mem)%Z →
  Memory.add_message_as r u msg mem w = (mem', w') →
  ∃ conv', conversations mem' !! u = Some conv' ∧
    length (messages conv') ≤ Z.to_nat (max_messages_per_conversation mem).
Proof.
  intros Hcap Hadd.
  apply add_message_as_spec in Hadd
    as (conv & mem1 & w1 & _ & _ & _ & _ & conv' & Hlook & _ & Hmsgs).
  exists conv'. split; [done|]. rewrite Hmsgs.
  etrans; [apply bfilter_length_le|].
  destruct (_ <? _)%Z eqn:Hlt; [by apply py_last_length|].
  apply Z.ltb_ge in Hlt. lia.
Qed.

Lemma run_call_eq c mem w :
  run_call c mem w =
    Memory.add_message_as (call_role c) (call_user c) (call_message c) mem w.
Proof. by destruct c. Qed.

Lemma Qlt_bool_true (a b : Q) : Qlt_bool a b = true ↔ (a < b)%Q.
Proof.
  unfold Qlt_bool. rewrite negb_true_iff. split.
  - intros Hb. apply Qnot_le_lt. intros Hle. apply Qle_bool_iff in Hle. congruence.
  - intros Hlt. destruct (Qle_bool b a) eqn:Hb; [|done].
    apply Qle_bool_iff in Hb. by apply Qlt_not_le in Hlt.
Qed.

Lemma StronglySorted_bfilter {A} (R : relation A) (f : A → bool) (l : list A) :
  StronglySorted R l → StronglySorted R (List.filter f l).
Proof.
  induction 1 as [|x l Hl IH Hx]; simpl; [constructor|].
  destruct (f x); [|done]. constructor; [done|].
  apply Forall_forall. intros y [Hy _]%elem_of_bfilter.
  by eapply Forall_forall in Hx.
Qed.

Lemma StronglySorted_suffix {A} (R : relation A) (l k : list A) :
  l `suffix_of` k → StronglySorted R k → StronglySorted R l.
Proof. intros [k' ->]. apply StronglySorted_app_1_r. Qed.

(** Dropping the messages at or below a cutoff from a list in timestamp
    order leaves its most recent end. *)
Lemma age_filter_suffix (cutoff : Q) (l : list Message) :
  StronglySorted older_or_equal l →
  List.filter (λ x, Qlt_bool cutoff (timestamp x)) l `suffix_of` l.
Proof.
  induction 1 as [|x l Hl IH Hx]; simpl; [done|].
  destruct (Qlt_bool cutoff (timestamp x)) eqn:Hc; [|by apply suffix_cons_r].
  apply Qlt_bool_true in Hc.
  assert (List.filter (λ y, Qlt_bool cutoff (timestamp y)) l = l) as ->; [|done].
  clear IH Hl. induction Hx as [|y l Hy Hl IH]; simpl; [done|].
  assert (Qlt_bool cutoff (timestamp y) = true) as ->.
  { apply Qlt_bool_true. by eapply Qlt_le_trans. }
  by rewrite IH.
Qed.

Lemma history_of_app u history1 history2 :
  history_of u (history1 ++ history2) = history_of u history1 ++ history_of u history2.
Proof. apply List.filter_app. Qed.

Lemma clock_monotone_tick (now : World → Q) w :
  clock_monotone now → (now w <= now (time_time w).2)%Q.
Proof. intros Hm. destruct (Hm w). by eapply Qle_trans. Qed.

(** The cap is kept along a sequence of writes, and with it the bound on
    every conversation that was within the cap or is written to. *)
Lemma run_calls_bounded (good : string → Prop) calls mem w history mem' w' history' :
  (0 < max_messages_per_conversation mem)%Z →
  (∀ u conv, good u → conversations mem !! u = Some conv →
     length (messages conv) ≤ Z.to_nat (max_messages_per_conversation mem)) →
  run_calls calls mem w history = (mem', w', history') →
  ∀ u conv, good u ∨ u ∈ call_user <$> calls →
    conversations mem' !! u = Some conv →
    length (messages conv) ≤ Z.to_nat (max_messages_per_conversation mem).
Proof.
  revert good mem w history.
  induction calls as [|c calls IH]; intros good mem w history Hcap Hinv.
  - intros [= <- <- <-] u conv [Hg|Hin]; [by apply Hinv|by apply elem_of_nil in Hin].
  - simpl. destruct (run_call c mem w) as [mem1 w1] eqn:Hc. intros Hrun.
    rewrite run_call_eq in Hc.
    destruct (add_message_as_bounded _ _ _ _ _ _ _ Hcap Hc) as (conv1 & Hlook1 & Hlen1).
    apply add_message_as_spec in Hc as (?&?&?&_&_&Hcap1&Hother&_).
    intros u conv Hu. rewrite <- Hcap1.
    apply (IH (λ u, good u ∨ u = call_user c) mem1 w1
             (history ++ [appended_by c mem w])); [by rewrite Hcap1| |done|].
    + intros u' conv' Hg Hu'. rewrite Hcap1.
      destruct (decide (u' = call_user c)) as [->|Hne].
      * rewrite Hlook1 in Hu'. by injection Hu' as <-.
      * rewrite (Hother u') in Hu' by done. destruct Hg as [Hg|?]; [|done].
        by apply (Hinv u').
    + destruct Hu as [Hg|[->|Hin]%elem_of_cons]; [by left; left|by left; right|by right].
Qed.

(** A conversation, once there, stays, and a write creates the one of its
    user. *)
Lemma run_calls_lookup calls mem w history mem' w' history' u :
  run_calls calls mem w history = (mem', w', history') →
  is_Some (conversations mem !! u) ∨ u ∈ call_user <$> calls →
  is_Some (conversations mem' !! u).
Proof.
  revert mem w history. induction calls as [|c calls IH]; intros mem w history.
  - intros [= <- <- <-] [Hs|Hin]; [done|by apply elem_of_nil in Hin].
  - simpl. destruct (run_call c mem w) as [mem1 w1] eqn:Hc. intros Hrun Hu.
    rewrite run_call_eq in Hc.
    apply add_message_as_spec in Hc as (?&?&?&_&_&_&Hother&conv'&Hlook'&_).
    apply (IH mem1 w1 _ Hrun).
    destruct (decide (u = call_user c)) as [->|Hne]; [left; by rewrite Hlook'|].
    rewrite (Hother u) by done.
    destruct Hu as [Hs|[->|Hin]%elem_of_cons]; [by left|done|by right].
Qed.

(** With a clock that never goes back, every conversation is the most recent
    end of what the memory held and what was appended for its user, and the
    appended messages are in timestamp order. *)
Lemma run_call_recent (now : World → Q) (mem0 : ConversationMemory) (w0 : World)
    c mem w history mem' w' :
  clock_monotone now →
  stored_in_order now mem0 w0 →
  (now w0 <= now w)%Q →
  StronglySorted older_or_equal history →
  Forall (λ m, (now w0 <= timestamp m)%Q ∧ (timestamp m <= now w)%Q) history →
  (∀ u conv, conversations mem !! u = Some conv →
     conv_user_id conv = u ∧
     messages conv `suffix_of` stored_messages u mem0 ++ history_of u history) →
  run_call c mem w = (mem', w') →
  let history' := history ++ [appended_by c mem w] in
  (now w0 <= now w')%Q ∧
  StronglySorted older_or_equal history' ∧
  Forall (λ m, (now w0 <= timestamp m)%Q ∧ (timestamp m <= now w')%Q) history' ∧
  (∀ u conv, conversations mem' !! u = Some conv →
     conv_user_id conv = u ∧
     messages conv `suffix_of` stored_messages u mem0 ++ history_of u history').
Proof.
  intros Hmono Hstored Hw0 Hsorted Hbound Hinv Hcall. rewrite run_call_eq in Hcall.
  apply add_message_as_spec in Hcall
    as (conv & mem1 & w1 & Hget & Hw' & _ & Hother & conv' & Hlook' & Hid' & Hmsgs).
  unfold appended_by. rewrite Hget. cbv zeta in *.
  set (m := {| role := call_role c; content := call_message c;
               timestamp := (time_time w1).1; user_id := conv_user_id conv |}) in *.
  set (stored := stored_messages (call_user c) mem0) in *.
  assert (conv_user_id conv = call_user c ∧
          messages conv `suffix_of` stored ++ history_of (call_user c) history ∧
          (now w <= now w1)%Q) as (Hid & Hsuf & Hw1).
  { apply get_or_create_lookup in Hget as (_ & _ & _ & [[Hold ->]|(_ & Hid & Hnil & ->)]).
    - destruct (Hinv _ _ Hold). repeat split; [done..|apply Qle_refl].
    - rewrite Hnil. repeat split; [done|apply suffix_nil|].
      eapply Qle_trans; by apply clock_monotone_tick. }
  assert (now w1 <= timestamp m)%Q as Hm1 by apply Hmono.
  assert (timestamp m <= now w')%Q as Hm2.
  { rewrite Hw'. eapply Qle_trans; [apply Hmono|].
    eapply Qle_trans; by apply clock_monotone_tick. }
  assert (now w <= now w')%Q as Hww'.
  { eapply Qle_trans; [done|]. by eapply Qle_trans. }
  assert (StronglySorted older_or_equal (history ++ [m])) as Hsorted'.
  { apply StronglySorted_app_2; [|done|repeat constructor].
    intros x y Hx ->%list_elem_of_singleton. unfold older_or_equal.
    eapply Forall_forall in Hbound as [_ Hx2]; [|done].
    exact (Qle_trans _ _ _ Hx2 (Qle_trans _ _ _ Hw1 Hm1)). }
  assert (Forall (λ x, (now w0 <= timestamp x)%Q ∧ (timestamp x <= now w')%Q)
            (history ++ [m])) as Hbound'.
  { apply Forall_app. split.
    - eapply Forall_impl; [done|]. intros x [Hx1 Hx2]. split; [done|].
      by eapply Qle_trans.
    - repeat constructor; [|done].
      exact (Qle_trans _ _ _ Hw0 (Qle_trans _ _ _ Hw1 Hm1)). }
  split; [exact (Qle_trans _ _ _ Hw0 Hww')|]. split; [done|]. split; [done|].
  intros u conv0 Hu. destruct (decide (u = call_user c)) as [->|Hne].
  - rewrite Hlook' in Hu. injection Hu as <-. split; [congruence|].
    fold stored. rewrite Hmsgs, history_of_app. simpl.
    rewrite Hid, bool_decide_true by done. rewrite (assoc_L (++)).
    set (before := stored ++ history_of (call_user c) history) in *.
    assert (messages conv ++ [m] `suffix_of` before ++ [m]) as Happ
      by by apply suffix_app.
    assert (StronglySorted older_or_equal (before ++ [m])) as Hsu.
    { unfold before. rewrite <- (assoc_L (++)).
      replace (history_of (call_user c) history ++ [m])
        with (history_of (call_user c) (history ++ [m]))
        by (rewrite history_of_app; simpl; by rewrite Hid, bool_decide_true).
      apply StronglySorted_app_2.
      - intros x y Hx [Hy _]%elem_of_bfilter.
        eapply Forall_forall in Hbound' as [Hy1 _]; [|exact Hy].
        unfold older_or_equal. eapply Qle_trans; [|exact Hy1].
        unfold stored, stored_messages in Hx.
        destruct (conversations mem0 !! call_user c) as [conv00|] eqn:H00;
          [|by apply elem_of_nil in Hx].
        destruct (Hstored _ _ H00) as (_ & _ & Hold).
        by eapply Forall_forall in Hold.
      - unfold stored, stored_messages.
        destruct (conversations mem0 !! call_user c) as [conv00|] eqn:H00;
          [|constructor].
        by destruct (Hstored _ _ H00) as (_ & ? & _).
      - by apply StronglySorted_bfilter. }
    etrans; [|exact Happ].
    destruct (_ <? _)%Z.
    + etrans; [|apply py_last_suffix]. apply age_filter_suffix.
      eapply StronglySorted_suffix; [|exact Hsu].
      etrans; [apply py_last_suffix|done].
    + apply age_filter_suffix. by eapply StronglySorted_suffix.
  - rewrite (Hother u) in Hu by done. destruct (Hinv _ _ Hu) as [Hid0 Hsuf0].
    split; [done|]. rewrite history_of_app. simpl.
    rewrite Hid, bool_decide_false by done. by rewrite app_nil_r.
Qed.

Lemma run_calls_recent (now : World → Q) (mem0 : ConversationMemory) (w0 : World)
    calls mem w history mem' w' history' :
  clock_monotone now →
  stored_in_order now mem0 w0 →
  (now w0 <= now w)%Q →
  StronglySorted older_or_equal history →
  Forall (λ m, (now w0 <= timestamp m)%Q ∧ (timestamp m <= now w)%Q) history →
  (∀ u conv, conversations mem !! u = Some conv →
     conv_user_id conv = u ∧
     messages conv `suffix_of` stored_messages u mem0 ++ history_of u history) →
  run_calls calls mem w history = (mem', w', history') →
  StronglySorted older_or_equal history' ∧
  Forall (λ m, (now w0 <= timestamp m)%Q) history' ∧
  (∀ u conv, conversations mem' !! u = Some conv →
     messages conv `suffix_of` stored_messages u mem0 ++ history_of u history').
Proof.
  intros Hmono Hstored. revert mem w history.
  induction calls as [|c calls IH]; intros mem w history Hw Hs Hb Hinv.
  - intros [= <- <- <-]. split; [done|]. split.
    + eapply Forall_impl; [done|]. by intros x [? _].
    + intros u conv Hu. by apply Hinv.
  - simpl. destruct (run_call c mem w) as [mem1 w1] eqn:Hc. intros Hrun.
    destruct (run_call_recent now mem0 w0 c mem w history mem1 w1)
      as (Hw1 & Hs1 & Hb1 & Hinv1); [done..|].
    by apply (IH mem1 w1 _ Hw1 Hs1 Hb1 Hinv1).
Qed.

(** C6 (amended). The cap of [ConversationMemory] is 100 by default; the
    agent builds its memory with 50.  For a positive cap and every sequence
    of writes, the conversation of every user written to holds at most the
    cap after each write; when the clock never goes back and the memory held
    its messages in timestamp order, what the conversation holds is the most
    recent end of what was held and appended for its user: the evicted
    messages are the oldest by timestamp. *)
Theorem memory_keeps_most_recent :
  (∀ stored,
     max_messages_per_conversation (Memory.init None None stored) = 100%Z ∧
     max_messages_per_conversation (IntelligentAgent.new_conversation_memory stored)
       = 50%Z) ∧
  ∀ (calls : list Call) (mem0 : ConversationMemory) (w0 : World) mem w history,
    (0 < max_messages_per_conversation mem0)%Z →
    run_calls calls mem0 w0 [] = (mem, w, history) →
    ∀ u, u ∈ call_user <$> calls →
      ∃ conv, conversations mem !! u = Some conv ∧
        length (messages conv) ≤ Z.to_nat (max_messages_per_conversation mem0) ∧
        ∀ now : World → Q, clock_monotone now → stored_in_order now mem0 w0 →
          ∃ evicted,
            stored_messages u mem0 ++ history_of u history = evicted ++ messages conv ∧
            ∀ e r, e ∈ evicted → r ∈ messages conv → older_or_equal e r.
Proof.
  split; [done|].
  intros calls mem0 w0 mem w history Hcap Hrun u Hu.
  destruct (run_calls_lookup calls mem0 w0 [] mem w history u Hrun) as [conv Hlook];
    [by right|].
  exists conv. split; [done|]. split.
  - apply (run_calls_bounded (λ _, False) calls mem0 w0 [] mem w history) with u;
      [done|done|done|by right|done].
  - intros now Hmono Hstored.
    destruct (run_calls_recent now mem0 w0 calls mem0 w0 [] mem w history)
      as (Hsorted & Hafter & Hsuf);
      [done|done|apply Qle_refl|constructor|constructor| |done|].
    { intros u' conv' Hu'. destruct (Hstored _ _ Hu') as (Hid & _ & _).
      split; [done|]. unfold stored_messages. by rewrite Hu', app_nil_r. }
    destruct (Hsuf u conv Hlook) as [evicted Hev]. exists evicted. split; [done|].
    intros e r He Hr. eapply (StronglySorted_app_1_elem_of _ evicted); [|done..].
    rewrite <- Hev. apply StronglySorted_app_2.
    + intros x y Hx [Hy _]%elem_of_bfilter.
      eapply Forall_forall in Hafter; [|exact Hy].
      unfold older_or_equal. eapply Qle_trans; [|exact Hafter].
      unfold stored_messages in Hx.
      destruct (conversations mem0 !! u) as [conv0|] eqn:H0;
        [|by apply elem_of_nil in Hx].
      destruct (Hstored _ _ H0) as (_ & _ & Hold).
      by eapply Forall_forall in Hold.
    + unfold stored_messages.
      destruct (conversations mem0 !! u) as [conv0|] eqn:H0; [|constructor].
      by destruct (Hstored _ _ H0) as (_ & ? & _).
    + by apply StronglySorted_bfilter.
Qed.

End MemoryFacts.

(** ** Python strings *)

Section PyFacts.

Lemma lower_char_not_upper c : Py.is_upper (Py.lower_char c) = false.
Proof. by destruct c as [[] [] [] [] [] [] [] []]. Qed.

Lemma is_space_lower_char c : Py.is_space (Py.lower_char c) = Py.is_space c.
Proof. by destruct c as [[] [] [] [] [] [] [] []]. Qed.

Lemma lower_char_idem c : Py.lower_char (Py.lower_char c) = Py.lower_char c.
Proof. unfold Py.lower_char at 1. by rewrite lower_char_not_upper. Qed.

Lemma lower_idem s : Py.lower (Py.lower s) = Py.lower s.
Proof. induction s as [|c s IH]; simpl; [done|]. by rewrite lower_char_idem, IH. Qed.

Lemma lower_empty s : Py.lower s = "" ↔ s = "".
Proof. by destruct s. Qed.

(** The lower-cased text does not start with a capital letter. *)
Lemma lower_head_not_upper s c r :
  Py.is_upper c = true → Py.lower s ≠ String c r.
Proof.
  intros Hc. destruct s as [|a s]; simpl; [done|]. intros [= <- _].
  by rewrite lower_char_not_upper in Hc.
Qed.

Lemma lstrip_lower s : Py.lstrip (Py.lower s) = Py.lower (Py.lstrip s).
Proof.
  induction s as [|c s IH]; simpl; [done|].
  rewrite is_space_lower_char. by destruct (Py.is_space c).
Qed.

Lemma rstrip_lower s : Py.rstrip (Py.lower s) = Py.lower (Py.rstrip s).
Proof.
  induction s as [|c s IH]; simpl; [done|].
  rewrite IH, is_space_lower_char.
  destruct (Py.rstrip s); simpl; [by destruct (Py.is_space c)|done].
Qed.

Lemma strip_lower s : Py.strip (Py.lower s) = Py.lower (Py.strip s).
Proof. unfold Py.strip. by rewrite lstrip_lower, rstrip_lower. Qed.

Lemma rstrip_idem s : Py.rstrip (Py.rstrip s) = Py.rstrip s.
Proof.
  induction s as [|c s IH]; simpl; [done|].
  destruct (Py.rstrip s) as [|c' s'] eqn:Hr.
  - destruct (Py.is_space c) eqn:Hc; simpl; [done|]. by rewrite Hc.
  - simpl in *. by rewrite IH.
Qed.

(** Stripping the right end keeps a first character that is not a space. *)
Lemma lstrip_rstrip_fixed s :
  Py.lstrip s = s → Py.lstrip (Py.rstrip s) = Py.rstrip s.
Proof.
  destruct s as [|c s]; simpl; [done|].
  destruct (Py.is_space c) eqn:Hc.
  - intros Heq. exfalso.
    assert (String.length (Py.lstrip s) ≤ String.length s) as Hlen.
    { clear. induction s as [|a s IH]; simpl; [done|].
      destruct (Py.is_space a); simpl; lia. }
    rewrite Heq in Hlen. simpl in Hlen. lia.
  - intros _. destruct (Py.rstrip s); simpl; by rewrite Hc.
Qed.

Lemma lstrip_idem s : Py.lstrip (Py.lstrip s) = Py.lstrip s.
Proof.
  induction s as [|c s IH]; simpl; [done|].
  destruct (Py.is_space c) eqn:Hc; [done|]. simpl. by rewrite Hc.
Qed.

Lemma strip_idem s : Py.strip (Py.strip s) = Py.strip s.
Proof.
  unfold Py.strip.
  rewrite (lstrip_rstrip_fixed (Py.lstrip s)) by apply lstrip_idem.
  apply rstrip_idem.
Qed.

Lemma contains_app_r needle s t :
  Py.contains needle t = true → Py.contains needle (s +:+ t) = true.
Proof.
  intros Ht. induction s as [|c s IH]; simpl; [done|].
  rewrite IH. apply orb_true_r.
Qed.

End PyFacts.

(** ** The validation of the final answer *)

Section AgentFacts.
Context {World : Type} `{!Env World}.
Import IntelligentAgent.

(** What [_format_response] returns holds one of the seven emojis. *)
Lemma format_response_has_emoji text :
  existsb (λ emoji, Py.contains emoji (_format_response text)) friendly_emojis = true.
Proof.
  unfold _format_response.
  set (r := Py.strip _).
  destruct (existsb (λ emoji, Py.contains emoji r) friendly_emojis) eqn:Hr; [done|].
  apply existsb_exists. exists "😊". split; [by left|].
  by apply contains_app_r.
Qed.

Lemma quota_response_not_lower query x :
  _format_general_quota_exceeded_response query ≠ Py.lower x.
Proof. intros Heq. symmetry in Heq. by apply lower_head_not_upper in Heq. Qed.

Lemma general_query_failed_not_lower query e x :
  general_query_failed query e ≠ Py.lower x.
Proof.
  unfold general_query_failed. destruct (is_quota_error e).
  - apply quota_response_not_lower.
  - intros Heq. symmetry in Heq. by apply lower_head_not_upper in Heq.
Qed.

(** The answer of the general chat path is never a lower-cased text without
    emoji: it is a fixed reply, which starts with a capital letter, or a
    formatted answer of the model, which holds an emoji. *)
Lemma handle_general_query_not_echo query uid (a : Agent) (w : World) x :
  existsb (λ emoji, Py.contains emoji (Py.lower x)) friendly_emojis = false →
  (_handle_general_query query uid a w).1.1 ≠ Py.lower x.
Proof.
  intros Hplain. unfold _handle_general_query.
  destruct (negb (can_make_request (quota_monitor a))); [apply quota_response_not_lower|].
  destruct (match truthy uid with Some _ => _ | None => _ end) as [[ctx a1] w1].
  destruct (generate_content _ w1) as [[[text|e]|e] w2]; simpl.
  - destruct (bool_decide (text = "")); simpl.
    { intros Heq. symmetry in Heq. by apply lower_head_not_upper in Heq. }
    destruct (_ && _); simpl.
    + intros Heq. pose proof (format_response_has_emoji text) as Hemoji.
      rewrite Heq in Hemoji. congruence.
    + intros Heq. symmetry in Heq. by apply lower_head_not_upper in Heq.
  - apply general_query_failed_not_lower.
  - apply general_query_failed_not_lower.
Qed.

(** C7 (amended). When the cleaned input holds none of the seven emojis that
    [_format_response] looks for, and the handling path returns exactly the
    stripped, lower-cased input, the string returned by [process_message] is
    not that echo. *)
Theorem echo_suppressed (handle : Handler) (user_message : string)
    (uid : option string) (a : Agent) (w : World) :
  let cleaned := Py.strip user_message in
  let echo := Py.lower cleaned in
  cleaned ≠ "" →
  existsb (λ emoji, Py.contains emoji echo) friendly_emojis = false →
  (∀ a' w', ∃ a'' w'', handle cleaned uid a' w' = (Returned echo, a'', w'')) →
  (process_message handle user_message uid a w).1.1 ≠ echo.
Proof.
  intros cleaned echo Hne Hplain Hecho. unfold process_message.
  destruct (if (50 <? _)%Z then _ else _) as [a1 w1].
  fold cleaned. rewrite bool_decide_false by done.
  destruct (match truthy uid with Some _ => _ | None => _ end) as [a2 w2].
  destruct (Hecho a2 w2) as (a3 & w3 & ->).
  assert (Py.strip echo = echo) as Hstrip.
  { unfold echo, cleaned. by rewrite strip_lower, strip_idem. }
  rewrite Hstrip. rewrite bool_decide_false.
  2:{ unfold echo. by rewrite lower_empty. }
  rewrite bool_decide_true by apply lower_idem.
  by apply handle_general_query_not_echo.
Qed.

End AgentFacts.

(** ** Analysis of a conversation *)

Section AnalysisFacts.
Context {World : Type} `{!Env World}.

(** C9 (amended). For a conversation holding the single message "hello",
    [analyze_conversation] reports [has_conversation = True], the topics
    ["General"] (the label of the greeting keywords; "General conversation"
    is given only when no keyword matches), and five insights. *)
Theorem analyze_single_hello (mem : ConversationMemory) (uid : string)
    (conv : Conversation) (m : Message) :
  conversations mem !! uid = Some conv →
  messages conv = [m] →
  content m = "hello" →
  has_conversation (Memory.analyze_conversation uid mem) = true ∧
  analysis_topics (Memory.analyze_conversation uid mem) = Some ["General"] ∧
  analysis_insights (Memory.analyze_conversation uid mem) =
    Some ["Brief conversation session"; "Focused on single topic";
          "Neutral conversation tone"; "Low question engagement";
          "Quick interaction"].
Proof.
  intros Hlook Hmsgs Hcontent. unfold Memory.analyze_conversation.
  rewrite Hlook, Hmsgs. cbn [has_conversation analysis_topics analysis_insights].
  assert (Memory.all_content [m] = "hello") as Htext.
  { unfold Memory.all_content. simpl. by rewrite Hcontent. }
  assert (Memory._extract_topics_from_messages [m] = ["General"]) as Htopics.
  { unfold Memory._extract_topics_from_messages. by rewrite Htext. }
  assert (Memory._analyze_sentiment [m] =
          {| positive_score := 0; negative_score := 0; question_count := 0;
             overall_sentiment := "neutral"; engagement_level := "low" |}) as Hsent.
  { unfold Memory._analyze_sentiment. by rewrite Htext. }
  split; [done|]. split; [by rewrite Htopics|].
  rewrite Htopics, Hsent. unfold Memory._generate_insights. simpl.
  assert (Qlt_bool 3600 (timestamp m - timestamp m) = false) as ->.
  { destruct (Qlt_bool _ _) eqn:Hq; [|done]. apply Qlt_bool_true in Hq. lra. }
  assert (Qlt_bool 300 (timestamp m - timestamp m) = false) as ->.
  { destruct (Qlt_bool _ _) eqn:Hq; [|done]. apply Qlt_bool_true in Hq. lra. }
  done.
Qed.

End AnalysisFacts.

(** ** Parsing the plan of the language model *)

Section ParseFacts.
Import WorkflowManager.

(** When no line gives a step, the plan is the single search step on the
    original query. *)
Lemma parse_ai_workflow_fallback response original_query log :
  parse_lines 0 (Py.split_char (Ascii.ascii_of_nat 10) (Py.strip response))
    original_query = ([], log) →
  _parse_ai_workflow_response response original_query
    = ([fallback_step original_query], log).
Proof. unfold _parse_ai_workflow_response. by intros ->. Qed.

(** C8 (the code at the failing input). A line that is not a step, before
    the first step, shifts the numbering: the only parsed step is [step_2]
    and it waits for [step_1], which is not in the list. *)
Theorem parse_ai_workflow_dangling_dependency :
  ∃ step,
    _parse_ai_workflow_response Examples.answer_with_preamble "q" = ([step], []) ∧
    step_id step = "step_2" ∧
    depends_on step = Some ["step_1"] ∧
    dangling [step].
Proof.
  eexists. split; [vm_compute; reflexivity|].
  split; [done|]. split; [done|].
  eexists _, "step_1". split; [by left|]. split; [by left|].
  intros Hin. cbn in Hin.
  apply elem_of_cons in Hin as [Heq|Hin]; [discriminate Heq|by apply elem_of_nil in Hin].
Qed.

End ParseFacts.

(** ** The statements at concrete inputs *)

Section Witnesses.
Import Examples.

(** A numbering of the ids along which every dependency goes down excludes
    cycles. *)
Lemma acyclic_of_rank (steps : list WorkflowStep) (rank : string → nat) :
  (∀ s d, s ∈ steps → d ∈ WorkflowManager.deps s → rank d < rank (step_id s)) →
  acyclic steps.
Proof.
  intros Hrank.
  assert (∀ a b, tc (dep_edge steps) a b → rank b < rank a) as Htc.
  { induction 1 as [a b (s & Hs & <- & Hd)|a b c (s & Hs & <- & Hd) _ IH].
    - by apply (Hrank s).
    - specialize (Hrank s b Hs Hd). lia. }
  intros a Ha. apply Htc in Ha. lia.
Qed.

Lemma select_tool_fallback_witness :
  ∃ t, (ToolManager.select_tool fallback_only "qwertyuiop").2 = Returned (Some t) ∧
       name t = "WebSearch".
Proof.
  destruct (select_tool_fallback fallback_only "qwertyuiop")
    as (log & r & Hsel & _ & Hfalse & _).
  { intros t Ht. exists false.
    apply elem_of_cons in Ht as [->|Ht]; [reflexivity|].
    apply elem_of_cons in Ht as [->|Ht]; [reflexivity|].
    by apply elem_of_nil in Ht. }
  destruct Hfalse as (_ & t & -> & Hname).
  { vm_compute. right. left. }
  { intros t Ht.
    apply elem_of_cons in Ht as [->|Ht]; [reflexivity|].
    apply elem_of_cons in Ht as [->|Ht]; [reflexivity|].
    by apply elem_of_nil in Ht. }
  exists t. rewrite Hsel. split; [reflexivity|exact Hname].
Defined.

(** C4, as stated, fails: the exception of the predicate leaves
    [select_tool], although WebSearch is registered. *)
Lemma select_tool_swallows_counterexample :
  can_handle (raising_tool "Weather") "hello" = Raised boom ∧
  ToolManager.select_tool with_raising_tool "hello" = ([], Raised boom) ∧
  ¬ ∃ log r, ToolManager.select_tool with_raising_tool "hello" = (log, Returned r).
Proof.
  split; [reflexivity|]. split; [reflexivity|].
  intros (log & r & Hsel). vm_compute in Hsel. discriminate.
Qed.

Lemma select_tool_propagates_witness :
  ToolManager.select_tool with_raising_tool "hello" = ([], Raised boom).
Proof.
  apply (select_tool_propagates [] [silent_tool "WebSearch"] (raising_tool "Weather")
           "hello" boom).
  - intros u Hu. by apply elem_of_nil in Hu.
  - reflexivity.
Defined.

Ltac in_cases H :=
  repeat (apply elem_of_cons in H as [H|H]; [try subst|]);
  try (by apply elem_of_nil in H).

Lemma sort_steps_respects_dependencies_witness :
  WorkflowManager._sort_steps_by_dependencies chain_steps =
    Some ([], Returned [mk_step "a" "WebSearch" None;
                        mk_step "b" "WebSearch" (Some ["a"])]) ∧
  respects_deps [mk_step "a" "WebSearch" None; mk_step "b" "WebSearch" (Some ["a"])].
Proof.
  destruct (sort_steps_respects_dependencies chain_steps)
    as (order & Hsort & _ & Hresp & _).
  - apply (acyclic_of_rank _ (λ x, if bool_decide (x = "b") then 1 else 0)).
    intros s d Hs Hd. in_cases Hs; cbn in Hd; in_cases Hd. vm_compute. lia.
  - intros s d Hs Hd. in_cases Hs; cbn in Hd; in_cases Hd. right. left.
  - assert (order = [mk_step "a" "WebSearch" None; mk_step "b" "WebSearch" (Some ["a"])])
      as <-.
    { vm_compute in Hsort. by injection Hsort as <-. }
    split; [exact Hsort|exact Hresp].
Defined.

Lemma execute_workflow_terminates_witness :
  ∃ r log w',
    WorkflowManager.execute_workflow (Env0 := quiet_env no_answer) [] cycle_steps ()
      = Some (Returned r, log, w') ∧
    WorkflowManager.circular_warning ∈ log.
Proof.
  destruct (execute_workflow_terminates (Env0 := quiet_env no_answer) [] cycle_steps ())
    as (r & log & w' & Hrun & _ & _ & Hcyc).
  exists r, log, w'. split; [exact Hrun|]. apply Hcyc.
  - cbn. apply NoDup_cons. split.
    + intros Hin. in_cases Hin. discriminate Hin.
    + apply NoDup_singleton.
  - exists "a". apply (tc_l _ "a" "b" "a").
    + exists (mk_step "a" "WebSearch" (Some ["b"])).
      split; [left|]. split; [reflexivity|left].
    + apply tc_once. exists (mk_step "b" "WebSearch" (Some ["a"])).
      split; [right; left|]. split; [reflexivity|left].
Defined.


Lemma ticking_clock_monotone :
  clock_monotone (Env0 := ticking_env) (λ n, inject_Z (Z.of_nat n)).
Proof.
  intros n. unfold Qle. simpl. lia.
Qed.

Lemma memory_keeps_most_recent_witness :
  ∃ conv evicted,
    conversations
      (run_calls (Env0 := ticking_env) three_calls (Memory.init None (Some 2%Z) ∅) 0 []).1.1
      !! "u" = Some conv ∧
    length (messages conv) ≤ 2 ∧
    history_of "u"
      (run_calls (Env0 := ticking_env) three_calls (Memory.init None (Some 2%Z) ∅) 0 []).2
      = evicted ++ messages conv.
Proof.
  destruct (memory_keeps_most_recent (Env0 := ticking_env)) as [_ Hmem].
  set (res := run_calls (Env0 := ticking_env) three_calls (Memory.init None (Some 2%Z) ∅) 0 []).
  destruct (Hmem three_calls (Memory.init None (Some 2%Z) ∅) 0 res.1.1 res.1.2 res.2)
    with "u" as (conv & Hlook & Hlen & Hrecent).
  - simpl. lia.
  - fold res. clearbody res. by destruct res as [[? ?] ?].
  - left.
  - destruct (Hrecent _ ticking_clock_monotone) as (evicted & Hev & _).
    + intros u conv' Hu. simpl in Hu. by rewrite lookup_empty in Hu.
    + exists conv, evicted. split; [exact Hlook|]. split; [exact Hlen|exact Hev].
Defined.

(** C6, as stated, fails: a memory built with the defaults holds fifty-one
    messages after fifty-one writes. *)
Lemma default_cap_counterexample :
  max_messages_per_conversation (Memory.init None None ∅) ≠ 50%Z ∧
  ∃ conv,
    conversations
      (run_calls (Env0 := ticking_env) fifty_one_calls (Memory.init None None ∅) 0 []).1.1
      !! "u" = Some conv ∧
    ¬ length (messages conv) ≤ 50.
Proof.
  split; [done|]. eexists. split; [vm_compute; reflexivity|].
  vm_compute. lia.
Qed.

Lemma echo_suppressed_witness :
  (IntelligentAgent.process_message (Env0 := quiet_env no_answer) echo_handler
     "  Hello " None fresh_agent ()).1.1 ≠ "hello".
Proof.
  apply (echo_suppressed (Env0 := quiet_env no_answer) echo_handler "  Hello " None
           fresh_agent ()).
  - vm_compute. discriminate.
  - vm_compute. reflexivity.
  - intros a' w'. exists a', w'. reflexivity.
Defined.

(** C7, as stated, fails: on an input with one of the emojis, the retry may
    give the echo back, and it is returned. *)
Lemma echo_returned_counterexample :
  Py.strip " Hi 😊" ≠ "" ∧
  (∀ a w, echo_handler (World := unit) (Py.strip " Hi 😊") None a w
          = (Returned (Py.lower (Py.strip " Hi 😊")), a, w)) ∧
  (IntelligentAgent.process_message (Env0 := quiet_env parrot_answer) echo_handler
     " Hi 😊" None fresh_agent ()).1.1 = Py.lower (Py.strip " Hi 😊").
Proof.
  split; [vm_compute; discriminate|]. split; [reflexivity|].
  vm_compute. reflexivity.
Qed.

Lemma analyze_single_hello_witness :
  analysis_topics
    (Memory.analyze_conversation (Env0 := quiet_env no_answer) "u" hello_memory)
  = Some ["General"].
Proof.
  eapply (analyze_single_hello (Env0 := quiet_env no_answer) hello_memory "u" _
            hello_message).
  - vm_compute. reflexivity.
  - reflexivity.
  - reflexivity.
Defined.

(** C9, as stated, fails: the topics of the single "hello" do not hold
    "General conversation". *)
Lemma general_conversation_counterexample :
  ¬ ∃ topics,
      analysis_topics
        (Memory.analyze_conversation (Env0 := quiet_env no_answer) "u" hello_memory)
      = Some topics ∧
      "General conversation" ∈ topics.
Proof.
  intros (topics & Ht & Hin). vm_compute in Ht. injection Ht as <-.
  in_cases Hin. discriminate Hin.
Qed.

End Witnesses.

(** * Further properties of the code *)

(** ** Tool selection: priority *)

Section ToolPriorityFacts.
Context {World : Type}.
Import ToolManager.
Implicit Types (tools l : list (BaseTool World)) (t r u : BaseTool World).

Lemma find_named_is_Some n l : is_Some (find_named n l) ↔ n ∈ name <$> l.
Proof.
  destruct (find_named n l) as [t|] eqn:Hf.
  - split; [intros _|by eauto].
    apply find_named_Some in Hf as [Hin <-]. by apply list_elem_of_fmap_2.
  - split; [by intros [? ?]|]. intros Hin. by apply find_named_None in Hf.
Qed.

(** [by_priority] returns the first tool of the list carrying the first name
    of the order that some tool of the list carries. *)
Lemma by_priority_spec order l r :
  by_priority order l = Some r →
  ∃ i, order !! i = Some (name r) ∧ find_named (name r) l = Some r ∧
       ∀ j n, j < i → order !! j = Some n → n ∉ name <$> l.
Proof.
  induction order as [|n order IH]; simpl; [done|].
  destruct (find_named n l) as [t|] eqn:Hf.
  - intros [= <-]. pose proof (find_named_Some _ _ _ Hf) as [_ <-].
    exists 0. split; [done|]. split; [done|]. intros j ? Hj. lia.
  - intros Hr. destruct (IH Hr) as (i & Hi & Hfind & Hmin).
    exists (S i). split; [done|]. split; [done|].
    intros [|j] m Hj Hm; simpl in Hm.
    + injection Hm as <-. by apply find_named_None.
    + apply (Hmin j); [lia|done].
Qed.

Lemma by_priority_None order l :
  by_priority order l = None ↔ ∀ n, n ∈ order → n ∉ name <$> l.
Proof.
  induction order as [|n order IH]; simpl.
  - split; [intros _ n Hn; by apply elem_of_nil in Hn|done].
  - destruct (find_named n l) as [t|] eqn:Hf.
    + split; [done|]. intros Hall. exfalso. apply (Hall n); [left|].
      apply find_named_is_Some. by rewrite Hf.
    + rewrite IH. apply find_named_None in Hf. split.
      * intros Hall m [->|Hm]%elem_of_cons; [done|by apply Hall].
      * intros Hall m Hm. apply Hall. by right.
Qed.

(** The name that [by_priority] picks depends only on the names carried. *)
Lemma by_priority_names order l l' :
  (∀ n, n ∈ name <$> l ↔ n ∈ name <$> l') →
  name <$> by_priority order l = name <$> by_priority order l'.
Proof.
  intros Hnames. induction order as [|n order IH]; simpl; [done|].
  destruct (find_named n l) as [t|] eqn:Hf; destruct (find_named n l') as [t'|] eqn:Hf'.
  - apply find_named_Some in Hf as [_ Hn]. apply find_named_Some in Hf' as [_ Hn'].
    simpl. congruence.
  - exfalso. apply find_named_None in Hf'. apply Hf', Hnames, find_named_is_Some.
    by rewrite Hf.
  - exfalso. apply find_named_None in Hf. apply Hf, Hnames, find_named_is_Some.
    by rewrite Hf'.
  - done.
Qed.

(** X1. Among the tools that claim the query, the one selected carries the
    name that comes first in the fixed priority list. *)
Theorem select_tool_priority tools (query : string) t :
  (∀ u, u ∈ tools → ∃ b, can_handle u query = Returned b) →
  t ∈ tools → can_handle t query = Returned true → name t ∈ priority_order →
  ∃ r i,
    select_tool tools query = ([], Returned (Some r)) ∧
    r ∈ tools ∧ can_handle r query = Returned true ∧
    priority_order !! i = Some (name r) ∧
    ∀ u j, u ∈ tools → can_handle u query = Returned true →
      priority_order !! j = Some (name u) → i ≤ j.
Proof.
  intros Hret Ht Hclaim Hlisted.
  destruct (suitable_tools_returns tools query Hret) as (l & Hl & Hmem).
  assert (t ∈ l) as Htl by by apply Hmem.
  unfold select_tool. rewrite Hl. destruct l as [|x l']; [by apply elem_of_nil in Htl|].
  set (l := x :: l') in *.
  destruct (by_priority priority_order l) as [r|] eqn:Hp.
  - destruct (by_priority_spec _ _ _ Hp) as (i & Hi & Hfind & Hmin).
    apply find_named_Some in Hfind as [Hrl _]. apply Hmem in Hrl as [Hr1 Hr2].
    exists r, i. split; [done|]. split; [done|]. split; [done|]. split; [done|].
    intros u j Hu Hcu Hj. destruct (decide (i ≤ j)) as [|Hlt]; [done|]. exfalso.
    apply (Hmin j (name u)); [lia|done|]. apply list_elem_of_fmap_2. by apply Hmem.
  - exfalso. rewrite by_priority_None in Hp. apply (Hp (name t) Hlisted).
    by apply list_elem_of_fmap_2.
Qed.

(** X2. Whatever [select_tool] returns is a registered tool whose name is
    one of the seven names of the priority list: a tool with another name is
    never selected, even when it alone claims the query. *)
Theorem select_tool_listed_name tools (query : string) log r :
  select_tool tools query = (log, Returned (Some r)) →
  r ∈ tools ∧ name r ∈ priority_order ∧
  (can_handle r query = Returned true ∨ name r = "WebSearch").
Proof.
  unfold select_tool. destruct (suitable_tools tools query) as [l|e] eqn:Hl; [|done].
  assert (∀ x, x ∈ l → x ∈ tools ∧ can_handle x query = Returned true) as Hmem.
  { clear -Hl. revert l Hl. induction tools as [|t tools IH]; simpl; intros l.
    - intros [= <-] x Hx. by apply elem_of_nil in Hx.
    - destruct (can_handle t query) as [b|] eqn:Hb; [|done].
      destruct (suitable_tools tools query) as [l'|]; [|done].
      intros [= <-] x Hx. destruct b.
      + apply elem_of_cons in Hx as [->|Hx]; [by split; [left|]|].
        destruct (IH l' eq_refl x Hx). by split; [right|].
      + destruct (IH l' eq_refl x Hx). by split; [right|]. }
  destruct (match l with [] => None | _ :: _ => by_priority priority_order l end)
    as [t|] eqn:Hp.
  - intros [= _ <-]. destruct l as [|x l']; [done|].
    destruct (by_priority_spec _ _ _ Hp) as (i & Hi & Hfind & _).
    apply find_named_Some in Hfind as [Hin _]. destruct (Hmem _ Hin).
    split; [done|]. split; [|by left]. by eapply list_elem_of_lookup_2.
  - destruct (find_named "WebSearch" tools) as [t|] eqn:Hf; [|done].
    intros [= _ <-]. apply find_named_Some in Hf as [Hin Hn].
    split; [done|]. rewrite Hn. split; [|by right]. vm_compute. do 6 right. left.
Qed.

(** X3. The name of the selected tool does not depend on the order in which
    the tools are registered. *)
Theorem select_tool_registration_order tools tools' (query : string) :
  tools ≡ₚ tools' →
  (∀ u, u ∈ tools → ∃ b, can_handle u query = Returned b) →
  ∃ log (selected selected' : option (BaseTool World)),
    select_tool tools query = (log, Returned selected) ∧
    select_tool tools' query = (log, Returned selected') ∧
    name <$> selected = name <$> selected'.
Proof.
  intros Hperm Hret.
  assert (∀ u, u ∈ tools' → ∃ b, can_handle u query = Returned b) as Hret'.
  { intros u Hu. apply Hret. by rewrite Hperm. }
  destruct (suitable_tools_returns tools query Hret) as (l & Hl & Hmem).
  destruct (suitable_tools_returns tools' query Hret') as (l' & Hl' & Hmem').
  assert (∀ u, u ∈ l ↔ u ∈ l') as Hsame.
  { intros u. rewrite Hmem, Hmem', Hperm. done. }
  assert (∀ n, n ∈ name <$> l ↔ n ∈ name <$> l') as Hnames.
  { intros n. rewrite !list_elem_of_fmap. by setoid_rewrite Hsame. }
  unfold select_tool. rewrite Hl, Hl'.
  pose proof (by_priority_names priority_order l l' Hnames) as Hpick.
  assert (l = [] ↔ l' = []) as Hnil.
  { split; intros ->.
    - apply elem_of_nil_inv. intros u Hu. apply Hsame in Hu. by apply elem_of_nil in Hu.
    - apply elem_of_nil_inv. intros u Hu. apply Hsame in Hu. by apply elem_of_nil in Hu. }
  assert (name <$> (match l with [] => None | _ :: _ => by_priority priority_order l end)
          = name <$> (match l' with [] => None | _ :: _ => by_priority priority_order l' end))
    as Hpick'.
  { destruct l as [|x l0], l' as [|x' l0']; [done| | |done].
    - discriminate (proj1 Hnil eq_refl).
    - discriminate (proj2 Hnil eq_refl). }
  destruct (match l with [] => None | _ :: _ => _ end) as [t|],
           (match l' with [] => None | _ :: _ => _ end) as [t'|]; try done.
  - by eexists [], (Some t), (Some t').
  - assert (name <$> find_named "WebSearch" tools = name <$> find_named "WebSearch" tools')
      as Hfb.
    { destruct (find_named "WebSearch" tools) as [t|] eqn:Hf;
        destruct (find_named "WebSearch" tools') as [t'|] eqn:Hf'; simpl.
      - apply find_named_Some in Hf as [_ Hn]. apply find_named_Some in Hf' as [_ Hn'].
        congruence.
      - exfalso. apply find_named_None in Hf'. apply Hf'. rewrite <- Hperm.
        apply find_named_is_Some. by rewrite Hf.
      - exfalso. apply find_named_None in Hf. apply Hf. rewrite Hperm.
        apply find_named_is_Some. by rewrite Hf'.
      - done. }
    destruct (find_named "WebSearch" tools) as [t|],
             (find_named "WebSearch" tools') as [t'|]; try done.
    + by eexists [], (Some t), (Some t').
    + by eexists [_], None, None.
Qed.

(** X4. When [needs_tool] answers [False], [select_tool] falls back: it
    returns the first tool named WebSearch, or [None] with a warning when
    there is none. *)
Theorem needs_tool_false_fallback tools (query : string) :
  needs_tool tools query = Returned false →
  select_tool tools query =
    (match find_named "WebSearch" tools with
     | Some _ => []
     | None => [no_tool_warning query]
     end, Returned (find_named "WebSearch" tools)).
Proof.
  intros Hneeds.
  assert (suitable_tools tools query = Returned []) as Hl.
  { induction tools as [|t tools IH]; simpl in *; [done|].
    destruct (can_handle t query) as [[]|]; [done| |done].
    by rewrite IH. }
  unfold select_tool. rewrite Hl.
  by destruct (find_named "WebSearch" tools).
Qed.

End ToolPriorityFacts.

(** ** Workflow execution: accounting *)

Section ExecutionAccounting.
Context {World : Type} `{!Env World}.
Import WorkflowManager.
Implicit Types (tools : list (BaseTool World)) (st : ExecState World).
Implicit Types (s t : WorkflowStep) (l order : list WorkflowStep).

Lemma sort_loop_prefix fuel sorted remaining log order :
  sort_loop fuel sorted remaining = Some (log, Returned order) →
  sorted `prefix_of` order.
Proof.
  revert sorted remaining. induction fuel as [|fuel IH]; intros sorted remaining; [done|].
  destruct remaining as [|r rs]; [by intros [= _ <-]|].
  rewrite sort_loop_step.
  destruct (List.filter (is_ready sorted) (r :: rs)) as [|x ready] eqn:Hf.
  - intros [= _ <-]. by apply prefix_app_r.
  - intros Hrun. apply IH in Hrun. etrans; [|exact Hrun]. by apply prefix_app_r.
Qed.

Lemma is_ready_nil s : is_ready [] s = bool_decide (deps s = []).
Proof.
  unfold is_ready, deps. by destruct (depends_on s) as [[|d ds]|].
Qed.

(** X5. The run order starts with the steps that wait for nothing, in the
    order of the input; when no step waits for anything the input is run as
    it is, without a warning. *)
Theorem sort_steps_independent_first (steps : list WorkflowStep) :
  ∃ log order rest,
    _sort_steps_by_dependencies steps = Some (log, Returned order) ∧
    order = List.filter (λ s, bool_decide (deps s = [])) steps ++ rest ∧
    ((∀ s, s ∈ steps → deps s = []) → order = steps ∧ log = []).
Proof.
  destruct (sort_steps_returns steps) as (log & order & Hrun & Hperm).
  assert (List.filter (is_ready []) steps
          = List.filter (λ s, bool_decide (deps s = [])) steps) as Hfilter.
  { apply List.filter_ext. intros s. apply is_ready_nil. }
  pose proof Hrun as Hrun0.
  unfold _sort_steps_by_dependencies in Hrun.
  destruct steps as [|s0 steps'].
  { injection Hrun as <- <-. by exists [], [], []. }
  rewrite sort_loop_step in Hrun. rewrite <- Hfilter.
  set (steps := s0 :: steps') in *.
  destruct (List.filter (is_ready []) steps) as [|x ready] eqn:Hf.
  - injection Hrun as <- <-. exists [circular_warning], steps, steps.
    split; [done|]. split; [done|]. intros Hall. exfalso.
    assert (s0 ∈ List.filter (is_ready []) steps) as Hin.
    { apply elem_of_bfilter. split; [left|].
      rewrite is_ready_nil. apply bool_decide_eq_true, Hall. left. }
    rewrite Hf in Hin. by apply elem_of_nil in Hin.
  - pose proof (sort_loop_prefix _ _ _ _ _ Hrun) as [rest Hrest].
    exists log, order, rest.
    split; [done|]. split; [done|]. intros Hall.
    assert (List.filter (is_ready []) steps = steps) as Hall_ready.
    { clear -Hall. induction steps as [|s steps IH]; simpl; [done|].
      rewrite is_ready_nil, bool_decide_true by (apply Hall; left).
      rewrite IH; [done|]. intros ? ?. apply Hall. by right. }
    assert (List.filter (λ s, negb (is_ready [] s)) steps = []) as Hnone.
    { clear -Hall. induction steps as [|s steps IH]; simpl; [done|].
      rewrite is_ready_nil, bool_decide_true by (apply Hall; left). simpl.
      apply IH. intros ? ?. apply Hall. by right. }
    rewrite Hnone in Hrun. rewrite Hf in Hall_ready.
    unfold steps in Hrun. simpl in Hrun. injection Hrun as <- <-.
    by rewrite Hall_ready.
Qed.

Lemma run_steps_accounting tools st l :
  st_completed (run_steps tools st l) + length (st_errors (run_steps tools st l))
  = st_completed st + length (st_errors st) + length l.
Proof.
  revert st. induction l as [|s l IH]; intros st; [simpl; lia|].
  rewrite run_steps_cons, IH.
  destruct (run_step_cases tools st s)
    as [(?&?&_&_&->&->&_)|[(?&?&_&_&_&->&->&_)|(?&?&_&_&_&->&->&_)]];
    rewrite ?length_app; simpl; lia.
Qed.

(** X6. Every step is accounted for once: the number of completed steps and
    the number of errors add up to the number of steps. *)
Theorem execute_workflow_accounting tools (steps : list WorkflowStep) (w0 : World) :
  ∃ r log w',
    execute_workflow tools steps w0 = Some (Returned r, log, w') ∧
    steps_completed r + length (errors r) = total_steps r ∧
    total_steps r = length steps.
Proof.
  destruct (sort_steps_returns steps) as (log0 & order & Hsort & Hperm).
  unfold execute_workflow. rewrite Hsort.
  destruct (time_time w0) as [start_time w1].
  destruct (_generate_workflow_summary _ _ _ _) as [[summary log1] w2].
  destruct (time_time w2) as [end_time w3].
  eexists _, _, _. split; [done|]. simpl. split; [|done].
  rewrite run_steps_accounting. simpl. by rewrite Hperm.
Qed.

Lemma store_result_is_Some s v (m : gmap string PyVal) k :
  is_Some (m !! k) ∨ k = step_id s → is_Some (store_result s v m !! k).
Proof.
  intros Hk. unfold store_result.
  assert (is_Some (<[step_id s := v]> m !! k)) as Hins.
  { destruct (decide (step_id s = k)) as [->|Hne].
    - rewrite lookup_insert_eq. by eexists.
    - rewrite lookup_insert_ne by done. by destruct Hk. }
  destruct (output_variable s) as [ov|]; [|done].
  case_bool_decide; [done|].
  destruct (decide (ov = k)) as [->|Hne].
  - rewrite lookup_insert_eq. by eexists.
  - by rewrite lookup_insert_ne.
Qed.

(** A key of [results] stays: entries are written, never removed. *)
Lemma run_steps_keeps_keys tools st l k :
  is_Some (st_results st !! k) → is_Some (st_results (run_steps tools st l) !! k).
Proof.
  revert st. induction l as [|s l IH]; intros st Hk; [done|].
  rewrite run_steps_cons. apply IH.
  destruct (run_step_cases tools st s)
    as [(?&?&_&->&_)|[(?&?&_&_&->&_)|(?&?&_&_&->&_)]]; [done| |done].
  apply store_result_is_Some. by left.
Qed.

Lemma run_steps_no_error tools st l :
  st_errors (run_steps tools st l) = st_errors st →
  ∀ s, s ∈ l → is_Some (st_results (run_steps tools st l) !! step_id s).
Proof.
  revert st. induction l as [|s0 l IH]; intros st Herr s Hs;
    [by apply elem_of_nil in Hs|].
  rewrite run_steps_cons in *.
  destruct (run_steps_errors tools (run_step tools st s0) l) as [more Hmore].
  destruct (run_step_cases tools st s0)
    as [(?&?&_&_&He&_)|[(v&w&_&_&Hres&He&_)|(?&?&_&_&_&He&_)]].
  - exfalso. rewrite Hmore, He, <- (assoc_L (++)) in Herr.
    apply (f_equal length) in Herr. rewrite !length_app in Herr. simpl in Herr. lia.
  - apply elem_of_cons in Hs as [->|Hs].
    + apply run_steps_keeps_keys. rewrite Hres. apply store_result_is_Some. by right.
    + apply IH; [|done]. by rewrite Herr, He.
  - exfalso. rewrite Hmore, He, <- (assoc_L (++)) in Herr.
    apply (f_equal length) in Herr. rewrite !length_app in Herr. simpl in Herr. lia.
Qed.

(** X7. A run that succeeds has completed every step, and [results] holds an
    entry under the id of every step. *)
Theorem execute_workflow_success_complete tools (steps : list WorkflowStep) (w0 : World) :
  ∃ r log w',
    execute_workflow tools steps w0 = Some (Returned r, log, w') ∧
    (success r = true →
     steps_completed r = total_steps r ∧
     ∀ s, s ∈ steps → is_Some (results r !! step_id s)).
Proof.
  destruct (sort_steps_returns steps) as (log0 & order & Hsort & Hperm).
  unfold execute_workflow. rewrite Hsort.
  destruct (time_time w0) as [start_time w1].
  destruct (_generate_workflow_summary _ _ _ _) as [[summary log1] w2].
  destruct (time_time w2) as [end_time w3].
  eexists _, _, _. split; [done|]. simpl.
  intros Hok%bool_decide_eq_true. apply nil_length_inv in Hok.
  pose proof (run_steps_accounting tools (init_state w1) order) as Hacc.
  rewrite Hok in Hacc. simpl in Hacc. split; [rewrite <- Hperm; lia|].
  intros s Hs. apply run_steps_no_error; [by rewrite Hok|by rewrite Hperm].
Qed.

(** X8. A step that waits for the id of a step that raised is not run: with
    no other step writing that key, it is skipped at its turn and an error
    naming the missing dependency is recorded. *)
Theorem execute_workflow_dependent_skipped tools (steps : list WorkflowStep) (w0 : World) :
  ∃ log0 order r log w',
    _sort_steps_by_dependencies steps = Some (log0, Returned order) ∧
    execute_workflow tools steps w0 = Some (Returned r, log, w') ∧
    ∀ l1 s l2 t l3 e w2,
      order = l1 ++ s :: l2 ++ t :: l3 →
      let st1 := run_steps tools (init_state (time_time w0).2) l1 in
      missing_deps s (st_results st1) = [] →
      _execute_step tools s (st_results st1) (st_world st1) = (Raised e, w2) →
      step_id s ∈ deps t →
      (∀ x, x ∈ l1 ++ l2 →
         step_id x ≠ step_id s ∧ output_variable x ≠ Some (step_id s)) →
      let before := run_steps tools (init_state (time_time w0).2) (l1 ++ s :: l2) in
      attempted (run_step tools before t) = attempted before ∧
      step_id s ∈ missing_deps t (st_results before) ∧
      missing_msg t (missing_deps t (st_results before)) ∈ errors r.
Proof.
  destruct (sort_steps_returns steps) as (log0 & order & Hsort & _).
  unfold execute_workflow. rewrite Hsort.
  destruct (time_time w0) as [start_time w1]. simpl.
  destruct (_generate_workflow_summary _ _ _ _) as [[summary log1] w2].
  destruct (time_time w2) as [end_time w3].
  eexists log0, order, _, _, _. split; [done|]. split; [done|]. simpl.
  intros l1 s l2 t l3 e w2' -> Hmiss Hraise Hdep Hother.
  set (st1 := run_steps tools (init_state w1) l1) in *.
  set (before := run_steps tools (init_state w1) (l1 ++ s :: l2)).
  assert (st_results before !! step_id s = None) as Hnone.
  { unfold before. rewrite run_steps_app, run_steps_cons. fold st1.
    apply run_steps_lookup_None.
    - destruct (run_step_cases tools st1 s)
        as [(?&?&?&_)|[(?&?&_&?&_)|(?&?&_&_&->&_)]]; [congruence..|].
      apply (run_steps_lookup_None tools (init_state w1) l1); [done|].
      intros y Hy. apply Hother, elem_of_app. by left.
    - intros y Hy. apply Hother, elem_of_app. by right. }
  assert (step_id s ∈ missing_deps t (st_results before)) as Hin.
  { unfold missing_deps. apply elem_of_bfilter. split; [done|].
    by apply bool_decide_eq_true. }
  split; [|split; [done|]].
  - destruct (run_step_cases tools before t)
      as [(?&?&_&_&_&_&->)|[(?&?&Hm&_)|(?&?&Hm&_)]]; [done|..];
      rewrite Hm in Hin; by apply elem_of_nil in Hin.
  - replace (l1 ++ s :: l2 ++ t :: l3) with ((l1 ++ s :: l2) ++ t :: l3)
      by by rewrite <- (assoc_L (++)).
    rewrite run_steps_app, run_steps_cons. fold before.
    destruct (run_steps_errors tools (run_step tools before t) l3) as [more ->].
    destruct (run_step_cases tools before t)
      as [(d&ds&Hm&_&->&_)|[(?&?&Hm&_)|(?&?&Hm&_)]].
    + rewrite Hm. rewrite !elem_of_app, list_elem_of_singleton. left. by right.
    + rewrite Hm in Hin. by apply elem_of_nil in Hin.
    + rewrite Hm in Hin. by apply elem_of_nil in Hin.
Qed.

End ExecutionAccounting.

(** ** Ordering a list that is already in a valid order *)

Section ValidOrderFacts.
Import WorkflowManager.

Lemma bfilter_split {A} (f : A → bool) (l : list A) l1' x l2' :
  List.filter f l = l1' ++ x :: l2' →
  ∃ l1 l2, l = l1 ++ x :: l2 ∧ l1' = List.filter f l1 ∧ l2' = List.filter f l2.
Proof.
  revert l1'. induction l as [|y l IH]; intros l1'; simpl.
  - by destruct l1'.
  - destruct (f y) eqn:Hy.
    + destruct l1' as [|z l1']; simpl.
      * intros [= <- <-]. exists [], l. simpl. by rewrite ?Hy.
      * intros [= <- Hrest]. destruct (IH _ Hrest) as (l1 & l2 & -> & -> & ->).
        exists (y :: l1), l2. simpl. by rewrite Hy.
    + intros Hrest. destruct (IH _ Hrest) as (l1 & l2 & -> & -> & ->).
      exists (y :: l1), l2. simpl. by rewrite Hy.
Qed.

Lemma sort_loop_valid_order fuel sorted remaining log order :
  (∀ l1 s l2, remaining = l1 ++ s :: l2 →
     ∀ d, d ∈ deps s → d ∈ step_id <$> (sorted ++ l1)) →
  sort_loop fuel sorted remaining = Some (log, Returned order) → log = [].
Proof.
  revert sorted remaining. induction fuel as [|fuel IH]; intros sorted remaining Hvalid; [done|].
  destruct remaining as [|r rs]; [by intros [= <- _]|].
  rewrite sort_loop_step.
  destruct (List.filter (is_ready sorted) (r :: rs)) as [|x ready] eqn:Hf.
  - exfalso. assert (is_ready sorted r = true) as Hr.
    { apply is_ready_spec. intros d Hd.
      specialize (Hvalid [] r rs eq_refl d Hd). by rewrite app_nil_r in Hvalid. }
    assert (r ∈ List.filter (is_ready sorted) (r :: rs)) as Hin.
    { apply elem_of_bfilter. split; [left|done]. }
    rewrite Hf in Hin. by apply elem_of_nil in Hin.
  - apply IH. intros l1' s l2' Hsplit d Hd.
    apply bfilter_split in Hsplit as (l1 & l2 & Hsplit & -> & ->).
    specialize (Hvalid l1 s l2 Hsplit d Hd).
    rewrite fmap_app, elem_of_app in Hvalid.
    rewrite !fmap_app, !elem_of_app.
    destruct Hvalid as [?|Hl1]; [by left; left|].
    apply list_elem_of_fmap in Hl1 as (u & -> & Hu).
    destruct (is_ready sorted u) eqn:Hru.
    + left. right. apply list_elem_of_fmap_2. rewrite <- Hf.
      apply elem_of_bfilter. split; [|done]. rewrite Hsplit, elem_of_app. by left.
    + right. apply list_elem_of_fmap_2, elem_of_bfilter. by rewrite Hru.
Qed.

(** X9. A list in which every step already comes after a step carrying each
    id it waits for is ordered without the warning, and the run order
    respects the dependencies (also with repeated ids). *)
Theorem sort_steps_valid_order (steps : list WorkflowStep) :
  respects_deps steps →
  ∃ order,
    _sort_steps_by_dependencies steps = Some ([], Returned order) ∧
    order ≡ₚ steps ∧ respects_deps order.
Proof.
  intros Hvalid.
  destruct (sort_steps_returns steps) as (log & order & Hrun & Hperm).
  assert (log = []) as ->.
  { apply (sort_loop_valid_order (S (length steps)) [] steps log order); [|done].
    intros l1 s l2 Hsplit d Hd. simpl. by apply (Hvalid l1 s l2). }
  exists order. split; [done|]. split; [done|].
  apply (sort_loop_respects _ _ _ _ Hrun). intros l1 s l2 Heq. by destruct l1.
Qed.

End ValidOrderFacts.

(** ** The plan parser *)

Section ParserFacts.
Import WorkflowManager.

Lemma step_name_inj k k' : step_name k = step_name k' → k = k'.
Proof.
  unfold step_name. simpl. intros [= Heq]. by apply (inj (pretty : nat → string)).
Qed.

Lemma parse_step_line_shape i line q step :
  parse_step_line i line q = Returned (Some step) →
  step_id step = step_name (i + 1) ∧
  step_type step = TOOL_EXECUTION ∧
  parameters step = {[ "query" := VStr q ]} ∧
  depends_on step = (if 0 <? i then Some [step_name i] else None) ∧
  condition step = None ∧ output_variable step = None.
Proof.
  unfold parse_step_line.
  destruct (Py.split1 ":" line) as [|? [|rest [|? ?]]]; [done..| |done].
  destruct (Py.split1 " - " (Py.strip rest)) as [|? [|? [|? ?]]]; [done..| |done].
  by intros [= <-].
Qed.

(** Every step that the loop produces comes from a line, of which it
    carries the number. *)
Lemma parse_lines_shape i lines q s :
  s ∈ (parse_lines i lines q).1 →
  ∃ j line, lines !! j = Some line ∧
    parse_step_line (i + j) line q = Returned (Some s).
Proof.
  revert i. induction lines as [|line rest IH]; intros i; simpl;
    [intros Hs; by apply elem_of_nil in Hs|].
  destruct (parse_lines (S i) rest q) as [steps log] eqn:Hrest.
  assert (s ∈ steps → ∃ j l, (line :: rest) !! j = Some l ∧
            parse_step_line (i + j) l q = Returned (Some s)) as Htail.
  { intros Hs. destruct (IH (S i)) as (j & l & Hj & Hp); [by rewrite Hrest|].
    exists (S j), l. split; [done|]. by replace (i + S j) with (S i + j) by lia. }
  destruct (Py.startswith (Py.strip line) "STEP"); [|done].
  destruct (parse_step_line i line q) as [[step|]|e] eqn:Hp; simpl; [|done..].
  intros [->|Hs]%elem_of_cons; [|by apply Htail].
  exists 0, line. split; [done|]. by rewrite Nat.add_0_r.
Qed.

Lemma parse_lines_NoDup i lines q :
  NoDup (step_id <$> (parse_lines i lines q).1).
Proof.
  revert i. induction lines as [|line rest IH]; intros i; simpl; [constructor|].
  pose proof (IH (S i)) as Hnd.
  pose proof (λ s, parse_lines_shape (S i) rest q s) as Hshape.
  destruct (parse_lines (S i) rest q) as [steps log]. simpl in *.
  destruct (Py.startswith (Py.strip line) "STEP"); [|done].
  destruct (parse_step_line i line q) as [[step|]|e] eqn:Hp; simpl; [|done..].
  apply NoDup_cons. split; [|done].
  intros (s & Heq & Hs)%list_elem_of_fmap.
  destruct (Hshape s Hs) as (j & l & _ & Hpj).
  apply parse_step_line_shape in Hp as (Hid & _).
  apply parse_step_line_shape in Hpj as (Hidj & _).
  rewrite Hid, Hidj in Heq. apply step_name_inj in Heq. lia.
Qed.

(** X10. Whatever the model answers, the plan is not empty, its step ids are
    pairwise distinct, and each step is a tool execution that carries the
    original query as its only parameter, has no output variable and waits
    for at most one id. *)
Theorem parse_ai_workflow_shape (response original_query : string) :
  let plan := (_parse_ai_workflow_response response original_query).1 in
  plan ≠ [] ∧
  NoDup (step_id <$> plan) ∧
  ∀ s, s ∈ plan →
    step_type s = TOOL_EXECUTION ∧
    parameters s = {[ "query" := VStr original_query ]} ∧
    output_variable s = None ∧
    length (deps s) ≤ 1.
Proof.
  unfold _parse_ai_workflow_response.
  set (lines := Py.split_char _ _).
  pose proof (parse_lines_NoDup 0 lines original_query) as Hnd.
  pose proof (λ s, parse_lines_shape 0 lines original_query s) as Hshape.
  destruct (parse_lines 0 lines original_query) as [[|s0 steps] log]; simpl in *.
  - split; [done|]. split; [apply NoDup_singleton|].
    intros s ->%list_elem_of_singleton. repeat split. cbn. lia.
  - split; [done|]. split; [done|]. intros s Hs.
    destruct (Hshape s Hs) as (j & l & _ & Hp).
    apply parse_step_line_shape in Hp as (_ & Ht & Hpar & Hdep & _ & Hov).
    split; [done|]. split; [done|]. split; [done|].
    unfold deps. rewrite Hdep. destruct (0 <? j); simpl; lia.
Qed.

Lemma parse_lines_all i lines q :
  (∀ k line, lines !! k = Some line →
     Py.startswith (Py.strip line) "STEP" = true ∧
     ∃ step, parse_step_line (i + k) line q = Returned (Some step)) →
  (parse_lines i lines q).2 = [] ∧
  length (parse_lines i lines q).1 = length lines ∧
  ∀ k s, (parse_lines i lines q).1 !! k = Some s →
    step_id s = step_name (i + k + 1) ∧
    depends_on s = (if 0 <? i + k then Some [step_name (i + k)] else None).
Proof.
  revert i. induction lines as [|line rest IH]; intros i Hall; simpl; [done|].
  destruct (IH (S i)) as (Hlog & Hlen & Hsteps).
  { intros k l Hk. destruct (Hall (S k) l Hk) as [? ?].
    by replace (S i + k) with (i + S k) by lia. }
  destruct (parse_lines (S i) rest q) as [steps log]. simpl in *.
  destruct (Hall 0 line eq_refl) as [-> [step Hp]].
  rewrite Nat.add_0_r in Hp. rewrite Hp. simpl.
  split; [done|]. split; [by rewrite Hlen|].
  intros [|k] s; simpl.
  - intros [= <-]. apply parse_step_line_shape in Hp as (Hid & _ & _ & Hdep & _).
    by rewrite Nat.add_0_r.
  - intros Hk. destruct (Hsteps k s Hk) as [Hid Hdep].
    by replace (i + S k) with (S i + k) by lia.
Qed.

(** X11. When every line of the answer is a well-formed step line, the plan
    has one step per line, numbered from 1, each waiting for the one before:
    the list is in a valid order. *)
Theorem parse_ai_workflow_linear (response original_query : string) :
  let lines := Py.split_char (Ascii.ascii_of_nat 10) (Py.strip response) in
  (∀ k line, lines !! k = Some line →
     Py.startswith (Py.strip line) "STEP" = true ∧
     ∃ step, parse_step_line k line original_query = Returned (Some step)) →
  ∃ plan,
    _parse_ai_workflow_response response original_query = (plan, []) ∧
    length plan = length lines ∧
    (∀ k s, plan !! k = Some s →
       step_id s = step_name (k + 1) ∧
       depends_on s = match k with O => None | S _ => Some [step_name k] end) ∧
    respects_deps plan.
Proof.
  intros lines Hall.
  destruct (parse_lines_all 0 lines original_query Hall) as (Hlog & Hlen & Hsteps).
  unfold _parse_ai_workflow_response. fold lines.
  destruct (parse_lines 0 lines original_query) as [steps log]. simpl in *. subst log.
  assert (lines ≠ []) as Hne.
  { unfold lines. by destruct (Py.strip response) as [|c r]; simpl;
      [|destruct (bool_decide _); [|destruct (Py.split_char _ r)]]. }
  destruct steps as [|s0 steps']; [by destruct lines|].
  set (plan := s0 :: steps') in *.
  assert (∀ k s, plan !! k = Some s →
            step_id s = step_name (k + 1) ∧
            depends_on s = match k with O => None | S _ => Some [step_name k] end)
    as Hshape.
  { intros k s Hk. destruct (Hsteps k s Hk) as [Hid Hdep]. split; [done|].
    rewrite Hdep. by destruct k. }
  exists plan. split; [done|]. split; [done|]. split; [done|].
  intros l1 s l2 Heq d Hd.
  assert (plan !! length l1 = Some s) as Hk.
  { rewrite Heq. by apply list_lookup_middle. }
  destruct (Hshape _ _ Hk) as [_ Hdep]. unfold deps in Hd. rewrite Hdep in Hd.
  destruct (length l1) as [|k] eqn:Hl1; [by apply elem_of_nil in Hd|].
  apply list_elem_of_singleton in Hd as ->.
  assert (is_Some (l1 !! k)) as [p Hp] by (apply lookup_lt_is_Some; lia).
  assert (plan !! k = Some p) as Hpk.
  { rewrite Heq, lookup_app_l by lia. done. }
  destruct (Hshape _ _ Hpk) as [Hid _].
  replace (k + 1) with (S k) in Hid by lia. rewrite <- Hid.
  apply list_elem_of_fmap_2. by eapply list_elem_of_lookup_2.
Qed.

End ParserFacts.

(** ** Reading, clearing and analysing the memory *)

Section MemoryAccessFacts.
Context {World : Type} `{!Env World}.
Implicit Types (mem : ConversationMemory) (w : World) (conv : Conversation).

(** X12. [get_recent_messages] returns the end of the history.  A positive
    limit gives that many messages, or all when there are fewer; the limit 0
    gives the whole history, not the empty list; a negative limit [-n] leaves
    out the [n] oldest. *)
Theorem get_recent_messages_limit (limit : Z) conv :
  Memory.get_recent_messages limit conv `suffix_of` messages conv ∧
  length (Memory.get_recent_messages limit conv) =
    (if (0 <? limit)%Z then Z.to_nat limit `min` length (messages conv)
     else length (messages conv) - Z.to_nat (- limit)) ∧
  Memory.get_recent_messages 0 conv = messages conv.
Proof.
  unfold Memory.get_recent_messages.
  destruct (messages conv) as [|m l] eqn:Hm.
  - split; [done|]. split; [|done]. destruct (0 <? limit)%Z; simpl; lia.
  - rewrite <- Hm. split; [apply py_last_suffix|]. split; [|done].
    unfold py_last. destruct (0 <? limit)%Z; rewrite length_drop; lia.
Qed.

(** X13. [clear_conversation] answers whether the user had a conversation.
    Afterwards the user has none: the analysis finds no history and a second
    call answers [False]; the other users keep theirs. *)
Theorem clear_conversation_forgets (uid : string) mem :
  let found := (Memory.clear_conversation uid mem).1 in
  let mem' := (Memory.clear_conversation uid mem).2 in
  found = bool_decide (is_Some (conversations mem !! uid)) ∧
  conversations mem' !! uid = None ∧
  Memory.analyze_conversation uid mem'
    = NoHistory "No conversation history found for this user." ∧
  Memory.clear_conversation uid mem' = (false, mem') ∧
  ∀ u, u ≠ uid → conversations mem' !! u = conversations mem !! u.
Proof.
  unfold Memory.clear_conversation, Memory.analyze_conversation.
  destruct (conversations mem !! uid) as [conv|] eqn:Hlook; simpl.
  - rewrite lookup_delete_eq. split; [done|]. split; [done|]. split; [done|].
    split; [done|]. intros u Hne. by rewrite lookup_delete_ne.
  - by rewrite Hlook.
Qed.

(** X14. Asking for the context of a user who has no conversation returns
    the empty string and files an empty conversation under the user: the
    analysis then finds a conversation without messages, and
    [clear_conversation] answers [True]. *)
Theorem get_conversation_context_registers (uid : string) (limit : Z) mem w :
  conversations mem !! uid = None →
  let context := (Memory.get_conversation_context uid limit mem w).1.1 in
  let mem' := (Memory.get_conversation_context uid limit mem w).1.2 in
  context = "" ∧
  (∃ conv, conversations mem' !! uid = Some conv ∧ messages conv = []) ∧
  Memory.analyze_conversation uid mem'
    = NoHistory "No messages in conversation history." ∧
  (Memory.clear_conversation uid mem').1 = true ∧
  ∀ u, u ≠ uid → conversations mem' !! u = conversations mem !! u.
Proof.
  intros Hnone. unfold Memory.get_conversation_context.
  destruct (Memory.get_or_create_conversation uid mem w) as [[conv mem1] w1] eqn:Hget.
  apply get_or_create_lookup in Hget as (Hlook & _ & Hother & [[Hold _]|(_ & _ & Hempty & _)]);
    [congruence|].
  simpl. unfold Memory.get_context_string, Memory.get_recent_messages,
    Memory.analyze_conversation, Memory.clear_conversation.
  rewrite Hlook, Hempty. split; [done|]. split; [by exists conv|]. done.
Qed.

(** A user who already has a conversation is read without any change. *)
Lemma get_conversation_context_known (uid : string) (limit : Z) mem w conv :
  conversations mem !! uid = Some conv →
  Memory.get_conversation_context uid limit mem w
    = (Memory.get_context_string limit conv, mem, w).
Proof.
  intros Hlook. unfold Memory.get_conversation_context,
    Memory.get_or_create_conversation. by rewrite Hlook.
Qed.

(** X15. Writes never touch the conversation of a user they do not name. *)
Theorem run_calls_isolated (calls : list Call) mem w (history : list Message)
    (u : string) :
  u ∉ call_user <$> calls →
  conversations (run_calls calls mem w history).1.1 !! u = conversations mem !! u.
Proof.
  revert mem w history. induction calls as [|c calls IH]; intros mem w history Hu;
    [done|].
  simpl. destruct (run_call c mem w) as [mem1 w1] eqn:Hc.
  rewrite run_call_eq in Hc.
  apply add_message_as_spec in Hc as (?&?&?&_&_&_&Hother&_).
  rewrite fmap_cons, not_elem_of_cons in Hu. destruct Hu as [Hne Hu].
  rewrite IH by done. by apply Hother.
Qed.

End MemoryAccessFacts.

(** ** The figures of the analysis *)

Section AnalysisCountFacts.
Context {World : Type} `{!Env World}.
Implicit Types (mem : ConversationMemory) (w : World) (conv : Conversation).

Lemma Forall_bfilter {A} (P : A → Prop) (f : A → bool) (l : list A) :
  Forall P l → Forall P (List.filter f l).
Proof.
  intros Hl. apply Forall_forall. intros x [Hx _]%elem_of_bfilter.
  by eapply Forall_forall in Hl.
Qed.

Lemma Forall_suffix {A} (P : A → Prop) (l k : list A) :
  l `suffix_of` k → Forall P k → Forall P l.
Proof. intros [pre ->] Hk. by apply Forall_app in Hk as [_ ?]. Qed.

(** The two writers only store messages whose role is ["user"] or
    ["assistant"]. *)
Lemma run_calls_roles (calls : list Call) mem w (history : list Message) :
  (∀ u conv, conversations mem !! u = Some conv →
     Forall (λ m, role m = "user" ∨ role m = "assistant") (messages conv)) →
  ∀ u conv, conversations (run_calls calls mem w history).1.1 !! u = Some conv →
    Forall (λ m, role m = "user" ∨ role m = "assistant") (messages conv).
Proof.
  revert mem w history. induction calls as [|c calls IH]; intros mem w history Hinv;
    [done|].
  simpl. destruct (run_call c mem w) as [mem1 w1] eqn:Hc.
  rewrite run_call_eq in Hc.
  apply add_message_as_spec in Hc
    as (conv0 & mem0 & w0 & Hget & _ & _ & Hother & conv' & Hlook' & _ & Hmsgs).
  apply IH. intros u conv Hlook.
  destruct (decide (u = call_user c)) as [->|Hne]; [|rewrite (Hother u) in Hlook by done; eauto].
  rewrite Hlook' in Hlook. injection Hlook as <-. rewrite Hmsgs.
  apply Forall_bfilter.
  assert (Forall (λ m, role m = "user" ∨ role m = "assistant") (messages conv0)) as Hold.
  { apply get_or_create_lookup in Hget as (_ & _ & _ & [[Hold _]|(_ & _ & -> & _)]);
      [by eapply Hinv|constructor]. }
  assert (Forall (λ m, role m = "user" ∨ role m = "assistant")
            (messages conv0 ++
               [{| role := call_role c; content := call_message c;
                   timestamp := (time_time w0).1; user_id := conv_user_id conv0 |}]))
    as Happ.
  { apply Forall_app. split; [done|]. constructor; [|constructor]. simpl. destruct c; auto. }
  destruct (_ <? _)%Z; [|done].
  eapply Forall_suffix; [apply py_last_suffix|done].
Qed.

Lemma role_counts (l : list Message) :
  Forall (λ m, role m = "user" ∨ role m = "assistant") l →
  length (List.filter (λ msg, bool_decide (role msg = "user")) l)
  + length (List.filter (λ msg, bool_decide (role msg = "assistant")) l)
  = length l.
Proof.
  induction 1 as [|m l [Hm|Hm] _ IH]; simpl; [done|..]; rewrite Hm; simpl; lia.
Qed.

(** X16. After any sequence of writes to a memory whose messages are from
    the user or the assistant, the report of the analysis adds up: the two
    counts by role sum to the total, which is the number of stored messages;
    there is at least one topic, there are exactly five insights, and the
    recent messages are the last five, or all when there are fewer.  Without
    a report, nothing is stored for the user. *)
Theorem analyze_conversation_counts (calls : list Call) mem w (uid : string) :
  (∀ u conv, conversations mem !! u = Some conv →
     Forall (λ m, role m = "user" ∨ role m = "assistant") (messages conv)) →
  let mem' := (run_calls calls mem w []).1.1 in
  match Memory.analyze_conversation uid mem' with
  | NoHistory _ => stored_messages uid mem' = []
  | Report summary topics _ insights _ recent =>
      total_messages summary = length (stored_messages uid mem') ∧
      user_messages summary + assistant_messages summary = total_messages summary ∧
      topics ≠ [] ∧
      length insights = 5 ∧
      length recent = 5 `min` total_messages summary
  end.
Proof.
  intros Hinv mem'.
  pose proof (run_calls_roles calls mem w [] Hinv uid) as Hroles. fold mem' in Hroles.
  unfold Memory.analyze_conversation, stored_messages.
  destruct (conversations mem' !! uid) as [conv|]; [|done].
  specialize (Hroles conv eq_refl).
  destruct (messages conv) as [|m l] eqn:Hm; [done|]. rewrite <- Hm.
  cbn [total_messages user_messages assistant_messages].
  split; [done|]. split; [apply role_counts; by rewrite Hm|]. split.
  { unfold Memory._extract_topics_from_messages. by destruct (fst <$> _). }
  split.
  { unfold Memory._generate_insights. rewrite !length_app. rewrite Hm.
    destruct (last (m :: l)) eqn:Hlast; [done|].
    by apply last_None in Hlast. }
  rewrite length_fmap. unfold Memory.get_recent_messages. rewrite Hm.
  unfold py_last. change (0 <? 5)%Z with true. cbv iota.
  rewrite length_drop. change (Z.to_nat 5) with 5. lia.
Qed.

End AnalysisCountFacts.

(** ** Lengths and blanks of strings *)

Section PyLengthFacts.

Lemma len_app (s t : string) : Py.len (s +:+ t) = Py.len s + Py.len t.
Proof.
  induction s as [|c s IH]; simpl; [done|].
  rewrite IH. by destruct (Py.is_continuation c).
Qed.

Lemma len_take (n : nat) (s : string) : Py.len (Py.take n s) ≤ n.
Proof.
  revert n. induction s as [|c s IH]; intros n; simpl; [lia|].
  destruct (Py.is_continuation c) eqn:Hc; simpl; rewrite ?Hc; [done|].
  destruct n as [|n]; simpl; [lia|]. rewrite Hc. specialize (IH n). lia.
Qed.

Lemma len_lstrip (s : string) : Py.len (Py.lstrip s) ≤ Py.len s.
Proof.
  induction s as [|c s IH]; simpl; [done|].
  destruct (Py.is_space c); simpl; destruct (Py.is_continuation c); lia.
Qed.

Lemma len_rstrip (s : string) : Py.len (Py.rstrip s) ≤ Py.len s.
Proof.
  induction s as [|c s IH]; simpl; [done|].
  destruct (Py.rstrip s) as [|c' s'].
  - destruct (Py.is_space c); simpl; destruct (Py.is_continuation c); lia.
  - change (Py.len (String c (String c' s')))
      with (if Py.is_continuation c then Py.len (String c' s')
            else S (Py.len (String c' s'))).
    destruct (Py.is_continuation c); lia.
Qed.

Lemma len_strip (s : string) : Py.len (Py.strip s) ≤ Py.len s.
Proof. unfold Py.strip. etrans; [apply len_rstrip|apply len_lstrip]. Qed.

(** A text whose first character is not a space is not blank. *)
Lemma strip_head_not_blank (c : Ascii.ascii) (s : string) :
  Py.is_space c = false → Py.strip (String c s) ≠ "".
Proof.
  intros Hc. unfold Py.strip. simpl. rewrite Hc. simpl. rewrite Hc.
  by destruct (Py.rstrip s).
Qed.

End PyLengthFacts.

(** ** Replies of the agent *)

Section ReplyFacts.
Context {World : Type} `{!Env World}.
Import IntelligentAgent.

(** X17. A formatted answer fits the message limit with room to spare: it
    has at most [MAX_MESSAGE_LENGTH - 95] characters, whatever the length of
    the text, and it holds one of the seven emojis. *)
Theorem format_response_fits (response : string) :
  Py.len (_format_response response) ≤ MAX_MESSAGE_LENGTH - 95 ∧
  existsb (λ emoji, Py.contains emoji (_format_response response)) friendly_emojis
    = true.
Proof.
  split; [|apply format_response_has_emoji].
  unfold _format_response.
  set (cut := if _ <? _ then _ else _).
  assert (Py.len cut ≤ MAX_MESSAGE_LENGTH - 97) as Hcut.
  { unfold cut. destruct (_ <? _) eqn:Hlong.
    - rewrite len_app. pose proof (len_take (MAX_MESSAGE_LENGTH - 100) response).
      change (Py.len "...") with 3. unfold MAX_MESSAGE_LENGTH in *. lia.
    - apply Nat.ltb_ge in Hlong. unfold MAX_MESSAGE_LENGTH in *. lia. }
  pose proof (len_strip cut) as Hstrip.
  destruct (existsb _ _); [unfold MAX_MESSAGE_LENGTH in *; lia|].
  rewrite len_app. change (Py.len " 😊") with 2.
  unfold MAX_MESSAGE_LENGTH in *. lia.
Qed.

Lemma quota_response_not_blank (query : string) :
  Py.strip (_format_general_quota_exceeded_response query) ≠ "".
Proof. by apply strip_head_not_blank. Qed.

Lemma general_query_failed_not_blank (query : string) (e : Exn) :
  Py.strip (general_query_failed query e) ≠ "".
Proof.
  unfold general_query_failed. destruct (is_quota_error e);
    [apply quota_response_not_blank|by apply strip_head_not_blank].
Qed.

Lemma handle_general_query_not_blank query uid (a : Agent) (w : World) :
  Py.strip (_handle_general_query query uid a w).1.1 ≠ "".
Proof.
  unfold _handle_general_query.
  destruct (negb (can_make_request (quota_monitor a))); [apply quota_response_not_blank|].
  destruct (match truthy uid with Some _ => _ | None => _ end) as [[ctx a1] w1].
  destruct (generate_content _ w1) as [[[text|e]|e] w2]; simpl;
    [|apply general_query_failed_not_blank..].
  destruct (bool_decide (text = "")); simpl; [by apply strip_head_not_blank|].
  destruct (bool_decide (Py.strip (_format_response text) = "")) eqn:Hblank; simpl;
    [by apply strip_head_not_blank|].
  apply bool_decide_eq_false in Hblank.
  destruct (negb _); simpl; [done|by apply strip_head_not_blank].
Qed.

(** X18. [process_message] never returns a blank reply, whatever the message
    and whatever the handling path does (return a text, return nothing or
    raise). *)
Theorem process_message_never_blank (handle : Handler) (user_message : string)
    (uid : option string) (a : Agent) (w : World) :
  Py.strip (process_message handle user_message uid a w).1.1 ≠ "".
Proof.
  unfold process_message.
  destruct (if (50 <? _)%Z then _ else _) as [a1 w1].
  destruct (bool_decide (Py.strip user_message = "")); simpl;
    [by apply strip_head_not_blank|].
  destruct (match truthy uid with Some _ => _ | None => _ end) as [a2 w2].
  destruct (handle _ uid a2 w2) as [[[result|e] a3] w3]; simpl;
    [|by apply strip_head_not_blank].
  destruct (bool_decide (Py.strip result = "")) eqn:Hblank; simpl;
    [by apply strip_head_not_blank|].
  apply bool_decide_eq_false in Hblank.
  destruct (bool_decide (Py.lower _ = _)); [apply handle_general_query_not_blank|].
  destruct (truthy uid) as [u|]; [|done].
  by destruct (Memory.add_assistant_message u result _ w3).
Qed.

End ReplyFacts.

(** ** Counters of the agent *)

Section CounterFacts.
Context {World : Type} `{!Env World}.
Import IntelligentAgent.

Lemma reset_state_fields (a : Agent) (w : World) :
  conversation_memory (_reset_state a w).1 = conversation_memory a ∧
  quota_monitor (_reset_state a w).1 = quota_monitor a ∧
  message_count (_reset_state a w).1 = message_count a.
Proof. unfold _reset_state. by destruct (new_model w) as [[[]|e] w1]. Qed.

(** X19. A blank message (empty or only spaces) is counted and answered with
    the fixed request, and nothing else happens to the agent: the memory and
    the quota are as before, and the handling path has no part in the
    outcome. *)
Theorem process_message_blank (handle handle' : Handler) (user_message : string)
    (uid : option string) (a : Agent) (w : World) :
  Py.strip user_message = "" →
  let '(reply, a', _) := process_message handle user_message uid a w in
  reply = no_message_reply ∧
  message_count a' = (message_count a + 1)%Z ∧
  conversation_memory a' = conversation_memory a ∧
  quota_monitor a' = quota_monitor a ∧
  process_message handle' user_message uid a w
    = process_message handle user_message uid a w.
Proof.
  intros Hblank. unfold process_message. rewrite Hblank.
  rewrite (bool_decide_true _ eq_refl).
  destruct (50 <? _)%Z; [|done].
  match goal with |- context [_reset_state ?a0 w] =>
    pose proof (reset_state_fields a0 w) as (Hmem & Hquota & Hcount);
    destruct (_reset_state a0 w) as [a1 w1] end.
  done.
Qed.

Lemma iter_increment_request (n : nat) (q : QuotaMonitor) :
  let q' := Nat.iter n increment_request q in
  requests_made q' = (requests_made q + Z.of_nat n)%Z ∧
  quota_limit q' = quota_limit q ∧
  quota_exceeded q' =
    quota_exceeded q
    || negb (bool_decide (n = 0)) && (quota_limit q <=? requests_made q + Z.of_nat n)%Z.
Proof.
  cbv zeta. induction n as [|n (Hmade & Hlimit & Hflag)].
  - simpl. split; [lia|]. split; [done|]. by rewrite orb_false_r.
  - rewrite Nat.iter_succ. unfold increment_request at 1 3 5.
    cbn [requests_made quota_limit quota_exceeded].
    rewrite Hmade, Hlimit, Hflag. split; [lia|]. split; [done|].
    rewrite (bool_decide_false (S n = 0)) by done.
    replace (requests_made q + Z.of_nat n + 1)%Z
      with (requests_made q + Z.of_nat (S n))%Z by lia.
    destruct (Z.leb_spec (quota_limit q) (requests_made q + Z.of_nat (S n)))
      as [Hle|Hgt].
    + by rewrite orb_true_r.
    + rewrite orb_false_r. destruct (quota_exceeded q); [done|]. simpl.
      destruct (bool_decide (n = 0)); simpl; [done|].
      apply Z.leb_gt. lia.
Qed.

(** X20. The quota monitor after [n] counted requests: requests are allowed
    exactly when they were allowed before and either nothing was counted or
    the count is still below the limit.  The flag is only raised by counting:
    a monitor already at its limit allows requests until the next one is
    counted, and once raised the flag stays. *)
Theorem quota_after_requests (n : nat) (q : QuotaMonitor) :
  let q' := Nat.iter n increment_request q in
  requests_made q' = (requests_made q + Z.of_nat n)%Z ∧
  can_make_request q' =
    can_make_request q
    && (bool_decide (n = 0) || (requests_made q + Z.of_nat n <? quota_limit q)%Z).
Proof.
  destruct (iter_increment_request n q) as (Hmade & _ & Hflag).
  split; [done|]. unfold can_make_request. rewrite Hflag.
  destruct (quota_exceeded q); simpl; [done|].
  destruct (bool_decide (n = 0)); simpl; [done|].
  rewrite Z.ltb_antisym. done.
Qed.

(** X21. When the handling path leaves the two counters alone and the model
    can be rebuilt, the agent is never more than fifty messages past its
    last reset: [process_message] counts the message and keeps the bound. *)
Theorem process_message_reset_bound (handle : Handler) (user_message : string)
    (uid : option string) (a : Agent) (w : World) :
  (∀ q u a0 w0,
     message_count (handle q u a0 w0).1.2 = message_count a0 ∧
     last_reset (handle q u a0 w0).1.2 = last_reset a0) →
  (∀ w0, (new_model w0).1 = Returned ()) →
  (message_count a - last_reset a ≤ 50)%Z →
  let a' := (process_message handle user_message uid a w).1.2 in
  message_count a' = (message_count a + 1)%Z ∧
  (message_count a' - last_reset a' ≤ 50)%Z.
Proof.
  intros Hhandle Hmodel Hbound. unfold process_message.
  set (a0 := {| conversation_memory := conversation_memory a;
                quota_monitor := quota_monitor a;
                message_count := (message_count a + 1)%Z;
                last_reset := last_reset a;
                system_prompt := system_prompt a |}).
  assert (∃ a1 w1,
    (if (50 <? message_count a0 - last_reset a0)%Z then _reset_state a0 w else (a0, w))
      = (a1, w1) ∧
    message_count a1 = (message_count a + 1)%Z ∧
    (message_count a1 - last_reset a1 ≤ 50)%Z) as (a1 & w1 & -> & Hcount & Hreset).
  { destruct (50 <? _)%Z eqn:Hlt.
    - unfold _reset_state. specialize (Hmodel w).
      destruct (new_model w) as [[[]|e] w1]; [|done].
      eexists _, _. split; [done|]. simpl. lia.
    - apply Z.ltb_ge in Hlt. by exists a0, w. }
  assert (∀ q u (b : Agent) w0,
    message_count (_handle_general_query q u b w0).1.2 = message_count b ∧
    last_reset (_handle_general_query q u b w0).1.2 = last_reset b) as Hgeneral.
  { intros q u b w0. unfold _handle_general_query.
    destruct (negb (can_make_request (quota_monitor b))); [done|].
    destruct (truthy u) as [u'|].
    - destruct (Memory.get_conversation_context u' 8 _ w0) as [[ctx mem1] w1'].
      destruct (generate_content _ w1') as [[[text|e]|e] w2]; simpl; [|done..].
      destruct (bool_decide (text = "")); [done|]. by destruct (_ && _).
    - destruct (generate_content _ w0) as [[[text|e]|e] w2]; simpl; [|done..].
      destruct (bool_decide (text = "")); [done|]. by destruct (_ && _). }
  destruct (bool_decide (Py.strip user_message = "")); [done|].
  assert (∃ a2 w2,
    match truthy uid with
    | Some u =>
        let '(mem, w2) :=
          Memory.add_user_message u (Py.strip user_message) (conversation_memory a1) w1 in
        (set_memory a1 mem, w2)
    | None => (a1, w1)
    end = (a2, w2) ∧
    message_count a2 = message_count a1 ∧ last_reset a2 = last_reset a1)
    as (a2 & w2 & -> & Hc2 & Hr2).
  { destruct (truthy uid) as [u|]; [|by exists a1, w1].
    destruct (Memory.add_user_message u _ _ w1) as [mem w2]. by eexists _, _. }
  destruct (Hhandle (Py.strip user_message) uid a2 w2) as [Hc3 Hr3].
  destruct (handle _ uid a2 w2) as [[[result|e] a3] w3]; simpl in *; [|lia].
  destruct (bool_decide (Py.strip result = "")); simpl; [lia|].
  destruct (bool_decide (Py.lower _ = _)).
  { destruct (Hgeneral ("Please help me understand: " +:+ Py.strip user_message)
                uid a3 w3) as [-> ->]. lia. }
  destruct (truthy uid) as [u|]; simpl; [|lia].
  destruct (Memory.add_assistant_message u result _ w3). simpl. lia.
Qed.

End CounterFacts.

(** ** The keys of the results *)

Section ResultKeyFacts.
Context {World : Type} `{!Env World}.
Import WorkflowManager.
Implicit Types (tools : list (BaseTool World)) (st : ExecState World).

Lemma store_result_key s v (m : gmap string PyVal) k :
  is_Some (store_result s v m !! k) →
  is_Some (m !! k) ∨ k = step_id s ∨ output_variable s = Some k.
Proof.
  unfold store_result.
  assert (is_Some (<[step_id s := v]> m !! k) → is_Some (m !! k) ∨ k = step_id s) as Hins.
  { destruct (decide (step_id s = k)) as [->|Hne]; [by right|].
    rewrite lookup_insert_ne by done. by left. }
  destruct (output_variable s) as [ov|]; [|intros []%Hins; auto].
  destruct (bool_decide (ov = "")); [intros []%Hins; auto|].
  destruct (decide (ov = k)) as [->|Hne]; [auto|].
  rewrite lookup_insert_ne by done. intros []%Hins; auto.
Qed.

Lemma store_result_size s v (m : gmap string PyVal) :
  size (store_result s v m) ≤ size m + 2.
Proof.
  unfold store_result.
  assert (∀ k (m' : gmap string PyVal), size (<[k := v]> m') ≤ S (size m')) as Hins.
  { intros k m'. rewrite map_size_insert. destruct (m' !! k); simpl; lia. }
  pose proof (Hins (step_id s) m).
  destruct (output_variable s) as [ov|]; [|lia].
  destruct (bool_decide (ov = "")); [lia|].
  pose proof (Hins ov (<[step_id s := v]> m)). lia.
Qed.

Lemma sublist_step_ids (l k : list WorkflowStep) :
  l `sublist_of` k → (step_id <$> l) `sublist_of` (step_id <$> k).
Proof.
  induction 1; simpl; [constructor|by apply sublist_skip|by apply sublist_cons].
Qed.

Lemma run_steps_keys tools st l k :
  is_Some (st_results (run_steps tools st l) !! k) →
  is_Some (st_results st !! k) ∨
  ∃ s, s ∈ l ∧ (k = step_id s ∨ output_variable s = Some k).
Proof.
  revert st. induction l as [|s l IH]; intros st; [by left|].
  rewrite run_steps_cons. intros [Hk|(s' & Hs' & Hk)]%IH.
  - destruct (run_step_cases tools st s)
      as [(?&?&_&Hr&_)|[(?&?&_&_&Hr&_)|(?&?&_&_&Hr&_)]]; rewrite Hr in Hk;
      [by left| |by left].
    apply store_result_key in Hk as [?|Hk]; [by left|].
    right. exists s. split; [left|done].
  - right. exists s'. split; [by right|done].
Qed.

Lemma run_steps_size tools st l :
  size (st_results (run_steps tools st l)) + 2 * st_completed st
  ≤ size (st_results st) + 2 * st_completed (run_steps tools st l).
Proof.
  revert st. induction l as [|s l IH]; intros st; [simpl; lia|].
  rewrite run_steps_cons. specialize (IH (run_step tools st s)).
  destruct (run_step_cases tools st s)
    as [(?&?&_&Hr&_&Hc&_)|[(v&?&_&_&Hr&_&Hc&_)|(?&?&_&_&Hr&_&Hc&_)]];
    rewrite Hr, Hc in IH; [lia| |lia].
  pose proof (store_result_size s v (st_results st)). lia.
Qed.

Lemma run_steps_completed_keys tools st l :
  ∃ finished,
    finished `sublist_of` l ∧
    st_completed (run_steps tools st l) = st_completed st + length finished ∧
    ∀ s, s ∈ finished → is_Some (st_results (run_steps tools st l) !! step_id s).
Proof.
  revert st. induction l as [|s l IH]; intros st.
  - exists []. split; [done|]. split; [simpl; lia|].
    intros s Hs. by apply elem_of_nil in Hs.
  - rewrite run_steps_cons.
    destruct (IH (run_step tools st s)) as (finished & Hsub & Hcount & Hkeys).
    destruct (run_step_cases tools st s)
      as [(?&?&_&_&_&Hc&_)|[(v&?&_&_&Hr&_&Hc&_)|(?&?&_&_&_&_&Hc&_)]].
    + exists finished. split; [by apply sublist_cons|]. split; [lia|done].
    + exists (s :: finished). split; [by apply sublist_skip|]. split; [simpl; lia|].
      intros s' [->|Hs']%elem_of_cons; [|by apply Hkeys].
      apply run_steps_keeps_keys. rewrite Hr. apply store_result_is_Some. by right.
    + exists finished. split; [by apply sublist_cons|]. split; [lia|done].
Qed.

(** X22. Nothing is written to [results] but the outcome of a step, under
    its id or its output variable: every key of the results comes from a
    step of the workflow, and there are at most two keys per completed
    step. *)
Theorem execute_workflow_results_keys tools (steps : list WorkflowStep) (w0 : World) :
  ∃ r log w',
    execute_workflow tools steps w0 = Some (Returned r, log, w') ∧
    (∀ k, is_Some (results r !! k) →
       ∃ s, s ∈ steps ∧ (k = step_id s ∨ output_variable s = Some k)) ∧
    size (results r) ≤ 2 * steps_completed r.
Proof.
  destruct (sort_steps_returns steps) as (log0 & order & Hsort & Hperm).
  unfold execute_workflow. rewrite Hsort.
  destruct (time_time w0) as [start_time w1].
  destruct (_generate_workflow_summary _ _ _ _) as [[summary log1] w2].
  destruct (time_time w2) as [end_time w3].
  eexists _, _, _. split; [done|]. simpl. split.
  - intros k [Hk|(s & Hs & Hk)]%run_steps_keys.
    + simpl in Hk. rewrite lookup_empty in Hk. by destruct Hk.
    + exists s. split; [by rewrite <- Hperm|done].
  - pose proof (run_steps_size tools (init_state w1) order) as Hsize.
    simpl in Hsize. rewrite map_size_empty in Hsize. lia.
Qed.

(** X23. When the ids of the steps are pairwise distinct, every completed
    step has a key of its own in [results]: the number of keys, which the
    templated summary reports as the number of completed steps, is at least
    [steps_completed]. *)
Theorem execute_workflow_completed_keys tools (steps : list WorkflowStep) (w0 : World) :
  NoDup (step_id <$> steps) →
  ∃ r log w',
    execute_workflow tools steps w0 = Some (Returned r, log, w') ∧
    steps_completed r ≤ size (results r).
Proof.
  intros Hnd.
  destruct (sort_steps_returns steps) as (log0 & order & Hsort & Hperm).
  unfold execute_workflow. rewrite Hsort.
  destruct (time_time w0) as [start_time w1].
  destruct (_generate_workflow_summary _ _ _ _) as [[summary log1] w2].
  destruct (time_time w2) as [end_time w3].
  eexists _, _, _. split; [done|]. simpl.
  destruct (run_steps_completed_keys tools (init_state w1) order)
    as (finished & Hsub & -> & Hkeys).
  simpl.
  assert (NoDup (step_id <$> finished)) as Hfin.
  { eapply sublist_NoDup; [|by apply sublist_step_ids]. by rewrite Hperm. }
  rewrite <- (length_fmap step_id), <- (size_list_to_set (C := gset string)) by done.
  rewrite <- (size_dom (D := gset string)). apply subseteq_size.
  intros k (s & -> & Hs)%elem_of_list_to_set%list_elem_of_fmap.
  apply elem_of_dom. by apply Hkeys.
Qed.

End ResultKeyFacts.

(** ** Suggestions of tools *)

Section SuggestionFacts.
Context {World : Type}.
Import ToolManager.
Implicit Types (tools : list (BaseTool World)).

Lemma get_tool_suggestions_returns tools (query : string) suggestions :
  get_tool_suggestions tools query = Returned suggestions →
  suggestions =
    (λ t, name t +:+ ": " +:+ get_description t)
      <$> List.filter (λ t, match can_handle t query with
                             | Returned true => true
                             | _ => false
                             end) tools ∧
  needs_tool tools query = Returned (bool_decide (suggestions ≠ [])).
Proof.
  revert suggestions. induction tools as [|t tools IH]; intros suggestions; simpl.
  - by intros [= <-].
  - destruct (can_handle t query) as [b|e]; [|done].
    destruct (get_tool_suggestions tools query) as [l|e]; [|done].
    destruct (IH l eq_refl) as [Hl Hneeds].
    intros [= <-]. destruct b; simpl; [|done].
    split; [by rewrite Hl|done].
Qed.

(** X24. [get_tool_suggestions] gives one line, [name: description], per
    tool that claims the query, in registration order.  It returns the empty
    list exactly when [needs_tool] answers [False], and when it returns,
    [needs_tool] answers whether there is a suggestion. *)
Theorem tool_suggestions_needs_tool tools (query : string) :
  (needs_tool tools query = Returned false
   ↔ get_tool_suggestions tools query = Returned []) ∧
  ∀ suggestions,
    get_tool_suggestions tools query = Returned suggestions →
    suggestions =
      (λ t, name t +:+ ": " +:+ get_description t)
        <$> List.filter (λ t, match can_handle t query with
                             | Returned true => true
                             | _ => false
                             end) tools ∧
    needs_tool tools query = Returned (bool_decide (suggestions ≠ [])).
Proof.
  split; [|apply get_tool_suggestions_returns]. split.
  - induction tools as [|t tools IH]; simpl; [done|].
    destruct (can_handle t query) as [[|]|e]; [done| |done].
    intros Hrest. by rewrite (IH Hrest).
  - intros Hnone. by apply get_tool_suggestions_returns in Hnone as [_ ->].
Qed.

End SuggestionFacts.

(** ** Detecting and creating a workflow *)

Section PlannerFacts.
Context {World : Type} `{!Env World} `{!Regex}.
Import WorkflowPlanner.

Lemma prefix_append (a r : string) : String.prefix a (a +:+ r) = true.
Proof.
  induction a as [|c a IH]; simpl; [by destruct r|].
  by destruct (Ascii.ascii_dec c c).
Qed.

Lemma drop_append (a r : string) : Py.drop (String.length a) (a +:+ r) = r.
Proof. induction a as [|c a IH]; simpl; [by destruct r|done]. Qed.

Lemma re_search_append (parts : list string) (pre s : string) :
  re_search parts s = true → re_search parts (pre +:+ s) = true.
Proof.
  intros Hs. induction pre as [|c pre IH]; simpl; [done|].
  rewrite IH. apply orb_true_r.
Qed.

Lemma dot_star_append (rest : string → bool) (mid s : string) :
  Py.contains Py.nl mid = false → rest s = true → dot_star rest (mid +:+ s) = true.
Proof.
  intros Hmid Hs. induction mid as [|c mid IH]; simpl.
  - destruct s; simpl; by rewrite Hs.
  - simpl in Hmid. apply orb_false_iff in Hmid as [Hc Hmid].
    rewrite (IH Hmid), andb_true_r.
    destruct (Ascii.ascii_dec (Ascii.ascii_of_nat 10) c) as [<-|Hne]; [by destruct mid|].
    rewrite bool_decide_false by done. apply orb_true_r.
Qed.

(** A trigger [a.*b] is found in a text that holds [a] and, later on the
    same line, [b]. *)
Lemma re_search_two (a b pre mid post : string) :
  Py.contains Py.nl mid = false →
  re_search [a; b] (pre +:+ a +:+ mid +:+ b +:+ post) = true.
Proof.
  intros Hmid. apply re_search_append.
  assert (match_parts [a; b] (a +:+ mid +:+ b +:+ post) = true) as Hmatch.
  { cbn [match_parts]. rewrite prefix_append, drop_append. simpl.
    apply dot_star_append; [done|]. by rewrite prefix_append. }
  destruct (a +:+ mid +:+ b +:+ post); cbn [re_search]; by rewrite Hmatch.
Qed.

(** X25. A query whose text, in lower case, holds "weather" and, later on
    the same line, "email" is taken for the weather-and-e-mail workflow, and
    the model is not asked. *)
Theorem detect_weather_email (query pre mid post : string) (w : World) :
  Py.lower query = pre +:+ "weather" +:+ mid +:+ "email" +:+ post →
  Py.contains Py.nl mid = false →
  detect_workflow_intent query w = (Some "weather_email", [], w).
Proof.
  intros Hquery Hmid. unfold detect_workflow_intent, triggered, workflow_patterns.
  rewrite Hquery. cbn [List.find snd existsb].
  by rewrite (re_search_two "weather" "email" pre mid post Hmid).
Qed.

(** Two steps, the second waiting for the first, are run as written. *)
Lemma sort_two_step_chain (a b : WorkflowStep) :
  depends_on a = None → depends_on b = Some [step_id a] →
  WorkflowManager._sort_steps_by_dependencies [a; b] = Some ([], Returned [a; b]).
Proof.
  intros Ha Hb. unfold WorkflowManager._sort_steps_by_dependencies. cbn [length].
  assert (∀ sorted, WorkflowManager.is_ready sorted a = true) as Hra.
  { intros sorted. unfold WorkflowManager.is_ready. by rewrite Ha. }
  assert (WorkflowManager.is_ready [] b = false) as Hrb0.
  { unfold WorkflowManager.is_ready. by rewrite Hb. }
  assert (WorkflowManager.is_ready [a] b = true) as Hrb1.
  { unfold WorkflowManager.is_ready. rewrite Hb. simpl.
    rewrite bool_decide_true; [done|]. left. }
  rewrite sort_loop_step. cbn [List.filter]. rewrite Hra, Hrb0. cbn [negb app].
  rewrite sort_loop_step. cbn [List.filter]. by rewrite Hrb1.
Qed.

Lemma triggered_name (query_lower workflow_name : string) :
  triggered query_lower = Some workflow_name → workflow_name ∈ workflow_patterns.*1.
Proof.
  unfold triggered.
  destruct (List.find _ workflow_patterns) as [pattern|] eqn:Hfind; [|done].
  intros [= <-]. apply List.find_some in Hfind as [Hin _].
  apply list_elem_of_fmap_2. by apply list_elem_of_In.
Qed.

Lemma detect_workflow_intent_name (query : string) (w : World) workflow_name log w' :
  detect_workflow_intent query w = (Some workflow_name, log, w') →
  workflow_name ∈ workflow_patterns.*1.
Proof.
  unfold detect_workflow_intent.
  destruct (triggered (Py.lower query)) as [found|] eqn:Hfound.
  - intros [= <- _ _]. by apply triggered_name in Hfound.
  - unfold _ai_workflow_detection.
    destruct (generate_content _ w) as [[[text|e]|e] w1]; [|done..].
    destruct (bool_decide (text = "")); [done|].
    destruct (bool_decide (_ ∈ _)) eqn:Hin; [|done].
    apply bool_decide_eq_true in Hin. by intros [= <- _ _].
Qed.

(** X26. For every type that [detect_workflow_intent] can return,
    [create_workflow] asks nothing of the model and logs nothing: it gives
    one of the two fixed plans of two steps, which is run in the order
    written, or it raises [AttributeError], the method named for the types
    [data_analysis_report] and [meeting_prep] being defined nowhere.  The
    plan made by the model is never reached this way. *)
Theorem detected_workflow_created (query : string) (w : World) workflow_name log w' :
  detect_workflow_intent query w = (Some workflow_name, log, w') →
  workflow_name ∈
    ["weather_email"; "research_update"; "data_analysis_report"; "meeting_prep"] ∧
  ∃ outcome,
    create_workflow workflow_name query w' = (outcome, [], w') ∧
    match outcome with
    | Returned steps =>
        (workflow_name = "weather_email" ∨ workflow_name = "research_update") ∧
        length steps = 2 ∧
        WorkflowManager._sort_steps_by_dependencies steps = Some ([], Returned steps)
    | Raised e =>
        (workflow_name = "data_analysis_report" ∨ workflow_name = "meeting_prep") ∧
        exn_class e = "AttributeError"
    end.
Proof.
  intros Hname%detect_workflow_intent_name. split; [done|].
  unfold workflow_patterns in Hname. cbn [fmap list_fmap fst] in Hname.
  repeat (apply elem_of_cons in Hname as [->|Hname]);
    [..|by apply elem_of_nil in Hname]; eexists; (split; [reflexivity|]);
    cbv beta iota.
  - split; [by left|]. split; [reflexivity|]. by apply sort_two_step_chain.
  - split; [by right|]. split; [reflexivity|]. by apply sort_two_step_chain.
  - split; [by left|reflexivity].
  - split; [by right|reflexivity].
Qed.

Lemma parse_ai_workflow_distinct (response original_query : string) :
  (WorkflowManager._parse_ai_workflow_response response original_query).1 ≠ [] ∧
  NoDup (step_id <$> (WorkflowManager._parse_ai_workflow_response response original_query).1).
Proof.
  unfold WorkflowManager._parse_ai_workflow_response.
  set (lines := Py.split_char _ _).
  pose proof (parse_lines_NoDup 0 lines original_query) as Hnd.
  destruct (WorkflowManager.parse_lines 0 lines original_query) as [[|s0 steps] log];
    simpl in *; [|done].
  split; [done|apply NoDup_singleton].
Qed.

(** X27. Whatever the type asked for and whatever the model answers, a plan
    returned by [create_workflow] is not empty and its step ids are pairwise
    distinct; [create_workflow] raises for the two types without a method
    and for nothing else. *)
Theorem create_workflow_never_empty (workflow_type query : string) (w : World) :
  match (create_workflow workflow_type query w).1.1 with
  | Returned steps => steps ≠ [] ∧ NoDup (step_id <$> steps)
  | Raised e =>
      exn_class e = "AttributeError" ∧
      (workflow_type = "data_analysis_report" ∨ workflow_type = "meeting_prep")
  end.
Proof.
  unfold create_workflow.
  destruct (bool_decide (workflow_type = "weather_email")).
  { split; [done|]. cbn. apply NoDup_cons. split; [|apply NoDup_singleton].
    by intros [=]%list_elem_of_singleton. }
  destruct (bool_decide (workflow_type = "research_update")).
  { split; [done|]. cbn. apply NoDup_cons. split; [|apply NoDup_singleton].
    by intros [=]%list_elem_of_singleton. }
  destruct (bool_decide (workflow_type = "data_analysis_report")) eqn:Hdata.
  { apply bool_decide_eq_true in Hdata. split; [done|by left]. }
  destruct (bool_decide (workflow_type = "meeting_prep")) eqn:Hmeeting.
  { apply bool_decide_eq_true in Hmeeting. split; [done|by right]. }
  unfold _create_custom_workflow.
  destruct (generate_content _ w) as [[[text|e]|e] w1]; simpl;
    [|split; [done|apply NoDup_singleton]..].
  destruct (bool_decide (text = "")); simpl; [split; [done|apply NoDup_singleton]|].
  pose proof (parse_ai_workflow_distinct text query) as Hplan.
  by destruct (WorkflowManager._parse_ai_workflow_response text query) as [steps log].
Qed.

End PlannerFacts.

(** ** Dropping old and excess conversations *)

Section CleanupFacts.
Context {World : Type} `{!Env World}.
Import MemoryCleanup.
Implicit Types (m : gmap string Conversation) (keys : list string).
Implicit Types (items : list (string * Conversation)).

Lemma delete_all_lookup_Some (ks : list string) m (u : string) conv :
  delete_all ks m !! u = Some conv ↔ m !! u = Some conv ∧ u ∉ ks.
Proof.
  unfold delete_all. revert m. induction ks as [|k ks IH]; intros m; simpl.
  - split; [intros ?; split; [done|apply not_elem_of_nil]|by intros [? _]].
  - rewrite IH, not_elem_of_cons. destruct (decide (u = k)) as [->|Hne].
    + rewrite lookup_delete_eq. split; [by intros [? _]|by intros [_ [? _]]].
    + rewrite lookup_delete_ne by done. split; [by intros [? ?]|by intros [? [_ ?]]].
Qed.

Lemma delete_all_size (ks : list string) m :
  NoDup ks → (∀ u, u ∈ ks → is_Some (m !! u)) →
  size (delete_all ks m) + length ks = size m.
Proof.
  unfold delete_all. revert m. induction ks as [|k ks IH]; intros m Hnd Hin; simpl.
  - lia.
  - apply NoDup_cons in Hnd as [Hk Hnd].
    specialize (IH (delete k m) Hnd).
    rewrite map_size_delete_Some in IH by (apply Hin; left).
    assert (size m ≠ 0) as Hsize.
    { intros Hzero%map_size_empty_iff. destruct (Hin k) as [c Hc]; [left|].
      by rewrite Hzero, lookup_empty in Hc. }
    enough (size (foldl (λ m0 user_id, delete user_id m0) (delete k m) ks)
            + length ks = Init.Nat.pred (size m)) by lia.
    apply IH. intros u Hu. rewrite lookup_delete_ne; [apply Hin; by right|].
    by intros ->.
Qed.

Lemma elem_of_items_of keys m (u : string) conv :
  (u, conv) ∈ items_of keys m ↔ u ∈ keys ∧ m !! u = Some conv.
Proof.
  unfold items_of. rewrite list_elem_of_omap. split.
  - intros (k & Hk & Hlook). destruct (m !! k) as [c|] eqn:Hc; [|done].
    by injection Hlook as -> ->.
  - intros [Hu Hlook]. exists u. split; [done|]. by rewrite Hlook.
Qed.

Lemma items_of_keys keys m : (items_of keys m).*1 `sublist_of` keys.
Proof.
  unfold items_of. induction keys as [|k keys IH]; simpl; [done|].
  destruct (m !! k); simpl; [by apply sublist_skip|by apply sublist_cons].
Qed.

Lemma items_of_length keys m :
  NoDup keys → (∀ u, is_Some (m !! u) → u ∈ keys) →
  length (items_of keys m) = size m.
Proof.
  intros Hnd Hdom.
  rewrite <- (length_fmap fst), <- (size_list_to_set (C := gset string))
    by (eapply sublist_NoDup; [done|apply items_of_keys]).
  rewrite <- (size_dom (D := gset string)). f_equal. apply set_eq. intros u.
  rewrite elem_of_list_to_set, elem_of_dom, list_elem_of_fmap. split.
  - intros ([u' conv] & -> & [_ Hlook]%elem_of_items_of). by eexists.
  - intros [conv Hlook]. exists (u, conv). split; [done|].
    apply elem_of_items_of. split; [|done]. apply Hdom. by eexists.
Qed.

Lemma insert_by_last_updated_Permutation item items :
  insert_by_last_updated item items ≡ₚ item :: items.
Proof.
  induction items as [|other items IH]; simpl; [done|].
  destruct (Qle_bool _ _); [done|]. rewrite IH. apply perm_swap.
Qed.

Lemma sorted_by_last_updated_Permutation items :
  sorted_by_last_updated items ≡ₚ items.
Proof.
  induction items as [|item items IH]; simpl; [done|].
  by rewrite insert_by_last_updated_Permutation, IH.
Qed.

Lemma insert_by_last_updated_sorted item items :
  StronglySorted (λ x y, (last_updated x.2 <= last_updated y.2)%Q) items →
  StronglySorted (λ x y, (last_updated x.2 <= last_updated y.2)%Q)
    (insert_by_last_updated item items).
Proof.
  induction 1 as [|other items Hsorted IH Hother]; simpl.
  - repeat constructor.
  - destruct (Qle_bool _ _) eqn:Hle.
    + apply Qle_bool_iff in Hle. constructor; [by constructor|].
      constructor; [done|]. eapply Forall_impl; [done|].
      intros y Hy. simpl in *. by apply (Qle_trans _ _ _ Hle).
    + constructor; [done|].
      rewrite insert_by_last_updated_Permutation. constructor; [|done].
      apply Qlt_le_weak, Qnot_le_lt. intros Hle'%Qle_bool_iff. congruence.
Qed.

Lemma sorted_by_last_updated_sorted items :
  StronglySorted (λ x y, (last_updated x.2 <= last_updated y.2)%Q)
    (sorted_by_last_updated items).
Proof.
  induction items as [|item items IH]; simpl; [constructor|].
  by apply insert_by_last_updated_sorted.
Qed.

(** What is left once the conversations older than the cutoff are deleted. *)
Lemma delete_old_lookup keys (mem : ConversationMemory) (cutoff : Q) (u : string) conv :
  (∀ u, u ∈ keys ↔ is_Some (conversations mem !! u)) →
  delete_all
    (List.filter (λ item, Qlt_bool (last_updated item.2) cutoff)
       (items_of keys (conversations mem))).*1
    (conversations mem) !! u = Some conv
  ↔ conversations mem !! u = Some conv ∧ (cutoff <= last_updated conv)%Q.
Proof.
  intros Hkeys. rewrite delete_all_lookup_Some. split.
  - intros [Hlook Hfresh]. split; [done|]. apply Qnot_lt_le. intros Hold.
    apply Hfresh, list_elem_of_fmap. exists (u, conv). split; [done|].
    apply elem_of_bfilter. split.
    + apply elem_of_items_of. split; [|done]. apply Hkeys. by eexists.
    + by apply Qlt_bool_true.
  - intros [Hlook Hfresh]. split; [done|].
    intros ([u' c] & -> & [Hin Hold]%elem_of_bfilter)%list_elem_of_fmap.
    apply elem_of_items_of in Hin as [_ Hc]. simpl in *.
    rewrite Hlook in Hc. injection Hc as <-.
    apply Qlt_bool_true in Hold. by apply Qlt_not_le in Hold.
Qed.

(** X28. [cleanup_old_conversations] only deletes.  What it keeps was
    active since the cutoff; when the cap is not negative at most
    [max_conversations] conversations are kept; and a conversation deleted
    although it was active since the cutoff was not more recently active
    than any conversation kept. *)
Theorem cleanup_old_conversations_keeps_recent (max_age_hours : Z) keys
    (mem : ConversationMemory) (w : World) :
  NoDup keys →
  (∀ u, u ∈ keys ↔ is_Some (conversations mem !! u)) →
  let cutoff := ((time_time w).1 - inject_Z (max_age_hours * 3600))%Q in
  let mem' := (cleanup_old_conversations max_age_hours keys mem w).1 in
  (∀ u conv, conversations mem' !! u = Some conv →
     conversations mem !! u = Some conv ∧ (cutoff <= last_updated conv)%Q) ∧
  ((0 ≤ max_conversations mem)%Z →
     (Z.of_nat (size (conversations mem')) ≤ max_conversations mem)%Z) ∧
  (∀ u conv u' conv',
     conversations mem !! u = Some conv → (cutoff <= last_updated conv)%Q →
     conversations mem' !! u = None →
     conversations mem' !! u' = Some conv' →
     (last_updated conv <= last_updated conv')%Q).
Proof.
  intros Hnd Hkeys. cbv zeta. unfold cleanup_old_conversations.
  destruct (time_time w) as [now w1]. cbn [fst conversations].
  set (cutoff := (now - inject_Z (max_age_hours * 3600))%Q).
  pose proof (λ u conv, delete_old_lookup keys mem cutoff u conv Hkeys) as Hm1.
  set (m1 := delete_all _ (conversations mem)) in *.
  destruct (max_conversations mem <? Z.of_nat (size m1))%Z eqn:Hexcess.
  2:{ apply Z.ltb_ge in Hexcess. split; [intros u conv; apply Hm1|].
      split; [done|]. intros u conv u' conv' Hlook Hfresh Hgone _.
      by rewrite (proj2 (Hm1 u conv) (conj Hlook Hfresh)) in Hgone. }
  apply Z.ltb_lt in Hexcess.
  set (sorted := sorted_by_last_updated (items_of keys m1)).
  set (n := Z.to_nat (Z.of_nat (size m1) - max_conversations mem)).
  assert (∀ u conv, (u, conv) ∈ sorted ↔ m1 !! u = Some conv) as Hsorted.
  { intros u conv. unfold sorted.
    rewrite sorted_by_last_updated_Permutation, elem_of_items_of. split; [by intros [_ ?]|].
    intros Hlook. split; [|done]. apply Hkeys. apply Hm1 in Hlook as [Hlook _]. by eexists. }
  assert (NoDup sorted.*1) as Hnodup.
  { unfold sorted. rewrite sorted_by_last_updated_Permutation.
    eapply sublist_NoDup; [done|apply items_of_keys]. }
  assert (length sorted = size m1) as Hlength.
  { unfold sorted. rewrite sorted_by_last_updated_Permutation.
    apply items_of_length; [done|]. intros u [conv Hlook]. apply Hkeys.
    apply Hm1 in Hlook as [Hlook _]. by eexists. }
  split; [|split].
  - intros u conv [Hlook _]%delete_all_lookup_Some. by apply Hm1.
  - intros Hcap.
    pose proof (delete_all_size (take n sorted).*1 m1) as Hsize.
    rewrite length_fmap, length_take, Hlength in Hsize.
    enough (size (delete_all (take n sorted).*1 m1) + n `min` size m1 = size m1) by lia.
    apply Hsize.
    + rewrite fmap_take. eapply sublist_NoDup; [done|apply sublist_take].
    + intros u ([u' conv] & -> & Hin)%list_elem_of_fmap. exists conv.
      apply Hsorted. rewrite <- (take_drop n sorted), elem_of_app. by left.
  - intros u conv u' conv' Hlook Hfresh Hgone Hkept.
    pose proof (proj2 (Hm1 u conv) (conj Hlook Hfresh)) as Hu.
    apply delete_all_lookup_Some in Hkept as [Hu' Hnot].
    assert ((u, conv) ∈ take n sorted) as Htake.
    { destruct (decide (u ∈ (take n sorted).*1)) as [Hin|Hout].
      - apply list_elem_of_fmap in Hin as ([u0 c] & -> & Hin).
        assert (m1 !! u0 = Some c) as Hc.
        { apply Hsorted. rewrite <- (take_drop n sorted), elem_of_app. by left. }
        simpl in Hu. rewrite Hu in Hc. by injection Hc as <-.
      - by rewrite (proj2 (delete_all_lookup_Some _ m1 u conv) (conj Hu Hout)) in Hgone. }
    assert ((u', conv') ∈ drop n sorted) as Hdrop.
    { apply Hsorted in Hu'. rewrite <- (take_drop n sorted), elem_of_app in Hu'.
      destruct Hu' as [Hin|Hin]; [|done].
      destruct Hnot. apply list_elem_of_fmap. by exists (u', conv'). }
    pose proof (sorted_by_last_updated_sorted (items_of keys m1)) as Hord.
    fold sorted in Hord. rewrite <- (take_drop n sorted) in Hord.
    apply (StronglySorted_app_1_elem_of _ _ _ _ _ Hord Htake Hdrop).
Qed.

End CleanupFacts.

(** ** Search terms *)

Section SearchTermFacts.
Import IntelligentAgent.

(** A word of [split] is not empty and starts with a character that is not
    a space. *)
Lemma split_head (s w : string) :
  w ∈ Py.split s → ∃ c r, w = String c r ∧ Py.is_space c = false.
Proof.
  revert w. induction s as [|c s IH]; intros w; simpl; [by intros ?%elem_of_nil|].
  destruct (Py.is_space c) eqn:Hc; [apply IH|].
  destruct s as [|c' s']; [intros ->%list_elem_of_singleton; eauto|].
  destruct (Py.is_space c').
  - intros [->|Hw]%elem_of_cons; [eauto|by apply IH].
  - destruct (Py.split (String c' s')) as [|word words].
    + intros ->%list_elem_of_singleton; eauto.
    + intros [->|Hw]%elem_of_cons; [eauto|]. apply IH. by right.
Qed.

Lemma split_two (c d : Ascii.ascii) (r : string) :
  Py.split (String c (String d r)) =
    if Py.is_space c then Py.split (String d r)
    else if Py.is_space d then String c "" :: Py.split (String d r)
    else match Py.split (String d r) with
         | word :: words => String c word :: words
         | [] => [String c ""]
         end.
Proof. done. Qed.

Lemma split_word (s w : string) : w ∈ Py.split s → Py.split w = [w].
Proof.
  revert w. induction s as [|c s IH]; intros w; simpl; [by intros ?%elem_of_nil|].
  destruct (Py.is_space c) eqn:Hc; [apply IH|].
  assert (Py.split (String c "") = [String c ""]) as Hone by (simpl; by rewrite Hc).
  destruct s as [|c' s']; [by intros ->%list_elem_of_singleton|].
  destruct (Py.is_space c').
  - intros [->|Hw]%elem_of_cons; [done|by apply IH].
  - destruct (Py.split (String c' s')) as [|word words] eqn:Hsplit.
    + by intros ->%list_elem_of_singleton.
    + intros [->|Hw]%elem_of_cons; [|apply IH; by right].
      assert (word ∈ Py.split (String c' s')) as Hword by (rewrite Hsplit; left).
      pose proof (IH word ltac:(by left)) as Hw.
      apply split_head in Hword as (d & r & -> & Hd).
      by rewrite split_two, Hc, Hd, Hw.
Qed.

Lemma split_word_space (w t : string) :
  Py.split w = [w] → Py.split (w +:+ (" " +:+ t)) = w :: Py.split t.
Proof.
  induction w as [|c w IH]; [done|]. 
  intros Hw.
  assert (Py.is_space c = false) as Hc.
  { destruct (split_head (String c w) (String c w)) as (c0 & r & [= <- <-] & ?); [|done].
    rewrite Hw. left. }
  destruct w as [|c' w'].
  { simpl. by rewrite Hc. }
  rewrite split_two, Hc in Hw.
  destruct (Py.is_space c') eqn:Hc'; [done|].
  assert (Py.split (String c' w') = [String c' w']) as Hw'.
  { destruct (Py.split (String c' w')) as [|word [|? ?]]; [done| |done].
    by injection Hw as ->. }
  specialize (IH Hw').
  change (String c (String c' w') +:+ (" " +:+ t))
    with (String c (String c' (w' +:+ (" " +:+ t)))).
  change (String c' w' +:+ (" " +:+ t)) with (String c' (w' +:+ (" " +:+ t))) in IH.
  by rewrite split_two, Hc, Hc', IH.
Qed.

Lemma split_join (words : list string) :
  Forall (λ w, Py.split w = [w]) words → Py.split (Py.join " " words) = words.
Proof.
  induction 1 as [|w words Hw Hwords IH]; [done|].
  destruct words as [|w2 words]; [done|].
  change (Py.join " " (w :: w2 :: words))
    with (w +:+ (" " +:+ Py.join " " (w2 :: words))).
  by rewrite split_word_space, IH.
Qed.

Lemma lower_append (s t : string) : Py.lower (s +:+ t) = Py.lower s +:+ Py.lower t.
Proof. induction s as [|c s IH]; simpl; [done|by rewrite IH]. Qed.

Lemma lower_join (words : list string) :
  Forall (λ w, Py.lower w = w) words → Py.lower (Py.join " " words) = Py.join " " words.
Proof.
  induction 1 as [|w words Hw Hwords IH]; [done|].
  destruct words as [|w2 words]; [done|].
  change (Py.join " " (w :: w2 :: words))
    with (w +:+ " " +:+ Py.join " " (w2 :: words)).
  by rewrite !lower_append, Hw, IH.
Qed.

Lemma split_lower (s : string) : Py.split (Py.lower s) = Py.lower <$> Py.split s.
Proof.
  induction s as [|c s IH]; [done|].
  destruct s as [|c' s'].
  { simpl. rewrite is_space_lower_char. by destruct (Py.is_space c). }
  change (Py.lower (String c (String c' s')))
    with (String (Py.lower_char c) (Py.lower (String c' s'))).
  change (Py.lower (String c' s')) with (String (Py.lower_char c') (Py.lower s')) at 1.
  rewrite !split_two, !is_space_lower_char.
  change (String (Py.lower_char c') (Py.lower s')) with (Py.lower (String c' s')).
  rewrite IH.
  destruct (Py.is_space c); [done|]. destruct (Py.is_space c'); [done|].
  by destruct (Py.split (String c' s')).
Qed.

Lemma bfilter_idem {A} (f : A → bool) (l : list A) :
  List.filter f (List.filter f l) = List.filter f l.
Proof.
  induction l as [|x l IH]; simpl; [done|].
  destruct (f x) eqn:Hx; simpl; [|done]. by rewrite Hx, IH.
Qed.

(** X29. Extracting the search terms a second time changes nothing: the
    terms kept are words in lower case, none of them a stop word or shorter
    than three characters, and joining them with single spaces and
    splitting again gives the same words. *)
Theorem extract_search_terms_idempotent (query : string) :
  _extract_search_terms (_extract_search_terms query) = _extract_search_terms query.
Proof.
  unfold _extract_search_terms at 2 3.
  set (p := λ word, negb (bool_decide (word ∈ stop_words)) && (2 <? Py.len word)).
  destruct (List.filter p (Py.split (Py.lower query))) as [|k ks] eqn:Hkeys.
  { unfold _extract_search_terms. fold p. by rewrite Hkeys. }
  set (key_words := k :: ks) in *.
  assert (Forall (λ w, w ∈ Py.split (Py.lower query)) key_words) as Hin.
  { apply Forall_forall. intros w Hw. rewrite <- Hkeys in Hw.
    by apply elem_of_bfilter in Hw as [? _]. }
  assert (Py.lower (Py.join " " key_words) = Py.join " " key_words) as Hlower.
  { apply lower_join. eapply Forall_impl; [done|]. intros w Hw. simpl in Hw.
    rewrite split_lower in Hw. apply list_elem_of_fmap in Hw as (x & -> & _).
    apply lower_idem. }
  assert (Py.split (Py.join " " key_words) = key_words) as Hsplit.
  { apply split_join. eapply Forall_impl; [done|]. intros w Hw. simpl in Hw.
    exact (split_word _ _ Hw). }
  unfold _extract_search_terms. fold p. rewrite Hlower, Hsplit.
  rewrite <- Hkeys, bfilter_idem, Hkeys. done.
Qed.
End SearchTermFacts.

(** ** The quota along the general chat path *)

Section QuotaFacts.
Context {World : Type} `{!Env World}.
Import IntelligentAgent.

(** X30. The general chat path keeps the count of requests within the
    limit.  If the monitor is coherent (the flag is raised as soon as the
    count reaches the limit), it is so afterwards, with the same limit and a
    count that grew by one at most; and when the flag is raised, the model is
    not asked and the agent is left as it was. *)
Theorem general_query_respects_quota (query : string) (uid : option string)
    (a : Agent) (w : World) :
  let q := quota_monitor a in
  (quota_exceeded q = false → requests_made q < quota_limit q)%Z →
  (requests_made q ≤ quota_limit q)%Z →
  let a' := (_handle_general_query query uid a w).1.2 in
  let q' := quota_monitor a' in
  (quota_exceeded q' = false → requests_made q' < quota_limit q')%Z ∧
  (requests_made q' ≤ quota_limit q')%Z ∧
  quota_limit q' = quota_limit q ∧
  (requests_made q ≤ requests_made q' ≤ requests_made q + 1)%Z ∧
  (quota_exceeded q = true →
   _handle_general_query query uid a w
     = (_format_general_quota_exceeded_response query, a, w)).
Proof.
  intros q Hcoherent Hlimit a' q'.
  assert (quota_exceeded q = true →
          _handle_general_query query uid a w
            = (_format_general_quota_exceeded_response query, a, w)) as Hstop.
  { intros Hflag. unfold _handle_general_query, can_make_request. fold q.
    by rewrite Hflag. }
  enough ((quota_exceeded q' = false → requests_made q' < quota_limit q')%Z ∧
          (requests_made q' ≤ quota_limit q')%Z ∧
          quota_limit q' = quota_limit q ∧
          (requests_made q ≤ requests_made q' ≤ requests_made q + 1)%Z)
    as (? & ? & ? & ?) by done.
  destruct (quota_exceeded q) eqn:Hflag.
  { unfold q', a'. rewrite Hstop by done. simpl. fold q. rewrite Hflag.
    repeat split; (done || lia). }
  specialize (Hcoherent eq_refl).
  assert (
    (quota_exceeded (increment_request q) = false →
     requests_made (increment_request q) < quota_limit (increment_request q))%Z ∧
    (requests_made (increment_request q) ≤ quota_limit (increment_request q))%Z ∧
    quota_limit (increment_request q) = quota_limit q ∧
    (requests_made q ≤ requests_made (increment_request q) ≤ requests_made q + 1)%Z)
    as Hcounted.
  { unfold increment_request. simpl. rewrite Hflag.
    destruct (Z.leb_spec (quota_limit q) (requests_made q + 1));
      repeat split; (done || lia). }
  unfold q', a', _handle_general_query, can_make_request. fold q. rewrite Hflag.
  cbn [negb].
  assert (∃ ctx a1 w1,
    match truthy uid with
    | Some u =>
        let '(context, mem1, w1) :=
          Memory.get_conversation_context u 8 (conversation_memory a) w in
        (if bool_decide (context = "") then ""
         else Py.nl +:+ Py.nl +:+ "Previous conversation:" +:+ Py.nl +:+ context +:+ Py.nl,
         set_memory a mem1, w1)
    | None => ("", a, w)
    end = (ctx, a1, w1) ∧ quota_monitor a1 = q) as (ctx & a1 & w1 & -> & Hq1).
  { destruct (truthy uid) as [u|]; [|by eexists _, _, _].
    destruct (Memory.get_conversation_context u 8 _ w) as [[context mem1] w1].
    by eexists _, _, _. }
  destruct (generate_content _ w1) as [[[text|e]|e] w2].
  - destruct (bool_decide (text = ""));
      [cbn [fst snd set_quota quota_monitor]; by rewrite Hq1|].
    destruct (_ && _); cbn [fst snd set_quota quota_monitor]; by rewrite Hq1.
  - cbn [fst snd set_quota quota_monitor]. by rewrite Hq1.
  - cbn [fst snd]. rewrite Hq1, Hflag. repeat split; (done || lia).
Qed.

End QuotaFacts.

(** ** Instances of the further properties *)

Section FurtherWitnesses.
Import Examples Samples.

Ltac elem_cases H :=
  repeat (apply elem_of_cons in H as [H|H]; [try subst|]);
  try (by apply elem_of_nil in H).

Lemma select_tool_priority_witness :
  ∃ r, ToolManager.select_tool eager_tools "rain" = ([], Returned (Some r)) ∧
       name r = "Weather".
Proof.
  destruct (select_tool_priority eager_tools "rain" (eager_tool "Weather"))
    as (r & i & Hsel & _ & _ & Hi & Hmin).
  - intros u Hu. exists true. elem_cases Hu; reflexivity.
  - right. left.
  - reflexivity.
  - vm_compute. do 5 right. left.
  - exists r. split; [exact Hsel|].
    assert (i ≤ 5) as Hle.
    { apply (Hmin (eager_tool "Weather") 5); [right; left|reflexivity|reflexivity]. }
    vm_compute in Hsel. injection Hsel as <-. reflexivity.
Defined.

Lemma select_tool_listed_name_witness :
  eager_tool "Weather" ∈ eager_tools ∧
  name (eager_tool "Weather") ∈ ToolManager.priority_order.
Proof.
  destruct (select_tool_listed_name eager_tools "rain" [] (eager_tool "Weather"))
    as (Hin & Hname & _); [reflexivity|].
  split; [exact Hin|exact Hname].
Defined.

Lemma select_tool_registration_order_witness :
  ∃ log (selected selected' : option (BaseTool unit)),
    ToolManager.select_tool eager_tools "rain" = (log, Returned selected) ∧
    ToolManager.select_tool [eager_tool "Weather"; eager_tool "WebSearch"] "rain"
      = (log, Returned selected') ∧
    name <$> selected = name <$> selected'.
Proof.
  apply (select_tool_registration_order eager_tools
           [eager_tool "Weather"; eager_tool "WebSearch"] "rain").
  - apply perm_swap.
  - intros u Hu. exists true. elem_cases Hu; reflexivity.
Defined.

Lemma needs_tool_false_fallback_witness :
  ToolManager.select_tool fallback_only "rain"
    = ([], Returned (Some (silent_tool "WebSearch"))).
Proof. apply (needs_tool_false_fallback fallback_only "rain"). reflexivity. Defined.

Lemma sort_steps_independent_first_witness :
  ∃ log order rest,
    WorkflowManager._sort_steps_by_dependencies search_step
      = Some (log, Returned order) ∧
    order = List.filter (λ s, bool_decide (WorkflowManager.deps s = [])) search_step
            ++ rest ∧
    order = search_step ∧ log = [].
Proof.
  destruct (sort_steps_independent_first search_step)
    as (log & order & rest & Hsort & Horder & Hall).
  exists log, order, rest. split; [exact Hsort|]. split; [exact Horder|].
  apply Hall. intros s Hs. elem_cases Hs. reflexivity.
Defined.

Lemma execute_workflow_success_complete_witness :
  ∃ r log w',
    WorkflowManager.execute_workflow (Env0 := quiet_env no_answer)
      [silent_tool "WebSearch"] search_step () = Some (Returned r, log, w') ∧
    success r = true ∧
    steps_completed r = total_steps r ∧
    is_Some (results r !! "a").
Proof.
  destruct (execute_workflow_success_complete (Env0 := quiet_env no_answer)
              [silent_tool "WebSearch"] search_step ())
    as (r & log & w' & Hrun & Himp).
  exists r, log, w'. split; [exact Hrun|].
  assert (success r = true) as Hs.
  { vm_compute in Hrun. injection Hrun as <- _ _. reflexivity. }
  destruct (Himp Hs) as [Hc Hres]. split; [exact Hs|]. split; [exact Hc|].
  apply (Hres (mk_step "a" "WebSearch" None)). left.
Defined.

Lemma execute_workflow_dependent_skipped_witness :
  ∃ r log w',
    WorkflowManager.execute_workflow (Env0 := quiet_env no_answer)
      [failing_tool "Weather"; silent_tool "WebSearch"] ordered_steps ()
      = Some (Returned r, log, w') ∧
    "Missing dependencies for step b: [a]" ∈ errors r.
Proof.
  destruct (execute_workflow_dependent_skipped (Env0 := quiet_env no_answer)
              [failing_tool "Weather"; silent_tool "WebSearch"] ordered_steps ())
    as (log0 & order & r & log & w' & Hsort & Hrun & Hskip).
  exists r, log, w'. split; [exact Hrun|].
  assert (order = ordered_steps) as ->.
  { vm_compute in Hsort. by injection Hsort as <-. }
  destruct (Hskip [] (mk_step "a" "Weather" None) []
              (mk_step "b" "WebSearch" (Some ["a"])) [] boom ())
    as (_ & _ & Herr).
  - reflexivity.
  - reflexivity.
  - reflexivity.
  - left.
  - intros x Hx. elem_cases Hx.
  - exact Herr.
Defined.

Lemma sort_steps_valid_order_witness :
  ∃ order,
    WorkflowManager._sort_steps_by_dependencies ordered_steps
      = Some ([], Returned order) ∧
    order ≡ₚ ordered_steps ∧ respects_deps order.
Proof.
  apply (sort_steps_valid_order ordered_steps).
  intros l1 s l2 Heq d Hd.
  unfold ordered_steps in Heq.
  destruct l1 as [|x [|y l1]]; simplify_eq/=.
  - elem_cases Hd.
  - elem_cases Hd. left.
  - by destruct l1.
Defined.

Lemma parse_ai_workflow_linear_witness :
  ∃ plan,
    WorkflowManager._parse_ai_workflow_response two_step_answer "q" = (plan, []) ∧
    length plan = 2 ∧ respects_deps plan.
Proof.
  destruct (parse_ai_workflow_linear two_step_answer "q")
    as (plan & Hparse & Hlen & _ & Hresp).
  - intros k line Hk. destruct k as [|[|k]]; [| |discriminate Hk].
    + injection Hk as <-. split; [reflexivity|]. eexists. reflexivity.
    + injection Hk as <-. split; [reflexivity|]. eexists. reflexivity.
  - exists plan. split; [exact Hparse|]. split; [exact Hlen|exact Hresp].
Defined.

Lemma get_conversation_context_registers_witness :
  (Memory.get_conversation_context (Env0 := quiet_env no_answer)
     "u" 10 empty_memory ()).1.1 = "" ∧
  Memory.analyze_conversation (Env0 := quiet_env no_answer) "u"
    (Memory.get_conversation_context (Env0 := quiet_env no_answer)
       "u" 10 empty_memory ()).1.2
    = NoHistory "No messages in conversation history.".
Proof.
  destruct (get_conversation_context_registers (Env0 := quiet_env no_answer)
              "u" 10 empty_memory ()) as (Hctx & _ & Hanalysis & _);
    [reflexivity|].
  split; [exact Hctx|exact Hanalysis].
Defined.

Lemma run_calls_isolated_witness :
  conversations (run_calls (Env0 := ticking_env) three_calls hello_memory 0 []).1.1 !! "v"
    = conversations hello_memory !! "v".
Proof.
  apply (run_calls_isolated (Env0 := ticking_env) three_calls hello_memory 0 [] "v").
  intros Hin. cbn in Hin. elem_cases Hin; discriminate Hin.
Defined.

Lemma analyze_conversation_counts_witness :
  ∃ summary topics sentiment insights context recent,
    Memory.analyze_conversation (Env0 := ticking_env) "u"
      (run_calls (Env0 := ticking_env) three_calls empty_memory 0 []).1.1
      = Report summary topics sentiment insights context recent ∧
    total_messages summary = 3 ∧
    user_messages summary + assistant_messages summary = total_messages summary ∧
    length insights = 5.
Proof.
  pose proof (analyze_conversation_counts (Env0 := ticking_env)
                three_calls empty_memory 0 "u") as Hcounts.
  cbv zeta in Hcounts.
  destruct (Memory.analyze_conversation "u" _)
    as [msg|summary topics sentiment insights context recent] eqn:Hreport;
    [vm_compute in Hreport; discriminate Hreport|].
  exists summary, topics, sentiment, insights, context, recent.
  split; [reflexivity|].
  destruct Hcounts as (Htotal & Hsum & _ & Hfive & _).
  - intros u conv Hlook. cbn in Hlook. rewrite lookup_empty in Hlook. discriminate Hlook.
  - split; [|split; [exact Hsum|exact Hfive]].
    rewrite Htotal. vm_compute. reflexivity.
Defined.

Lemma process_message_blank_witness :
  (IntelligentAgent.process_message (Env0 := quiet_env no_answer)
     echo_handler "   " (Some "u") fresh_agent ()).1.1
    = IntelligentAgent.no_message_reply ∧
  conversation_memory
    (IntelligentAgent.process_message (Env0 := quiet_env no_answer)
       echo_handler "   " (Some "u") fresh_agent ()).1.2
    = conversation_memory fresh_agent.
Proof.
  pose proof (process_message_blank (Env0 := quiet_env no_answer)
                echo_handler echo_handler "   " (Some "u") fresh_agent () eq_refl)
    as Hblank.
  destruct (IntelligentAgent.process_message echo_handler "   " (Some "u") fresh_agent ())
    as [[reply a'] w'].
  destruct Hblank as (Hreply & _ & Hmem & _). split; [exact Hreply|exact Hmem].
Defined.

Lemma process_message_reset_bound_witness :
  let a' := (IntelligentAgent.process_message (Env0 := quiet_env no_answer)
               echo_handler "hello" (Some "u") fresh_agent ()).1.2 in
  message_count a' = (message_count fresh_agent + 1)%Z ∧
  (message_count a' - last_reset a' ≤ 50)%Z.
Proof.
  apply (process_message_reset_bound (Env0 := quiet_env no_answer)
           echo_handler "hello" (Some "u") fresh_agent ()).
  - intros q u a0 w0. split; reflexivity.
  - intros w0. reflexivity.
  - vm_compute. discriminate.
Defined.

Lemma execute_workflow_completed_keys_witness :
  ∃ r log w',
    WorkflowManager.execute_workflow (Env0 := quiet_env no_answer)
      [silent_tool "WebSearch"] search_step () = Some (Returned r, log, w') ∧
    steps_completed r ≤ size (results r).
Proof.
  apply (execute_workflow_completed_keys (Env0 := quiet_env no_answer)
           [silent_tool "WebSearch"] search_step ()).
  cbn. apply NoDup_singleton.
Defined.

Lemma tool_suggestions_needs_tool_witness :
  ToolManager.get_tool_suggestions fallback_only "rain" = Returned [] ∧
  ToolManager.needs_tool eager_tools "rain" = Returned true.
Proof.
  destruct (tool_suggestions_needs_tool fallback_only "rain") as [[Hnone _] _].
  destruct (tool_suggestions_needs_tool eager_tools "rain") as [_ Hsome].
  split; [apply Hnone; reflexivity|].
  destruct (Hsome ["WebSearch: WebSearch tool"; "Weather: Weather tool"]) as [_ Hneeds];
    [reflexivity|exact Hneeds].
Defined.

Lemma detect_weather_email_witness :
  WorkflowPlanner.detect_workflow_intent (Env0 := quiet_env no_answer)
    "Check the WEATHER and email Bob" () = (Some "weather_email", [], ()).
Proof.
  apply (detect_weather_email (Env0 := quiet_env no_answer)
           "Check the WEATHER and email Bob" "check the " " and " " bob" ());
    reflexivity.
Defined.

Lemma detected_workflow_created_witness :
  ∃ e,
    (WorkflowPlanner.create_workflow (Env0 := quiet_env no_answer) (H := no_match)
       "meeting_prep" "prepare the meeting" ()).1.1 = Raised e ∧
    exn_class e = "AttributeError".
Proof.
  destruct (detected_workflow_created (Env0 := quiet_env no_answer) (H := no_match)
              "prepare the meeting" () "meeting_prep" [] ())
    as (_ & outcome & Hcreate & Houtcome); [reflexivity|].
  rewrite Hcreate. cbn [fst].
  destruct outcome as [steps|e].
  - destruct Houtcome as ([Hname|Hname] & _); discriminate Hname.
  - exists e. split; [reflexivity|apply Houtcome].
Defined.

Lemma cleanup_old_conversations_keeps_recent_witness :
  (Z.of_nat
     (size (conversations
              (MemoryCleanup.cleanup_old_conversations (Env0 := quiet_env no_answer)
                 48 ["u"; "v"] two_user_memory ()).1)) ≤ 1)%Z.
Proof.
  destruct (cleanup_old_conversations_keeps_recent (Env0 := quiet_env no_answer)
              48 ["u"; "v"] two_user_memory ()) as (_ & Hsize & _).
  - apply NoDup_cons. split; [|apply NoDup_singleton].
    intros Hin. elem_cases Hin. discriminate Hin.
  - intros u. split.
    + intros Hu. elem_cases Hu; vm_compute; eexists; reflexivity.
    + intros [conv Hconv]. unfold two_user_memory in Hconv. cbn in Hconv.
      destruct (decide (u = "u")) as [->|Hu]; [left|].
      destruct (decide (u = "v")) as [->|Hv]; [right; left|].
      rewrite lookup_insert_ne, lookup_singleton_ne in Hconv by done.
      discriminate Hconv.
  - apply Hsize. vm_compute. discriminate.
Defined.

Lemma general_query_respects_quota_witness :
  (requests_made
     (quota_monitor
        (IntelligentAgent._handle_general_query (Env0 := quiet_env parrot_answer)
           "hello" (Some "u") fresh_agent ()).1.2)
   ≤ quota_limit (quota_monitor fresh_agent))%Z.
Proof.
  destruct (general_query_respects_quota (Env0 := quiet_env parrot_answer)
              "hello" (Some "u") fresh_agent ()) as (_ & Hbound & Hlimit & _).
  - intros _. reflexivity.
  - vm_compute. discriminate.
  - rewrite <- Hlimit. exact Hbound.
Defined.

End FurtherWitnesses.
